(** * newtype-gateway: the request-dispatch pipeline, embedded and verified

    A shallow embedding of the TypeScript sources of the gateway
    (router, rate limiter, provider adapters and their error
    normalisation, response transformer, request handler, HTTP layer,
    token store, auth manager, usage tracker, dashboard token route)
    followed by the properties proved about them.

    Conventions of the embedding
    - JavaScript [number]s that hold counts, priorities, HTTP statuses and
      epoch milliseconds are [Z].
    - A JS [Map] is a [gmap]; where the source iterates a map, the
      properties proved here do not depend on the iteration order.
    - [Date.now()] and [randomUUID()] read an oracle: the k-th call of the
      run returns [clock k] (resp. [uuid k]); the number of calls made so
      far is part of the state.
    - A [throw] is the [Throw] result of an operation; the thrown value is
      either an [Error] instance or a plain [ProviderError] object. *)

From Stdlib Require Import ZArith Lia Ascii.
From stdpp Require Import base option strings list gmap fin_maps sorting.

Set Warnings "-register-all".
Local Open Scope string_scope.
Local Open Scope Z_scope.

(* ===================================================================== *)
(** ** Effects: state passing, the clock and exceptions                   *)
(* ===================================================================== *)

(** A stateful computation over a state [St]. *)
Definition M (St A : Type) : Type := St -> A * St.

Definition ret {St A} (a : A) : M St A := fun s => (a, s).

Definition bind {St A B} (m : M St A) (k : A -> M St B) : M St B :=
  fun s => let (a, s') := m s in k a s'.

Definition get {St} : M St St := fun s => (s, s).
Definition modify {St} (f : St -> St) : M St unit := fun s => (tt, f s).

Notation "'let*' x ':=' m 'in' k" := (bind m (fun x => k))
  (at level 10, x name, m at level 100, k at level 200).

(** An object of the program together with the number of clock readings
    taken so far. *)
Record Timed (S : Type) : Type := mkTimed { obj : S; ticks : nat }.
Arguments mkTimed {S} _ _.
Arguments obj {S} _.
Arguments ticks {S} _.

(** [Date.now()]: the next reading of the clock oracle. *)
Definition Date_now (clock : nat -> Z) {S} : M (Timed S) Z :=
  fun w => (clock (ticks w), mkTimed (obj w) (Datatypes.S (ticks w))).

(** Reading and updating the object itself ([this]). *)
Definition getR {S} : M (Timed S) S := fun w => (obj w, w).
Definition setR {S} (f : S -> S) : M (Timed S) unit :=
  fun w => (tt, mkTimed (f (obj w)) (ticks w)).

(** What a [throw] carries in this code base. *)
Inductive ErrorType : Type :=
| auth | rate_limit | service_unavailable | invalid_request | unknown.

Record ProviderError : Type := mkProviderError {
  pe_provider : string;
  pe_statusCode : option Z;
  pe_message : string;
  pe_type : ErrorType;
  pe_retryable : bool
}.

Inductive JsThrown : Type :=
| JsError (message : string)                (* an instance of Error *)
| JsProviderError (pe : ProviderError).     (* a plain object literal *)

Inductive Result (A : Type) : Type :=
| Return (a : A)
| Throw (e : JsThrown).
Arguments Return {A} _.
Arguments Throw {A} _.

#[global] Instance ErrorType_eq_dec : EqDecision ErrorType.
Proof. solve_decision. Defined.

(* ===================================================================== *)
(** ** Configuration types (config/types.ts)                              *)
(* ===================================================================== *)

Record ProviderModel : Type := mkProviderModel {
  provider : string;
  model : string;
  priority : Z
}.

Record ModelAlias : Type := mkModelAlias {
  alias : string;
  providers : list ProviderModel
}.

Record RateLimitConfig : Type := mkRateLimitConfig {
  rl_provider : string;
  requestsPerMinute : Z;
  maxQueueSize : Z
}.

Record RateLimitStatus : Type := mkRateLimitStatus {
  requestsInWindow : Z;
  queueLength : Z;
  nextAvailableSlot : Z
}.

Record ProviderConfig : Type := mkProviderConfig {
  enabled : bool;
  clientId : option string;
  clientSecret : option string;
  authEndpoint : option string;
  tokenEndpoint : option string;
  apiEndpoint : string
}.

(** [Array.prototype.sort((a, b) => a.priority - b.priority)]: a stable
    sort by ascending priority (ECMAScript 2019 makes [sort] stable). *)
Fixpoint insertByPriority (x : ProviderModel) (l : list ProviderModel)
  : list ProviderModel :=
  match l with
  | [] => [x]
  | y :: l' =>
      if priority x <=? priority y then x :: y :: l'
      else y :: insertByPriority x l'
  end.

Fixpoint sortByPriority (l : list ProviderModel) : list ProviderModel :=
  match l with
  | [] => []
  | x :: l' => insertByPriority x (sortByPriority l')
  end.

(** [s.indexOf('/')] together with the two [slice]s around it. *)
Fixpoint splitAtSlash (s : string) : option (string * string) :=
  match s with
  | EmptyString => None
  | String c rest =>
      if Ascii.eqb c "/"%char then Some (EmptyString, rest)
      else match splitAtSlash rest with
           | Some (p, m) => Some (String c p, m)
           | None => None
           end
  end.

(* ===================================================================== *)
(** ** router/router.ts                                                   *)
(* ===================================================================== *)

Module Router.

Record t : Type := mk {
  modelAliases : gmap string ModelAlias;
  failedProviders : gmap string Z;
  failureTTL : Z
}.

Definition setFailed (fp : gmap string Z) (r : t) : t :=
  mk (modelAliases r) fp (failureTTL r).

(** [new Router(config, failureTTL = 60000)] *)
Definition constructor (aliases : list ModelAlias) (ttl : option Z) : t :=
  mk (foldl (fun m a => <[alias a := a]> m) ∅ aliases)
     ∅
     (default 60000 ttl).

Section WithClock.
Variable clock : nat -> Z.

Definition resolveModelAlias (m : string) : M (Timed t) (Result (list ProviderModel)) :=
  let* r := getR in
  match modelAliases r !! m with
  | Some a => ret (Return (sortByPriority (providers a)))
  | None =>
      match splitAtSlash m with
      | Some (p, modelName) => ret (Return [mkProviderModel p modelName 0])
      | None => ret (Throw (JsError ("Unknown model: " +:+ m)))
      end
  end.

Definition markFailed (p : string) : M (Timed t) unit :=
  let* now := Date_now clock in
  setR (fun r => setFailed (<[p := now]> (failedProviders r)) r).

Definition clearExpiredFailures : M (Timed t) unit :=
  let* now := Date_now clock in
  setR (fun r =>
    setFailed (filter (fun kv => ¬ (now - kv.2 > failureTTL r)) (failedProviders r)) r).

Definition isProviderFailed (p : string) : M (Timed t) bool :=
  let* r := getR in
  match failedProviders r !! p with
  | None => ret false
  | Some timestamp =>
      let* now := Date_now clock in
      ret (bool_decide (now - timestamp <= failureTTL r))
  end.

(** The [for (const candidate of candidates)] loop of [selectProvider]:
    [available] and [failed] grow by [push]. *)
Fixpoint partitionCandidates (cs available failed : list ProviderModel)
  : M (Timed t) (list ProviderModel * list ProviderModel) :=
  match cs with
  | [] => ret (available, failed)
  | candidate :: cs' =>
      let* b := isProviderFailed (provider candidate) in
      if b then partitionCandidates cs' available (failed ++ [candidate])
      else partitionCandidates cs' (available ++ [candidate]) failed
  end.

Definition selectProvider (candidates : list ProviderModel)
  : M (Timed t) (option ProviderModel) :=
  if (length candidates =? 0)%nat then ret None
  else
    let* _ := clearExpiredFailures in
    let* af := partitionCandidates candidates [] [] in
    let available := sortByPriority af.1 in
    let failed := sortByPriority af.2 in
    match available with
    | a0 :: _ => ret (Some a0)
    | [] => ret (head failed)
    end.

Definition getNextProvider (m : string) (failedProvider : string)
  : M (Timed t) (Result (option ProviderModel)) :=
  let* _ := markFailed failedProvider in
  let* cs := resolveModelAlias m in
  match cs with
  | Throw e => ret (Throw e)
  | Return candidates =>
      let* sel := selectProvider candidates in
      ret (Return sel)
  end.

End WithClock.
End Router.

(* ===================================================================== *)
(** ** rate-limiter/rate-limiter.ts                                       *)
(* ===================================================================== *)

(** The state of the promise returned by an [async] operation when the
    synchronous part of the call has run. *)
Inductive Promise : Type :=
| Fulfilled                      (* Promise.resolve() *)
| Rejected (e : JsThrown)        (* Promise.reject(e) *)
| Pending (id : nat).            (* new Promise(...), not settled yet *)

(** A later call of a queued promise's [resolve] or [reject]. *)
Inductive Settlement : Type :=
| Resolve
| Reject (e : JsThrown).

(** [timestamps.findIndex(pred)]; [None] stands for -1. *)
Fixpoint findIndex {A} (pred : A -> bool) (l : list A) : option nat :=
  match l with
  | [] => None
  | x :: l' => if pred x then Some 0%nat
               else match findIndex pred l' with
                    | Some i => Some (S i)
                    | None => None
                    end
  end.

Module RateLimiter.

Record QueuedRequest : Type := mkQueued {
  waiter : nat;          (* the promise whose resolve/reject is stored *)
  enqueuedAt : Z
}.

Record t : Type := mk {
  configs : gmap string RateLimitConfig;
  requestTimestamps : gmap string (list Z);
  queues : gmap string (list QueuedRequest);
  timers : gset string;                 (* providers with a running interval *)
  promises : nat;                       (* promises created so far *)
  settled : list (nat * Settlement)     (* resolve/reject calls, in order *)
}.

Definition setTimestamps (p : string) (ts : list Z) (r : t) : t :=
  mk (configs r) (<[p := ts]> (requestTimestamps r)) (queues r) (timers r)
     (promises r) (settled r).
Definition setQueue (p : string) (q : list QueuedRequest) (r : t) : t :=
  mk (configs r) (requestTimestamps r) (<[p := q]> (queues r)) (timers r)
     (promises r) (settled r).
Definition setTimers (tm : gset string) (r : t) : t :=
  mk (configs r) (requestTimestamps r) (queues r) tm (promises r) (settled r).
Definition newPromise (r : t) : t :=
  mk (configs r) (requestTimestamps r) (queues r) (timers r)
     (S (promises r)) (settled r).
Definition settle (id : nat) (s : Settlement) (r : t) : t :=
  mk (configs r) (requestTimestamps r) (queues r) (timers r)
     (promises r) (settled r ++ [(id, s)]).

(** [new RateLimiter(configs)]: later entries of one provider win. *)
Definition constructor (cfgs : list RateLimitConfig) : t :=
  mk (foldl (fun m c => <[rl_provider c := c]> m) ∅ cfgs) ∅ ∅ ∅ 0%nat [].

Section WithClock.
Variable clock : nat -> Z.

Definition cleanWindow (p : string) : M (Timed t) unit :=
  let* r := getR in
  match requestTimestamps r !! p with
  | None => ret tt
  | Some timestamps =>
      let* now := Date_now clock in
      let cutoff := now - 60000 in
      match findIndex (fun x => bool_decide (x > cutoff)) timestamps with
      | None => setR (setTimestamps p [])
      | Some validIdx =>
          if (0 <? validIdx)%nat
          then setR (setTimestamps p (drop validIdx timestamps))
          else ret tt
      end
  end.

Definition startTimer (p : string) : M (Timed t) unit :=
  setR (fun r => if bool_decide (p ∈ timers r) then r
                 else setTimers ({[p]} ∪ timers r) r).

Definition stopTimer (p : string) : M (Timed t) unit :=
  setR (fun r => if bool_decide (p ∈ timers r)
                 then setTimers (timers r ∖ {[p]}) r else r).

Definition acquire (p : string) : M (Timed t) Promise :=
  let* r := getR in
  match configs r !! p with
  | None => ret Fulfilled
  | Some config =>
      let* _ := cleanWindow p in
      let* r := getR in
      let timestamps := default [] (requestTimestamps r !! p) in
      let* _ := setR (fun r => match requestTimestamps r !! p with
                               | Some _ => r
                               | None => setTimestamps p timestamps r
                               end) in
      let queue := default [] (queues r !! p) in
      let* _ := setR (fun r => match queues r !! p with
                               | Some _ => r
                               | None => setQueue p queue r
                               end) in
      if bool_decide (Z.of_nat (length timestamps) < requestsPerMinute config) then
        let* now := Date_now clock in
        let* _ := setR (setTimestamps p (timestamps ++ [now])) in
        ret Fulfilled
      else if bool_decide (Z.of_nat (length queue) < maxQueueSize config) then
        let* r := getR in
        let id := promises r in
        let* _ := setR newPromise in
        let* now := Date_now clock in
        let* _ := setR (setQueue p (queue ++ [mkQueued id now])) in
        let* _ := startTimer p in
        ret (Pending id)
      else
        ret (Rejected (JsError
               ("Rate limit exceeded: queue full for provider " +:+ p)))
  end.

Definition getStatus (p : string) : M (Timed t) RateLimitStatus :=
  let* r := getR in
  match configs r !! p with
  | None => ret (mkRateLimitStatus 0 0 0)
  | Some config =>
      let* _ := cleanWindow p in
      let* r := getR in
      let timestamps := default [] (requestTimestamps r !! p) in
      let queue := default [] (queues r !! p) in
      let nextAvailableSlot :=
        if bool_decide (Z.of_nat (length timestamps) >= requestsPerMinute config)
           && bool_decide (Z.of_nat (length timestamps) > 0)
        then default 0 (head timestamps) + 60000
        else 0 in
      ret (mkRateLimitStatus (Z.of_nat (length timestamps))
                             (Z.of_nat (length queue))
                             nextAvailableSlot)
  end.

(** The rejections of [dispose] for the queue of one provider. *)
Definition rejectAll (p : string) (queue : list QueuedRequest)
  : list (nat * Settlement) :=
  (fun item =>
     (waiter item,
      Reject (JsError ("Rate limiter disposed for provider " +:+ p))))
  <$> queue.

Definition dispose : M (Timed t) unit :=
  setR (fun r =>
    mk (configs r)
       (requestTimestamps r)
       ((fun _ => []) <$> queues r)
       ∅
       (promises r)
       (settled r ++
        (map_to_list (queues r) ≫= (fun pq => rejectAll pq.1 pq.2)))).

(** The [while] loop of [processQueue]; it ends when the queue is empty or
    the window is full, so it recurses on the queue. *)
Fixpoint releaseLoop (p : string) (rpm : Z) (queue : list QueuedRequest)
  (timestamps : list Z) : M (Timed t) (list QueuedRequest * list Z) :=
  match queue with
  | [] => ret (queue, timestamps)
  | item :: queue' =>
      if bool_decide (Z.of_nat (length timestamps) < rpm) then
        let* now := Date_now clock in
        let* _ := setR (settle (waiter item) Resolve) in
        releaseLoop p rpm queue' (timestamps ++ [now])
      else ret (queue, timestamps)
  end.

Definition processQueue (p : string) : M (Timed t) unit :=
  let* _ := cleanWindow p in
  let* r := getR in
  match configs r !! p with
  | None => ret tt
  | Some config =>
      let timestamps := default [] (requestTimestamps r !! p) in
      let queue := default [] (queues r !! p) in
      let* qt := releaseLoop p (requestsPerMinute config) queue timestamps in
      let* _ := setR (fun r =>
                  let r1 := match requestTimestamps r !! p with
                            | Some _ => setTimestamps p qt.2 r
                            | None => r
                            end in
                  match queues r1 !! p with
                  | Some _ => setQueue p qt.1 r1
                  | None => r1
                  end) in
      if (length qt.1 =? 0)%nat then stopTimer p else ret tt
  end.

(** The interval installed by [startTimer] fires. *)
Definition timerFires (p : string) : M (Timed t) unit :=
  let* r := getR in
  if bool_decide (p ∈ timers r) then processQueue p else ret tt.

End WithClock.
End RateLimiter.

(* ===================================================================== *)
(** ** providers/base-provider.ts                                         *)
(* ===================================================================== *)

(** [a || b] on two optional strings: the first one that is defined and
    not empty. *)
Definition orString (a b : option string) : option string :=
  match a with
  | Some s => if bool_decide (s = "") then b else Some s
  | None => b
  end.

(** providers/user-agent-pool.ts.  The [agents] array is never assigned
    after its initialisation; [index] only grows. *)
Module UserAgentPool.

Definition agents : list string :=
  ["OpenAI/Python 1.51.0";
   "openai-node/4.67.0";
   "Mozilla/5.0 (compatible; VSCode-Copilot/1.0)";
   "python-requests/2.31.0"].

Record t : Type := mk { index : nat }.

(** [new UserAgentPool()] *)
Definition constructor : t := mk 0.

(** [getNext]: [agents[index % agents.length]], then [index++]. *)
Definition getNext : M t string :=
  fun s => (default "" (agents !! (index s `mod` length agents)%nat),
            mk (S (index s))).

End UserAgentPool.

Module BaseProvider.

(** The headers of an upstream request. *)
Record Headers : Type := mkHeaders {
  Authorization : string;
  Content_Type : string;
  User_Agent : string
}.

(** [buildHeaders]: the state is the provider's [userAgentPool]. *)
Definition buildHeaders (accessToken : string) : M UserAgentPool.t Headers :=
  let* agent := UserAgentPool.getNext in
  ret (mkHeaders ("Bearer " +:+ accessToken) "application/json" agent).

(** What [normalizeError] reads from the value it is given:
    [error?.response?.status], [error?.response?.data?.error?.message]
    and [error?.message]. *)
Record AxiosError : Type := mkAxiosError {
  response_status : option Z;
  response_data_error_message : option string;
  message : option string
}.

Definition normalizeError (providerName : string) (error : AxiosError)
  : ProviderError :=
  let statusCode := response_status error in
  let message :=
    default "Unknown error"
      (orString (orString (response_data_error_message error) (message error))
                (Some "Unknown error")) in
  let '(type, retryable) :=
    if bool_decide (statusCode = Some 401) || bool_decide (statusCode = Some 403)
    then (auth, false)
    else if bool_decide (statusCode = Some 429)
    then (rate_limit, true)
    else if bool_decide (statusCode = Some 500)
            || bool_decide (statusCode = Some 502)
            || bool_decide (statusCode = Some 503)
    then (service_unavailable, true)
    else if bool_decide (statusCode = Some 400)
    then (invalid_request, false)
    else (unknown, false) in
  mkProviderError providerName statusCode message type retryable.

End BaseProvider.

(* ===================================================================== *)
(** ** Wire types (types/openai.ts, types/provider.ts)                    *)
(* ===================================================================== *)

(** A JSON value as [express.json()] hands it over, with [undefined] for
    what a property read yields when the property is absent.  A number is
    a decimal [mantissa * 10^exponent]; only whether it is zero matters. *)
Inductive JsValue : Type :=
| JsUndefined
| JsNull
| JsBool (b : bool)
| JsNumber (mantissa exponent : Z)
| JsString (s : string)
| JsArray (items : list JsValue)
| JsObject (fields : list (string * JsValue)).

(** [!!v] *)
Definition truthy (v : JsValue) : bool :=
  match v with
  | JsUndefined | JsNull => false
  | JsBool b => b
  | JsNumber m _ => negb (m =? 0)
  | JsString s => negb (bool_decide (s = ""))
  | JsArray _ | JsObject _ => true
  end.

(** [typeof v === 'object'] *)
Definition typeofObject (v : JsValue) : bool :=
  match v with
  | JsNull | JsArray _ | JsObject _ => true
  | _ => false
  end.

(** [v === undefined] *)
Definition isUndefined (v : JsValue) : bool :=
  match v with JsUndefined => true | _ => false end.

(** [typeof v === 'string'] *)
Definition typeofString (v : JsValue) : bool :=
  match v with JsString _ => true | _ => false end.

(** Own property of a parsed JSON object; a key written twice keeps its
    last value, as [JSON.parse] does. *)
Fixpoint lookupField (key : string) (fields : list (string * JsValue))
  : option JsValue :=
  match fields with
  | [] => None
  | (k, v) :: rest =>
      match lookupField key rest with
      | Some v' => Some v'
      | None => if bool_decide (k = key) then Some v else None
      end
  end.

(** [v.key] for the property names this code reads ([model], [messages],
    [role], [content], [tool_calls], [function_call], ...): none of them
    is defined on arrays or on [Object.prototype]. *)
Definition getProp (v : JsValue) (key : string) : JsValue :=
  match v with
  | JsObject fields => default JsUndefined (lookupField key fields)
  | _ => JsUndefined
  end.

Record Usage : Type := mkUsage {
  promptTokens : Z;
  completionTokens : Z;
  totalTokens : Z
}.

Record FunctionCall : Type := mkFunctionCall {
  fc_name : string;
  fc_arguments : string
}.

Record ToolCall : Type := mkToolCall {
  tc_id : string;
  tc_type : string;
  tc_function : FunctionCall
}.

Record ProviderResponse : Type := mkProviderResponse {
  pr_content : string;
  pr_finishReason : string;
  pr_usage : Usage;
  pr_toolCalls : option (list ToolCall);
  pr_functionCall : option FunctionCall
}.

Record FunctionCallChunk : Type := mkFunctionCallChunk {
  fcc_name : option string;
  fcc_arguments : option string
}.

Record ToolCallChunk : Type := mkToolCallChunk {
  tcc_index : Z;
  tcc_id : option string;
  tcc_type : option string;
  tcc_function : option FunctionCallChunk
}.

Record ProviderStreamChunk : Type := mkProviderStreamChunk {
  psc_content : option string;
  psc_finishReason : option string;
  psc_toolCallChunk : option ToolCallChunk;
  psc_functionCallChunk : option FunctionCallChunk
}.

Record ProviderRequest : Type := mkProviderRequest {
  preq_model : string;
  preq_messages : JsValue;
  preq_stream : bool;
  preq_accessToken : string;
  preq_temperature : JsValue;
  preq_top_p : JsValue;
  preq_max_tokens : JsValue;
  preq_stop : JsValue;
  preq_tools : JsValue
}.

Inductive FinishReason : Type :=
| fr_stop | fr_length | fr_tool_calls | fr_content_filter | fr_function_call.

Record Message : Type := mkMessage {
  msg_role : string;
  msg_content : string;
  msg_tool_calls : option (list ToolCall);
  msg_function_call : option FunctionCall
}.

Record ChatCompletionChoice : Type := mkChoice {
  choice_index : Z;
  choice_message : Message;
  choice_finish_reason : option FinishReason
}.

Record ChatCompletionResponse : Type := mkResponse {
  resp_id : string;
  resp_created : Z;
  resp_model : string;
  resp_choices : list ChatCompletionChoice;
  resp_usage : Usage
}.

Record ChatCompletionChunkDelta : Type := mkDelta {
  delta_content : option string;
  delta_tool_calls : option (list ToolCallChunk);
  delta_function_call : option FunctionCallChunk
}.

Record ChatCompletionChunkChoice : Type := mkChunkChoice {
  cc_index : Z;
  cc_delta : ChatCompletionChunkDelta;
  cc_finish_reason : option FinishReason
}.

Record ChatCompletionChunk : Type := mkChunk {
  chunk_id : string;
  chunk_object : string;
  chunk_created : Z;
  chunk_model : string;
  chunk_choices : list ChatCompletionChunkChoice
}.

Record OpenAIError : Type := mkOpenAIError {
  err_message : string;
  err_type : string;
  err_code : option string       (* [None] is [null]; [param] is always null *)
}.

Record TokenSet : Type := mkTokenSet {
  accessToken : string;
  refreshToken : option string;
  expiresAt : Z;
  ts_provider : string
}.

(* ===================================================================== *)
(** ** providers/openai-provider.ts                                       *)
(* ===================================================================== *)

(** The line feed of the template literals. *)
Definition LF : string := String "010"%char EmptyString.

(** [s.split('\n')]: never empty; its last element is what follows the
    last line feed. *)
Fixpoint splitLines (s : string) : list string :=
  match s with
  | EmptyString => [EmptyString]
  | String c rest =>
      if Ascii.eqb c "010"%char then EmptyString :: splitLines rest
      else match splitLines rest with
           | first :: others => String c first :: others
           | [] => [String c EmptyString]
           end
  end.

(** [s.slice(n)] for a non-negative [n]. *)
Fixpoint sliceFrom (n : nat) (s : string) : string :=
  match n, s with
  | O, _ => s
  | S n', String _ rest => sliceFrom n' rest
  | S _, EmptyString => EmptyString
  end.

Module OpenAIProvider.

(** A chunk of the response body as the HTTP stream delivers it. *)
Definition Buffer : Type := list Byte.byte.

Section WithParsers.
(** [Buffer.prototype.toString()]: the bytes of one chunk decoded as UTF-8
    on their own. *)
Variable toString : Buffer -> string.
(** [String.prototype.trim] *)
Variable trim : string -> string.
(** [parseSSEChunk]: [JSON.parse] and the reading of [choices[0].delta];
    [None] is [null]. *)
Variable parseSSEChunk : string -> option ProviderStreamChunk.

(** The [for (const line of lines)] loop of [chatCompletionStream]: the
    chunks it yields, and whether it met [data: [DONE]] and returned. *)
Fixpoint processLines (lines : list string) : list ProviderStreamChunk * bool :=
  match lines with
  | [] => ([], false)
  | line :: rest =>
      let trimmed := trim line in
      if bool_decide (trimmed = "") || negb (String.prefix "data: " trimmed)
      then processLines rest
      else
        let data := sliceFrom 6 trimmed in
        if bool_decide (data = "[DONE]") then ([], true)
        else
          let '(yielded, finished) := processLines rest in
          (match parseSSEChunk data with
           | Some parsed => parsed :: yielded
           | None => yielded
           end, finished)
  end.

(** The [for await (const chunk of response.data)] loop; [body] holds the
    chunks of the response body. *)
Fixpoint readBody (buffer : string) (body : list Buffer)
  : list ProviderStreamChunk * bool :=
  match body with
  | [] => ([], false)
  | chunk :: rest =>
      let buffer := buffer +:+ toString chunk in
      let lines := splitLines buffer in
      let buffer := default "" (last lines) in
      let '(yielded, finished) := processLines (removelast lines) in
      if finished then (yielded, true)
      else
        let '(more, finished') := readBody buffer rest in
        ((yielded ++ more)%list, finished')
  end.

(** [chatCompletionStream]: the chunks yielded to the consumer, and the
    error thrown at the end, if any.  [failure] is the error that ends the
    reading of the body (a POST that fails is an empty body and an error). *)
Definition chatCompletionStream (body : list Buffer)
  (failure : option BaseProvider.AxiosError)
  : list ProviderStreamChunk * option JsThrown :=
  let '(yielded, finished) := readBody "" body in
  (yielded,
   if finished then None
   else (fun e => JsProviderError (BaseProvider.normalizeError "openai" e))
        <$> failure).

End WithParsers.
End OpenAIProvider.

(* ===================================================================== *)
(** ** providers/gemini-provider.ts                                       *)
(* ===================================================================== *)

Module GeminiProvider.

Record GeminiFunctionCall : Type := mkGeminiFunctionCall {
  gfc_name : string;
  gfc_args : JsValue
}.

Record GeminiFunctionResponse : Type := mkGeminiFunctionResponse {
  gfr_name : string;
  gfr_response : JsValue
}.

Record GeminiPart : Type := mkPart {
  text : option string;
  functionCall : option GeminiFunctionCall;
  functionResponse : option GeminiFunctionResponse
}.

Record GeminiContent : Type := mkContent {
  role : string;                  (* 'user' | 'model' *)
  parts : list GeminiPart
}.

(** A candidate; an absent [content] or [parts] reads as no part. *)
Record GeminiCandidate : Type := mkCandidate {
  content : GeminiContent;
  finishReason : option string
}.

Record UsageMetadata : Type := mkUsageMetadata {
  promptTokenCount : Z;
  candidatesTokenCount : Z;
  totalTokenCount : Z
}.

(** The reply of [generateContent]; an absent [candidates] reads as []. *)
Record GeminiProviderResponse : Type := mkGeminiResponse {
  candidates : list GeminiCandidate;
  usageMetadata : option UsageMetadata
}.

(** The fields of a [Message] that [convertMessages] reads. *)
Record RequestMessage : Type := mkRequestMessage {
  rm_role : string;
  rm_content : option string;           (* [None] is [null] *)
  rm_name : option string;
  rm_function_call : option FunctionCall
}.

Definition mapFinishReason (reason : string) : string :=
  if bool_decide (reason = "STOP") then "stop"
  else if bool_decide (reason = "MAX_TOKENS") then "length"
  else if bool_decide (reason = "SAFETY") then "content_filter"
  else if bool_decide (reason = "RECITATION") then "content_filter"
  else "stop".

Definition textPart (s : string) : GeminiPart := mkPart (Some s) None None.

Section WithJSON.
(** [JSON.parse], which throws on malformed text, and [JSON.stringify]. *)
Variable JSON_parse : string -> Result JsValue.
Variable JSON_stringify : JsValue -> string.
(** [String.prototype.trim] *)
Variable trim : string -> string.

(** The [for (const msg of messages)] loop of [convertMessages]. *)
Fixpoint convertLoop (messages : list RequestMessage)
  (contents : list GeminiContent) (systemPrefix : string)
  : Result (list GeminiContent * string) :=
  match messages with
  | [] => Return (contents, systemPrefix)
  | msg :: rest =>
      let contentOrEmpty := default "" (rm_content msg) in
      if bool_decide (rm_role msg = "system") then
        convertLoop rest contents (systemPrefix +:+ contentOrEmpty +:+ LF +:+ LF)
      else if bool_decide (rm_role msg = "user") then
        let text :=
          if bool_decide (systemPrefix = "") then contentOrEmpty
          else "[System] " +:+ systemPrefix +:+ contentOrEmpty in
        convertLoop rest (contents ++ [mkContent "user" [textPart text]])%list ""
      else if bool_decide (rm_role msg = "assistant") then
        let parts0 :=
          match rm_content msg with
          | Some c => if bool_decide (c = "") then [] else [textPart c]
          | None => []
          end in
        let parts1 :=
          match rm_function_call msg with
          | None => Return parts0
          | Some fc =>
              match JSON_parse (fc_arguments fc) with
              | Throw e => Throw e
              | Return args =>
                  Return (parts0 ++ [mkPart None
                            (Some (mkGeminiFunctionCall (fc_name fc) args)) None])%list
              end
          end in
        match parts1 with
        | Throw e => Throw e
        | Return parts1 =>
            let parts2 :=
              if (length parts1 =? 0)%nat then [textPart ""] else parts1 in
            convertLoop rest (contents ++ [mkContent "model" parts2])%list systemPrefix
        end
      else if bool_decide (rm_role msg = "tool")
              || bool_decide (rm_role msg = "function") then
        let response :=
          match rm_content msg with
          | Some c => if bool_decide (c = "") then Return (JsObject [])
                      else JSON_parse c
          | None => Return (JsObject [])
          end in
        match response with
        | Throw e => Throw e
        | Return response =>
            let name := default "unknown" (orString (rm_name msg) (Some "unknown")) in
            convertLoop rest
              (contents ++ [mkContent "user"
                 [mkPart None None (Some (mkGeminiFunctionResponse name response))]])%list
              systemPrefix
        end
      else convertLoop rest contents systemPrefix
  end.

Definition convertMessages (messages : list RequestMessage)
  : Result (list GeminiContent) :=
  match convertLoop messages [] "" with
  | Throw e => Throw e
  | Return (contents, systemPrefix) =>
      if negb (bool_decide (systemPrefix = "")) && (length contents =? 0)%nat
      then Return (contents ++ [mkContent "user" [textPart (trim systemPrefix)]])%list
      else Return contents
  end.

Definition fromGeminiResponse (data : GeminiProviderResponse) : ProviderResponse :=
  let candidate := head (candidates data) in
  let part := candidate ≫= (fun c => head (parts (content c))) in
  mkProviderResponse
    (default "" (orString (part ≫= text) (Some "")))
    (mapFinishReason
       (default "STOP" (orString (candidate ≫= finishReason) (Some "STOP"))))
    (mkUsage (default 0 (promptTokenCount <$> usageMetadata data))
             (default 0 (candidatesTokenCount <$> usageMetadata data))
             (default 0 (totalTokenCount <$> usageMetadata data)))
    None
    (match part ≫= functionCall with
     | Some fc => Some (mkFunctionCall (gfc_name fc) (JSON_stringify (gfc_args fc)))
     | None => None
     end).

End WithJSON.
End GeminiProvider.

(* ===================================================================== *)
(** ** transformer/response-transformer.ts                                *)
(* ===================================================================== *)

Module ResponseTransformer.

Section WithOracles.
Variable clock : nat -> Z.
Variable JSON_stringify : ChatCompletionChunk -> string.

Definition finishReasonOfResponse (s : string) : FinishReason :=
  if bool_decide (s = "length") then fr_length
  else if bool_decide (s = "tool_calls") then fr_tool_calls
  else if bool_decide (s = "content_filter") then fr_content_filter
  else if bool_decide (s = "function_call") then fr_function_call
  else fr_stop.

Definition finishReasonOfChunk (o : option string) : option FinishReason :=
  match o with
  | None => None
  | Some s =>
      if bool_decide (s = "") then None
      else if bool_decide (s = "stop") then Some fr_stop
      else if bool_decide (s = "length") then Some fr_length
      else if bool_decide (s = "tool_calls") then Some fr_tool_calls
      else if bool_decide (s = "content_filter") then Some fr_content_filter
      else if bool_decide (s = "function_call") then Some fr_function_call
      else None
  end.

(** [toOpenAIResponse]; the id is the one [generateCompletionId] returned. *)
Definition toOpenAIResponse {S} (id : string) (providerResponse : ProviderResponse)
  (model : string) : M (Timed S) ChatCompletionResponse :=
  let message :=
    mkMessage "assistant" (pr_content providerResponse)
      (pr_toolCalls providerResponse) (pr_functionCall providerResponse) in
  let finish_reason := finishReasonOfResponse (pr_finishReason providerResponse) in
  let* now := Date_now clock in
  ret (mkResponse id (now `div` 1000) model
         [mkChoice 0 message (Some finish_reason)]
         (pr_usage providerResponse)).

Definition toOpenAIChunk {S} (chunk : ProviderStreamChunk) (model : string)
  (streamId : string) : M (Timed S) ChatCompletionChunk :=
  let delta :=
    mkDelta (psc_content chunk)
            (match psc_toolCallChunk chunk with
             | Some tcc => Some [tcc]
             | None => None
             end)
            (psc_functionCallChunk chunk) in
  let finish_reason := finishReasonOfChunk (psc_finishReason chunk) in
  let* now := Date_now clock in
  ret (mkChunk streamId "chat.completion.chunk" (now `div` 1000) model
         [mkChunkChoice 0 delta finish_reason]).

Definition formatSSE (chunk : ChatCompletionChunk) : string :=
  "data: " +:+ JSON_stringify chunk +:+ LF +:+ LF.

Definition formatSSEDone : string := "data: [DONE]" +:+ LF +:+ LF.

End WithOracles.

(** [generateCompletionId]: the k-th [randomUUID()] of the run. *)
Definition generateCompletionId (uuid : nat -> string) (k : nat) : string :=
  "chatcmpl-" +:+ uuid k.

(** [toOpenAIError]: the [switch] on [error.type]. *)
Definition toOpenAIError (error : ProviderError) : OpenAIError :=
  let '(type, code) :=
    match pe_type error with
    | auth => ("authentication_error", Some "invalid_api_key")
    | rate_limit => ("rate_limit_error", Some "rate_limit_exceeded")
    | invalid_request => ("invalid_request_error", None)
    | service_unavailable => ("server_error", Some "service_unavailable")
    | unknown => ("server_error", None)
    end in
  mkOpenAIError (pe_message error) type code.

End ResponseTransformer.

(* ===================================================================== *)
(** ** handler/request-handler.ts                                         *)
(* ===================================================================== *)

(** [haystack.includes(needle)] *)
Fixpoint includes (haystack needle : string) : bool :=
  String.prefix needle haystack ||
  match haystack with
  | EmptyString => false
  | String _ rest => includes rest needle
  end.

Module RequestHandler.

(** The validated request as the handler reads it afterwards. *)
Record ChatCompletionRequest : Type := mkRequest {
  req_model : string;
  req_messages : JsValue;
  req_stream : JsValue;
  req_temperature : JsValue;
  req_top_p : JsValue;
  req_max_tokens : JsValue;
  req_stop : JsValue;
  req_tools : JsValue
}.

(** The body of the [for (const msg of obj.messages)] loop: the error it
    throws, if any. *)
Definition checkMessage (msg : JsValue) : option JsThrown :=
  if negb (truthy msg) || negb (typeofObject msg)
  then Some (JsError "Each message must be an object")
  else
    let role := getProp msg "role" in
    if negb (truthy role) || negb (typeofString role)
    then Some (JsError "Each message must have a role")
    else
      if isUndefined (getProp msg "content")
         && negb (truthy (getProp msg "tool_calls"))
         && negb (truthy (getProp msg "function_call"))
      then Some (JsError "Each message must have content, tool_calls, or function_call")
      else None.

Fixpoint checkMessages (msgs : list JsValue) : option JsThrown :=
  match msgs with
  | [] => None
  | msg :: rest =>
      match checkMessage msg with
      | Some e => Some e
      | None => checkMessages rest
      end
  end.

(** [parseRequest]: the body itself is returned ([obj as unknown as
    ChatCompletionRequest]). *)
Definition parseRequest (body : JsValue) : Result JsValue :=
  if negb (truthy body) || negb (typeofObject body)
  then Throw (JsError "Request body must be a JSON object")
  else
    let m := getProp body "model" in
    if negb (truthy m) || negb (typeofString m)
    then Throw (JsError "model is required and must be a string")
    else
      match getProp body "messages" with
      | JsArray (msg :: rest) =>
          match checkMessages (msg :: rest) with
          | Some e => Throw e
          | None => Return body
          end
      | _ => Throw (JsError "messages is required and must be a non-empty array")
      end.

(** The typed view of a body that [parseRequest] returned. *)
Definition asRequest (body : JsValue) : ChatCompletionRequest :=
  mkRequest (match getProp body "model" with JsString s => s | _ => "" end)
            (getProp body "messages") (getProp body "stream")
            (getProp body "temperature") (getProp body "top_p")
            (getProp body "max_tokens") (getProp body "stop")
            (getProp body "tools").

Definition normalizeToProviderError (error : JsThrown) (p : string)
  : ProviderError :=
  match error with
  | JsProviderError pe => pe
  | JsError msg => mkProviderError p None msg unknown false
  end.

Definition createProviderError (message : string) (m : string) : ProviderError :=
  mkProviderError m None message service_unavailable false.

(** A provider adapter as the handler sees it: what the n-th awaited call
    gives.  A stream yields its chunks and then either ends or throws. *)
Record Provider : Type := mkProvider {
  chatCompletion : nat -> ProviderRequest -> Result ProviderResponse;
  chatCompletionStream :
    nat -> ProviderRequest -> list ProviderStreamChunk * option JsThrown
}.

(** Everything the handler holds a reference to, with the counters of the
    oracles. *)
Record World : Type := mkWorld {
  router : Router.t;
  rateLimiter : RateLimiter.t;
  usage : list (string * string * Usage);     (* UsageTracker.recordUsage calls *)
  w_ticks : nat;                              (* Date.now() readings *)
  w_uuids : nat;                              (* randomUUID() calls *)
  w_awaits : nat                              (* awaits passed *)
}.

(** How a run of the handler ends. *)
Inductive Outcome (A : Type) : Type :=
| Completed (a : A)
| Failed (e : JsThrown).
Arguments Completed {A} _.
Arguments Failed {A} _.

Section WithEnvironment.
Variable clock : nat -> Z.
Variable uuid : nat -> string.
Variable JSON_stringify : ChatCompletionChunk -> string.
(** [authManager.getValidToken(provider)], as the n-th await observes it. *)
Variable getValidToken : nat -> string -> Result TokenSet.
(** The [providers] map. *)
Variable providers : string -> option Provider.
(** What the rest of the process does to the shared objects while this
    request is suspended at its n-th [await] or [yield], and how a promise
    of the rate limiter that was still pending is settled meanwhile. *)
Variable interleave : nat -> World -> World.
Variable settlement : nat -> Settlement.
Variable maxRetries : nat.

Definition onRouter {A} (m : M (Timed Router.t) A) : M World A :=
  fun w =>
    let (a, r) := m (mkTimed (router w) (w_ticks w)) in
    (a, mkWorld (obj r) (rateLimiter w) (usage w) (ticks r) (w_uuids w) (w_awaits w)).

Definition onRateLimiter {A} (m : M (Timed RateLimiter.t) A) : M World A :=
  fun w =>
    let (a, r) := m (mkTimed (rateLimiter w) (w_ticks w)) in
    (a, mkWorld (router w) (obj r) (usage w) (ticks r) (w_uuids w) (w_awaits w)).

(** Operations that touch only the clock. *)
Definition onClock {A} (m : M (Timed unit) A) : M World A :=
  fun w =>
    let (a, r) := m (mkTimed tt (w_ticks w)) in
    (a, mkWorld (router w) (rateLimiter w) (usage w) (ticks r) (w_uuids w) (w_awaits w)).

(** Suspension at an [await] or [yield]: the number of the suspension is
    returned and the rest of the process runs. *)
Definition suspend : M World nat :=
  fun w =>
    let n := w_awaits w in
    let w' := interleave n w in
    (n, mkWorld (router w') (rateLimiter w') (usage w') (w_ticks w') (w_uuids w')
                (S n)).

Definition randomUUID : M World string :=
  fun w => (uuid (w_uuids w),
            mkWorld (router w) (rateLimiter w) (usage w) (w_ticks w)
                    (S (w_uuids w)) (w_awaits w)).

Definition generateCompletionId : M World string :=
  let* u := randomUUID in ret ("chatcmpl-" +:+ u).

Definition recordUsage (p m : string) (u : Usage) : M World unit :=
  fun w => (tt, mkWorld (router w) (rateLimiter w) (usage w ++ [(p, m, u)])
                        (w_ticks w) (w_uuids w) (w_awaits w)).

(** [await this.rateLimiter.acquire(provider)]: a promise that is still
    pending is awaited until it is settled, and [settlement] tells how; a
    run in which it never is does not get past this point and is not
    described. *)
Definition awaitAcquire (p : string) : M World (Result unit) :=
  let* pr := onRateLimiter (RateLimiter.acquire clock p) in
  let* n := suspend in
  match pr with
  | Fulfilled => ret (Return tt)
  | Rejected e => ret (Throw e)
  | Pending _ =>
      match settlement n with
      | Resolve => ret (Return tt)
      | Reject e => ret (Throw e)
      end
  end.

(** [await this.authManager.getValidToken(provider)] *)
Definition awaitValidToken (p : string) : M World (Result TokenSet) :=
  let* n := suspend in ret (getValidToken n p).

Definition buildProviderRequest (selected : ProviderModel)
  (request : ChatCompletionRequest) (stream : bool) (token : TokenSet)
  : ProviderRequest :=
  mkProviderRequest (model selected) (req_messages request) stream
    (accessToken token) (req_temperature request) (req_top_p request)
    (req_max_tokens request) (req_stop request) (req_tools request).

Definition notInitialized (p : string) : JsThrown :=
  JsProviderError
    (mkProviderError p None ("Provider " +:+ p +:+ " not initialized")
                     service_unavailable true).

(** The [try] block of [handleCompletion]. *)
Definition tryCompletion (request : ChatCompletionRequest)
  (selected : ProviderModel) : M World (Result ChatCompletionResponse) :=
  let* a := awaitAcquire (provider selected) in
  match a with
  | Throw e => ret (Throw e)
  | Return _ =>
      let* tk := awaitValidToken (provider selected) in
      match tk with
      | Throw e => ret (Throw e)
      | Return token =>
          let providerRequest := buildProviderRequest selected request false token in
          match providers (provider selected) with
          | None => ret (Throw (notInitialized (provider selected)))
          | Some prov =>
              let* n := suspend in
              match chatCompletion prov n providerRequest with
              | Throw e => ret (Throw e)
              | Return response =>
                  let* _ := recordUsage (provider selected) (model selected)
                                        (pr_usage response) in
                  let* id := generateCompletionId in
                  let* r := onClock (ResponseTransformer.toOpenAIResponse clock id
                                       response (req_model request)) in
                  ret (Return r)
              end
          end
      end
  end.

(** [throw lastError || this.createProviderError('All providers failed', m)] *)
Definition throwLast {A} (lastError : option ProviderError) (m : string)
  : Outcome A :=
  Failed (JsProviderError
            (default (createProviderError "All providers failed" m) lastError)).

(** The [while (attempts < this.maxRetries && selected)] loop of
    [handleCompletion] and what follows it.  [remaining] is
    [maxRetries - attempts]. *)
Fixpoint completionLoop (remaining : nat) (request : ChatCompletionRequest)
  (attempts : nat) (selected : option ProviderModel)
  (lastError : option ProviderError) : M World (Outcome ChatCompletionResponse) :=
  match remaining, selected with
  | S remaining', Some sel =>
      let attempts := S attempts in
      let* r := tryCompletion request sel in
      match r with
      | Return response => ret (Completed response)
      | Throw error =>
          let providerError := normalizeToProviderError error (provider sel) in
          let lastError := Some providerError in
          if pe_retryable providerError && (attempts <? maxRetries)%nat then
            let* next := onRouter (Router.getNextProvider clock (req_model request)
                                     (provider sel)) in
            match next with
            | Throw e => ret (Failed e)
            | Return None => ret (throwLast lastError (req_model request))
            | Return (Some sel') =>
                completionLoop remaining' request attempts (Some sel') lastError
            end
          else ret (throwLast lastError (req_model request))
      end
  | _, _ => ret (throwLast lastError (req_model request))
  end.

Definition handleCompletion (request : ChatCompletionRequest)
  : M World (Outcome ChatCompletionResponse) :=
  let* cs := onRouter (Router.resolveModelAlias (req_model request)) in
  match cs with
  | Throw e => ret (Failed e)
  | Return candidates =>
      let* selected := onRouter (Router.selectProvider clock candidates) in
      match selected with
      | None => ret (Failed (JsProviderError
                 (createProviderError "No available provider" (req_model request))))
      | Some _ => completionLoop maxRetries request 0 selected None
      end
  end.

(** The [for await (const chunk of ...)] loop of the stream handler: one
    frame is yielded per chunk. *)
Fixpoint streamChunks (chunks : list ProviderStreamChunk) (m streamId : string)
  : M World (list string) :=
  match chunks with
  | [] => ret []
  | chunk :: rest =>
      let* _ := suspend in
      let* openaiChunk := onClock (ResponseTransformer.toOpenAIChunk clock chunk m streamId) in
      let frame := ResponseTransformer.formatSSE JSON_stringify openaiChunk in
      let* _ := suspend in
      let* frames := streamChunks rest m streamId in
      ret (frame :: frames)
  end.

(** The [try] block of [handleCompletionStream]: the frames it yielded and
    whether it returned or threw. *)
Definition tryStream (request : ChatCompletionRequest) (selected : ProviderModel)
  : M World (list string * Result unit) :=
  let* a := awaitAcquire (provider selected) in
  match a with
  | Throw e => ret ([], Throw e)
  | Return _ =>
      let* tk := awaitValidToken (provider selected) in
      match tk with
      | Throw e => ret ([], Throw e)
      | Return token =>
          let providerRequest := buildProviderRequest selected request true token in
          match providers (provider selected) with
          | None => ret ([], Throw (notInitialized (provider selected)))
          | Some prov =>
              let* streamId := generateCompletionId in
              let* n := suspend in
              let '(chunks, failure) := chatCompletionStream prov n providerRequest in
              let* frames := streamChunks chunks (req_model request) streamId in
              match failure with
              | Some e => ret (frames, Throw e)
              | None =>
                  let* _ := suspend in
                  ret ((frames ++ [ResponseTransformer.formatSSEDone])%list, Return tt)
              end
          end
      end
  end.

Fixpoint streamLoop (remaining : nat) (request : ChatCompletionRequest)
  (attempts : nat) (selected : option ProviderModel)
  (lastError : option ProviderError) : M World (list string * Outcome unit) :=
  match remaining, selected with
  | S remaining', Some sel =>
      let attempts := S attempts in
      let* fr := tryStream request sel in
      match fr.2 with
      | Return _ => ret (fr.1, Completed tt)
      | Throw error =>
          let providerError := normalizeToProviderError error (provider sel) in
          let lastError := Some providerError in
          if pe_retryable providerError && (attempts <? maxRetries)%nat then
            let* next := onRouter (Router.getNextProvider clock (req_model request)
                                     (provider sel)) in
            match next with
            | Throw e => ret (fr.1, Failed e)
            | Return None => ret (fr.1, throwLast lastError (req_model request))
            | Return (Some sel') =>
                let* more := streamLoop remaining' request attempts (Some sel') lastError in
                ret ((fr.1 ++ more.1)%list, more.2)
            end
          else ret (fr.1, throwLast lastError (req_model request))
      end
  | _, _ => ret ([], throwLast lastError (req_model request))
  end.

(** [handleCompletionStream], run to its end by a consumer that takes every
    frame: the frames in the order they were yielded, and how the generator
    finished. *)
Definition handleCompletionStream (request : ChatCompletionRequest)
  : M World (list string * Outcome unit) :=
  let* cs := onRouter (Router.resolveModelAlias (req_model request)) in
  match cs with
  | Throw e => ret ([], Failed e)
  | Return candidates =>
      let* selected := onRouter (Router.selectProvider clock candidates) in
      match selected with
      | None => ret ([], Failed (JsProviderError
                 (createProviderError "No available provider" (req_model request))))
      | Some _ => streamLoop maxRetries request 0 selected None
      end
  end.

End WithEnvironment.
End RequestHandler.

(* ===================================================================== *)
(** ** server/gateway-proxy.ts                                            *)
(* ===================================================================== *)

Module GatewayProxy.

Definition formatError (error : JsThrown) : OpenAIError :=
  match error with
  | JsProviderError pe =>
      let '(type, code) :=
        match pe_type pe with
        | auth => ("authentication_error", Some "invalid_api_key")
        | rate_limit => ("rate_limit_error", Some "rate_limit_exceeded")
        | invalid_request => ("invalid_request_error", None)
        | service_unavailable => ("server_error", Some "service_unavailable")
        | unknown => ("server_error", None)
        end in
      mkOpenAIError (pe_message pe) type code
  | JsError message =>
      if includes message "required" || includes message "must be"
         || includes message "must have"
      then mkOpenAIError message "invalid_request_error" None
      else mkOpenAIError message "server_error" None
  end.

Definition getHttpStatus (error : JsThrown) : Z :=
  let byType :=
    match error with
    | JsProviderError pe =>
        match pe_type pe with
        | auth => Some 401
        | rate_limit => Some 429
        | invalid_request => Some 400
        | service_unavailable => Some 503
        | unknown => None
        end
    | JsError _ => None
    end in
  match byType with
  | Some status => status
  | None =>
      let msg := match error with JsError m => m | JsProviderError _ => "" end in
      if includes msg "required" || includes msg "must be"
         || includes msg "must have" || includes msg "Unknown model"
      then 400 else 500
  end.

(** The error-handling middleware installed by [setupErrorHandler]: the
    status and the JSON body of the response. *)
Definition errorHandler (err : JsThrown) : Z * OpenAIError :=
  (getHttpStatus err, formatError err).

(** One entry of the [data] array of [GET /v1/models]. *)
Record ModelInfo : Type := mkModelInfo {
  mi_id : string;
  mi_created : Z;
  mi_owned_by : string
}.

(** What [handleChatCompletions] sends. *)
Inductive HttpResponse : Type :=
| JsonCompletion (response : ChatCompletionResponse)  (* [res.json(response)], status 200 *)
| JsonError (status : Z) (body : OpenAIError)         (* the error middleware *)
| EventStream (written : list string).                (* [text/event-stream], status 200:
                                                         the [res.write] calls, then [res.end()] *)

Section WithEnvironment.
Variable clock : nat -> Z.
Variable uuid : nat -> string.
Variable JSON_stringify : ChatCompletionChunk -> string.
Variable JSON_stringify_error : OpenAIError -> string.
Variable getValidToken : nat -> string -> Result TokenSet.
Variable providers : string -> option RequestHandler.Provider.
Variable interleave : nat -> RequestHandler.World -> RequestHandler.World.
Variable settlement : nat -> Settlement.
Variable maxRetries : nat.

(** [handleListModels]: [config.modelAliases.map(...)], one reading of the
    clock per alias. *)
Fixpoint handleListModels {S} (modelAliases : list ModelAlias)
  : M (Timed S) (list ModelInfo) :=
  match modelAliases with
  | [] => ret []
  | a :: rest =>
      let* now := Date_now clock in
      let* more := handleListModels rest in
      ret (mkModelInfo (alias a) (now `div` 1000) "llm-gateway" :: more)
  end.

(** [next(error)]: the error middleware answers. *)
Definition next (error : JsThrown) : HttpResponse :=
  JsonError (getHttpStatus error) (formatError error).

(** [handleChatCompletions] for a client that keeps the connection open
    ([res.destroyed] stays false). *)
Definition handleChatCompletions (body : JsValue)
  : M RequestHandler.World HttpResponse :=
  match RequestHandler.parseRequest body with
  | Throw error => ret (next error)
  | Return obj =>
      let request := RequestHandler.asRequest obj in
      if truthy (RequestHandler.req_stream request) then
        let* run := RequestHandler.handleCompletionStream clock uuid JSON_stringify
                      getValidToken providers interleave settlement maxRetries
                      request in
        match run.2 with
        | RequestHandler.Completed _ => ret (EventStream run.1)
        | RequestHandler.Failed streamError =>
            let errorPayload := formatError streamError in
            ret (EventStream
                   (run.1 ++ ["data: " +:+ JSON_stringify_error errorPayload
                              +:+ LF +:+ LF;
                              "data: [DONE]" +:+ LF +:+ LF])%list)
        end
      else
        let* run := RequestHandler.handleCompletion clock uuid getValidToken
                      providers interleave settlement maxRetries request in
        let* _ := RequestHandler.suspend interleave in
        match run with
        | RequestHandler.Completed response => ret (JsonCompletion response)
        | RequestHandler.Failed error => ret (next error)
        end
  end.

End WithEnvironment.

End GatewayProxy.

(* ===================================================================== *)
(** ** auth/token-store.ts and auth/auth-manager.ts                       *)
(* ===================================================================== *)

Module FileTokenStore.

(** What [fs.readFile] followed by [JSON.parse] finds at [filePath]. *)
Inductive FileContent : Type :=
| NoFile                                         (* ENOENT *)
| Unparseable                                    (* not a JSON object *)
| Tokens (entries : gmap string TokenSet).       (* [{provider: TokenSet}] *)

Record t : Type := mk {
  tokens : gmap string TokenSet;
  initialized : bool;
  file : FileContent;
  writes : nat                 (* [fs.writeFile] calls so far *)
}.

Section WithFs.
(** Whether the n-th write of the run succeeds; a failed write throws. *)
Variable writeFile : nat -> option JsThrown.

Definition initialize : M t unit :=
  fun s =>
    if initialized s then (tt, s)
    else
      let loaded :=
        match file s with
        | Tokens entries => entries ∪ tokens s
        | _ => tokens s
        end in
      (tt, mk loaded true (file s) (writes s)).

(** [persist]: [file] is what a later [readFile] and [JSON.parse] find; a
    write that succeeds is taken to be read back as the map that was
    serialized, a write that fails to leave the file as it was. *)
Definition persist : M t (Result unit) :=
  fun s =>
    match writeFile (writes s) with
    | Some e => (Throw e, mk (tokens s) (initialized s) (file s) (S (writes s)))
    | None => (Return tt, mk (tokens s) (initialized s) (Tokens (tokens s))
                             (S (writes s)))
    end.

Definition saveToken (p : string) (tokenSet : TokenSet) : M t (Result unit) :=
  let* _ := initialize in
  let* _ := modify (fun s => mk (<[p := tokenSet]> (tokens s)) (initialized s)
                                (file s) (writes s)) in
  persist.

Definition getToken (p : string) : M t (option TokenSet) :=
  let* _ := initialize in
  let* s := get in
  ret (tokens s !! p).

Definition deleteToken (p : string) : M t (Result unit) :=
  let* _ := initialize in
  let* _ := modify (fun s => mk (delete p (tokens s)) (initialized s)
                                (file s) (writes s)) in
  persist.

End WithFs.

(** [new FileTokenStore(filePath)], with what is at [filePath]. *)
Definition constructor (content : FileContent) : t := mk ∅ false content 0.

(** [getAllTokens]: a copy of the map. *)
Definition getAllTokens : M t (gmap string TokenSet) :=
  let* _ := initialize in
  let* s := get in
  ret (tokens s).

Definition isTokenExpired (clock : nat -> Z) (p : string) : M (Timed t) bool :=
  let* _ := (fun w => ((initialize (obj w)).1,
                       mkTimed (initialize (obj w)).2 (ticks w))) in
  let* s := getR in
  match tokens s !! p with
  | None => ret true
  | Some tokenSet =>
      let* now := Date_now clock in
      ret (bool_decide (now >= expiresAt tokenSet))
  end.

End FileTokenStore.

Module AuthManager.

(** The reply of the token endpoint as [refreshToken] reads it. *)
Record TokenResponse : Type := mkTokenResponse {
  access_token : string;
  refresh_token : option string;
  expires_in : Z
}.

(** The body [refreshToken] posts. *)
Record RefreshRequest : Type := mkRefreshRequest {
  post_url : string;
  post_client_id : string;
  post_client_secret : option string;
  post_refresh_token : string;
  post_grant_type : string
}.

Record t : Type := mk {
  tokenStore : FileTokenStore.t;
  providerConfigs : gmap string ProviderConfig
}.

(** [!s] for an optional string: absent or empty. *)
Definition missing (s : option string) : bool :=
  match s with
  | Some v => bool_decide (v = "")
  | None => true
  end.

Section WithEnvironment.
Variable clock : nat -> Z.
Variable writeFile : nat -> option JsThrown.
(** [axios.post(config.tokenEndpoint, ...)]: the reply, or the message of
    the error it throws. *)
Variable axios_post : RefreshRequest -> TokenResponse + string.

Definition onStore {A} (m : M FileTokenStore.t A) : M (Timed t) A :=
  fun w =>
    let (a, st) := m (tokenStore (obj w)) in
    (a, mkTimed (mk st (providerConfigs (obj w))) (ticks w)).

Definition getProviderConfig (p : string) : M (Timed t) (Result ProviderConfig) :=
  let* a := getR in
  match providerConfigs a !! p with
  | None => ret (Throw (JsError ("Provider " +:+ p +:+ " not configured")))
  | Some config =>
      if negb (enabled config)
      then ret (Throw (JsError ("Provider " +:+ p +:+ " is disabled")))
      else ret (Return config)
  end.

(** The [catch] block of [refreshToken]. *)
Definition refreshFailed (p : string) (message : string)
  : M (Timed t) (Result TokenSet) :=
  let* d := onStore (FileTokenStore.deleteToken writeFile p) in
  match d with
  | Throw e => ret (Throw e)
  | Return _ =>
      ret (Throw (JsError ("Failed to refresh token for " +:+ p +:+ ": "
                           +:+ message +:+ ". Please re-authenticate.")))
  end.

Definition messageOf (e : JsThrown) : string :=
  match e with
  | JsError m => m
  | JsProviderError pe => pe_message pe
  end.

Definition refreshToken (p : string) : M (Timed t) (Result TokenSet) :=
  let* c := getProviderConfig p in
  match c with
  | Throw e => ret (Throw e)
  | Return config =>
      let* currentToken := onStore (FileTokenStore.getToken p) in
      match currentToken with
      | None => ret (Throw (JsError ("No token found for provider " +:+ p)))
      | Some currentToken =>
          if missing (refreshToken currentToken)
          then ret (Throw (JsError ("No refresh token available for provider " +:+ p)))
          else if missing (tokenEndpoint config) || missing (clientId config)
          then ret (Throw (JsError ("Provider " +:+ p
                                    +:+ " missing token endpoint or client ID")))
          else
            match axios_post (mkRefreshRequest
                                (default "" (tokenEndpoint config))
                                (default "" (clientId config))
                                (clientSecret config)
                                (default "" (refreshToken currentToken))
                                "refresh_token") with
            | inr message => refreshFailed p message
            | inl response =>
                let* now := Date_now clock in
                let tokenSet :=
                  mkTokenSet (access_token response)
                             (orString (refresh_token response)
                                       (refreshToken currentToken))
                             (now + expires_in response * 1000)
                             p in
                let* s := onStore (FileTokenStore.saveToken writeFile p tokenSet) in
                match s with
                | Throw e => refreshFailed p (messageOf e)
                | Return _ => ret (Return tokenSet)
                end
            end
      end
  end.

(** An operation of the token store that reads the clock. *)
Definition onTimedStore {A} (m : M (Timed FileTokenStore.t) A) : M (Timed t) A :=
  fun w =>
    let (a, st) := m (mkTimed (tokenStore (obj w)) (ticks w)) in
    (a, mkTimed (mk (obj st) (providerConfigs (obj w))) (ticks st)).

Definition getValidToken (p : string) : M (Timed t) (Result TokenSet) :=
  let* isExpired := onTimedStore (FileTokenStore.isTokenExpired clock p) in
  if isExpired : bool then
    let* token := onStore (FileTokenStore.getToken p) in
    match token with
    | Some (mkTokenSet _ refresh _ _) =>
        if negb (missing refresh) then refreshToken p
        else ret (Throw (JsError ("Token expired for provider " +:+ p
               +:+ " and no refresh token available. Please re-authenticate.")))
    | None =>
        ret (Throw (JsError ("Token expired for provider " +:+ p
               +:+ " and no refresh token available. Please re-authenticate.")))
    end
  else
    let* token := onStore (FileTokenStore.getToken p) in
    match token with
    | None => ret (Throw (JsError ("No token found for provider " +:+ p
                                   +:+ ". Please authenticate.")))
    | Some token => ret (Return token)
    end.

(** The body [completeDeviceFlow] posts. *)
Record DeviceRequest : Type := mkDeviceRequest {
  dev_url : string;
  dev_client_id : string;
  dev_device_code : string;
  dev_grant_type : string
}.

(** What one poll of the token endpoint gives: the token, or an error with
    its [response.data.error] code (if it has one) and its message. *)
Inductive DeviceReply : Type :=
| Granted (response : TokenResponse)
| Refused (errorCode : option string) (message : string).

(** The reply to the n-th poll of a device flow. *)
Variable device_post : nat -> DeviceRequest -> DeviceReply.

(** The [while (attempts < maxAttempts)] loop of [completeDeviceFlow] and
    the [throw] after it; [remaining] is [maxAttempts - attempts]. *)
Fixpoint pollLoop (remaining : nat) (attempts : nat) (p deviceCode : string)
  (config : ProviderConfig) : M (Timed t) (Result TokenSet) :=
  match remaining with
  | O => ret (Throw (JsError ("Device flow timed out for " +:+ p)))
  | S remaining' =>
      let attempts := S attempts in
      match device_post attempts
              (mkDeviceRequest (default "" (tokenEndpoint config))
                               (default "" (clientId config))
                               deviceCode
                               "urn:ietf:params:oauth:grant-type:device_code") with
      | Granted response =>
          let* now := Date_now clock in
          let tokenSet :=
            mkTokenSet (access_token response) (refresh_token response)
                       (now + expires_in response * 1000) p in
          let* s := onStore (FileTokenStore.saveToken writeFile p tokenSet) in
          match s with
          | Return _ => ret (Return tokenSet)
          | Throw e =>
              ret (Throw (JsError ("Failed to complete device flow for " +:+ p
                                   +:+ ": " +:+ messageOf e)))
          end
      | Refused errorCode message =>
          if bool_decide (errorCode = Some "authorization_pending") then
            pollLoop remaining' attempts p deviceCode config
          else if bool_decide (errorCode = Some "slow_down") then
            pollLoop remaining' attempts p deviceCode config
          else if bool_decide (errorCode = Some "expired_token") then
            ret (Throw (JsError ("Device code expired for " +:+ p)))
          else if bool_decide (errorCode = Some "access_denied") then
            ret (Throw (JsError ("User denied authorization for " +:+ p)))
          else
            ret (Throw (JsError ("Failed to complete device flow for " +:+ p
                                 +:+ ": " +:+ message)))
      end
  end.

Definition completeDeviceFlow (p deviceCode : string)
  : M (Timed t) (Result TokenSet) :=
  let* c := getProviderConfig p in
  match c with
  | Throw e => ret (Throw e)
  | Return config =>
      if missing (tokenEndpoint config) || missing (clientId config)
      then ret (Throw (JsError ("Provider " +:+ p
                                +:+ " missing token endpoint or client ID")))
      else pollLoop 120 0 p deviceCode config
  end.

End WithEnvironment.
End AuthManager.

(* ===================================================================== *)
(** ** dashboard/usage-tracker.ts and dashboard/dashboard-routes.ts       *)
(* ===================================================================== *)

Module UsageTracker.

Record ModelUsage : Type := mkModelUsage {
  mu_requestCount : Z;
  mu_promptTokens : Z;
  mu_completionTokens : Z;
  mu_totalTokens : Z
}.

Record t : Type := mk {
  totalRequests : Z;
  totalPromptTokens : Z;
  totalCompletionTokens : Z;
  totalTokens : Z;
  byProvider : gmap string ModelUsage;
  byModel : gmap string ModelUsage;
  since : Z
}.

(** [new UsageTracker()] *)
Definition constructor (clock : nat -> Z) : M (Timed unit) t :=
  let* now := Date_now clock in
  ret (mk 0 0 0 0 ∅ ∅ now).

(** An integer that a JavaScript number holds exactly, whatever its
    neighbours: the doubles represent every integer up to 2^53 in
    magnitude. *)
Definition heldExactly (x : Z) : bool := bool_decide (Z.abs x <= 2 ^ 53).

Section WithNumbers.
(** What [a + b] gives when the sum is computed with rounding. *)
Variable rounded : Z -> Z -> Z.

(** [a + b] on counters: the sum of two doubles is exact when it is a
    double itself, so it is exact as long as the numbers and their sum
    stay within 2^53; beyond that the result is rounded. *)
Definition plus (a b : Z) : Z :=
  if heldExactly a && heldExactly b && heldExactly (a + b) then a + b
  else rounded a b.

(** The four [+=] on an entry of [byProvider] or [byModel]. *)
Definition addTo (entry : ModelUsage) (usage : Usage) : ModelUsage :=
  let 'mkUsage prompt completion total := usage in
  mkModelUsage (plus (mu_requestCount entry) 1)
               (plus (mu_promptTokens entry) prompt)
               (plus (mu_completionTokens entry) completion)
               (plus (mu_totalTokens entry) total).

(** [if (!map.has(key)) map.set(key, zeros); entry = map.get(key)!;
    entry.x += ...] *)
Definition bump (key : string) (usage : Usage) (map : gmap string ModelUsage)
  : gmap string ModelUsage :=
  let map1 :=
    match map !! key with
    | Some _ => map
    | None => <[key := mkModelUsage 0 0 0 0]> map
    end in
  let entry := default (mkModelUsage 0 0 0 0) (map1 !! key) in
  <[key := addTo entry usage]> map1.

Definition recordUsage (provider model : string) (usage : Usage) : M t unit :=
  modify (fun s =>
    let 'mkUsage prompt completion total := usage in
    mk (plus (totalRequests s) 1)
       (plus (totalPromptTokens s) prompt)
       (plus (totalCompletionTokens s) completion)
       (plus (totalTokens s) total)
       (bump provider usage (byProvider s))
       (bump model usage (byModel s))
       (since s)).

End WithNumbers.

(** [getStats]: the values as [res.json] serialises them at once. *)
Definition getStats : M t t := get.

Definition reset (clock : nat -> Z) : M (Timed t) unit :=
  let* now := Date_now clock in
  setR (fun _ => mk 0 0 0 0 ∅ ∅ now).

End UsageTracker.

Module DashboardRoutes.

(** The JSON body of [POST /tokens/:provider] as the handler reads it. *)
Record TokenBody : Type := mkTokenBody {
  tb_accessToken : string;
  tb_expiresIn : option Z
}.

(** What the token routes answer. *)
Inductive Reply : Type :=
| Success (provider : string)        (* [{ success: true, provider }] *)
| Failure (error : string).          (* [{ error: error.message }] *)

Section WithEnvironment.
Variable clock : nat -> Z.
Variable writeFile : nat -> option JsThrown.

(** [body.expiresIn || 3600] *)
Definition expiresInOrDefault (expiresIn : option Z) : Z :=
  match expiresIn with
  | Some n => if n =? 0 then 3600 else n
  | None => 3600
  end.

(** [POST /tokens/:provider]; [deps.tokenStore] is the store the auth
    manager holds (index.ts passes the same object to both). *)
Definition postToken (p : string) (body : TokenBody)
  : M (Timed AuthManager.t) (Z * Reply) :=
  let* now := Date_now clock in
  let tokenSet :=
    mkTokenSet (tb_accessToken body) None
               (now + expiresInOrDefault (tb_expiresIn body) * 1000) p in
  let* s := AuthManager.onStore (FileTokenStore.saveToken writeFile p tokenSet) in
  match s with
  | Return _ => ret (200, Success p)
  | Throw e => ret (400, Failure (AuthManager.messageOf e))
  end.

End WithEnvironment.
End DashboardRoutes.

(* ===================================================================== *)
(** * Vocabulary of the statements, and concrete data                     *)
(* ===================================================================== *)

(** The definitions below are not part of the program: they name the
    notions the properties are stated with (a failed provider, the cleaned
    window, a valid body, ...), word the properties the way the
    specification does where the program departs from it, and build the
    concrete routers, limiters and requests the examples run on. *)

(** The head of a list is below all of it. *)
Definition headLowest (l : list ProviderModel) : Prop :=
  match l with
  | [] => True
  | a :: _ => ∀ c, c ∈ l → priority a <= priority c
  end.

(** ** Router *)

Module RouterSpec.
Import Router.

(** A provider is failed at time [now]: it has an entry in the failure
    map that is not older than the TTL. *)
Definition failedAt (now : Z) (r : Router.t) (p : string) : bool :=
  match failedProviders r !! p with
  | None => false
  | Some timestamp => bool_decide (now - timestamp <= failureTTL r)
  end.

(** The failure map after the eviction that [clearExpiredFailures] does at
    time [now]. *)
Definition pruned (now : Z) (r : Router.t) : Router.t :=
  setFailed (filter (fun kv => ¬ (now - kv.2 > failureTTL r)) (failedProviders r)) r.

(** Alias resolution reads only the alias table. *)
Definition resolved (r : Router.t) (m : string) : Result (list ProviderModel) :=
  match modelAliases r !! m with
  | Some a => Return (sortByPriority (providers a))
  | None =>
      match splitAtSlash m with
      | Some (p, modelName) => Return [mkProviderModel p modelName 0]
      | None => Throw (JsError ("Unknown model: " +:+ m))
      end
  end.

(** The router once [p] has been recorded as failed at time [now]. *)
Definition marked (now : Z) (p : string) (r : Router.t) : Router.t :=
  setFailed (<[p := now]> (failedProviders r)) r.

(** The configuration of the router tests. *)
Definition bestModel : list ProviderModel :=
  [mkProviderModel "openai" "gpt-4" 1; mkProviderModel "gemini" "gemini-pro" 2].

Definition testAliases : list ModelAlias :=
  [mkModelAlias "best-model" bestModel;
   mkModelAlias "fast-model" [mkProviderModel "openai" "gpt-3.5-turbo" 1]].

(** A clock that stands still. *)
Definition clock0 : nat -> Z := fun _ => 1000.

(** [new Router(testConfig, 60000)] *)
Definition fresh : Router.t := constructor testAliases (Some 60000).

(** ... after [markFailed('gemini')] *)
Definition geminiDown : Router.t := obj (markFailed clock0 "gemini" (mkTimed fresh 0)).2.

(** ... after [markFailed('openai')] *)
Definition openaiDown : Router.t := obj (markFailed clock0 "openai" (mkTimed fresh 0)).2.

(** The no-repeat-on-failure property as the specification words it: any
    alias with at least two candidates, any provider [p] of the list, a
    call within the TTL. *)
Definition no_repeat_on_failure_as_stated : Prop :=
  ∀ (clock : nat → Z) (r : Router.t) (k : nat) (m p : string) (al : ModelAlias),
    modelAliases r !! m = Some al →
    (2 ≤ length (providers al))%nat →
    p ∈ provider <$> providers al →
    (∀ j, (k < j)%nat → clock j - clock k <= failureTTL r) →
    ∃ a, (getNextProvider clock m p (mkTimed r k)).1 = Return (Some a)
         ∧ provider a ≠ p.

(** The availability preference as the specification words it: failed is
    being in the failure map once the entries older than the TTL are
    evicted, which is the map the call leaves. *)
Definition availability_as_stated : Prop :=
  ∀ (clock : nat → Z) (r : Router.t) (k : nat) (cs : list ProviderModel),
    let run := selectProvider clock cs (mkTimed r k) in
    let failedMap := failedProviders (obj run.2) in
    (∃ c, c ∈ cs ∧ failedMap !! provider c = None) →
    ∃ a, run.1 = Some a ∧ a ∈ cs ∧ failedMap !! provider a = None.

(** A failure of [openai] recorded at time 0. *)
Definition openaiAtZero : Router.t :=
  setFailed {[ "openai" := 0 ]} fresh.

(** The eviction reads the clock at 60000, the checks that follow at 60001. *)
Definition clockTick : nat -> Z := fun j => match j with O => 60000 | _ => 60001 end.
End RouterSpec.

(** ** Rate limiter *)

Module RateLimiterSpec.
Import RateLimiter.

(** The window that [cleanWindow] leaves at time [now]: the timestamps
    from the first one younger than 60 s on. *)
Definition cleaned (now : Z) (timestamps : list Z) : list Z :=
  match findIndex (fun x => bool_decide (x > now - 60000)) timestamps with
  | None => []
  | Some validIdx => drop validIdx timestamps
  end.

(** The window as [acquire] and [getStatus] see it at state [r], when
    the next reading of the clock is [now]. *)
Definition window (now : Z) (r : RateLimiter.t) (p : string) : list Z :=
  match requestTimestamps r !! p with
  | Some ts => cleaned now ts
  | None => []
  end.

(** The queue of a provider. *)
Definition waiting (r : RateLimiter.t) (p : string) : list QueuedRequest :=
  default [] (queues r !! p).

(** The tick after [cleanWindow]: it reads the clock only when the
    provider has a window. *)
Definition cleanTicks (r : RateLimiter.t) (p : string) (k : nat) : nat :=
  match requestTimestamps r !! p with Some _ => S k | None => k end.

(** The state once [acquire] has cleaned the window and made sure that
    both maps have an entry for the provider. *)
Definition prepared (now : Z) (p : string) (r : RateLimiter.t) : RateLimiter.t :=
  setQueue p (waiting r p) (setTimestamps p (window now r p) r).

(** The state after [startTimer]. *)
Definition startedTimer (p : string) (r : RateLimiter.t) : RateLimiter.t :=
  if bool_decide (p ∈ timers r) then r else setTimers ({[p]} ∪ timers r) r.

(** [n] calls of [acquire(p)] in a row. *)
Fixpoint acquireN (clock : nat -> Z) (n : nat) (p : string)
  : M (Timed RateLimiter.t) (list Promise) :=
  match n with
  | O => ret []
  | S n' =>
      let* a := acquire clock p in
      let* rest := acquireN clock n' p in
      ret (a :: rest)
  end.

(** The limiter that [dispose] leaves. *)
Definition disposed (r : RateLimiter.t) : RateLimiter.t := obj (dispose (mkTimed r 0)).2.

(** The timestamps stored for a provider. *)
Definition stored (r : RateLimiter.t) (p : string) : list Z :=
  default [] (requestTimestamps r !! p).

(** The configuration of the rate-limiter tests. *)
Definition testConfigs : list RateLimitConfig :=
  [mkRateLimitConfig "openai" 3 5; mkRateLimitConfig "gemini" 2 3].

(** [new RateLimiter(testConfigs)] *)
Definition fresh : RateLimiter.t := constructor testConfigs.

(** One reading per millisecond. *)
Definition clockMs : nat -> Z := fun j => Z.of_nat j.

(** Five readings at time 0, then 61 s later: [vi.advanceTimersByTime(61000)]
    after three calls of [acquire]. *)
Definition clockJump : nat -> Z := fun j => if (j <? 5)%nat then 0 else 61000.

(** The window-count property as the specification words it, with no
    bound on the time the calls take. *)
Definition window_count_as_stated : Prop :=
  ∀ (clock : nat → Z) (cfgs : list RateLimitConfig) (p : string)
    (config : RateLimitConfig) (N k : nat),
    configs (constructor cfgs) !! p = Some config →
    Z.of_nat N <= requestsPerMinute config →
    let run := acquireN clock N p (mkTimed (constructor cfgs) k) in
    run.1 = replicate N Fulfilled →
    requestsInWindow (getStatus clock p run.2).1 = Z.of_nat N.

(** The contract of [dispose] as the specification words it. *)
Definition dispose_as_stated : Prop :=
  ∀ (clock : nat → Z) (r : RateLimiter.t) (k : nat),
    let w1 := (dispose (mkTimed r k)).2 in
    timers (obj w1) = ∅
    ∧ (∀ p q item, queues r !! p = Some q → item ∈ q →
         (waiter item, Reject (JsError ("Rate limiter disposed for provider " +:+ p)))
         ∈ settled (obj w1))
    ∧ (∀ p k', (acquire clock p (mkTimed (obj w1) k')).1 ≠ Fulfilled).

(** The timestamps of a list that are younger than 60 s at time [now]. *)
Definition young (now : Z) (timestamps : list Z) : list Z :=
  filter (fun x => x > now - 60000) timestamps.

(** One reading every 9 s. *)
Definition clock9s : nat -> Z := fun j => 9000 * Z.of_nat j.

End RateLimiterSpec.

(** ** Provider error normalisation *)

Module BaseProviderSpec.
Import BaseProvider.

(** An upstream reply with the given status and message. *)
Definition upstream (status : Z) (msg : string) : AxiosError :=
  mkAxiosError (Some status) (Some msg) (Some msg).

(** The classification as the specification words it: 401/403, 429, every
    5xx, 400, anything else. *)
Definition classification_as_stated : Prop :=
  ∀ (name msg : string) (status : Z),
    let pe := normalizeError name (upstream status msg) in
    (status = 401 ∨ status = 403 → pe_type pe = auth ∧ pe_retryable pe = false)
    ∧ (status = 429 → pe_type pe = rate_limit ∧ pe_retryable pe = true)
    ∧ (500 <= status <= 599 →
       pe_type pe = service_unavailable ∧ pe_retryable pe = true)
    ∧ (status = 400 → pe_type pe = invalid_request ∧ pe_retryable pe = false)
    ∧ (status ≠ 401 → status ≠ 403 → status ≠ 429 → status ≠ 400 →
       ¬ (500 <= status <= 599) →
       pe_type pe = unknown ∧ pe_retryable pe = false).

End BaseProviderSpec.

(** ** Request validation *)

Module ParseRequestSpec.
Import RequestHandler.

(** What [parseRequest] requires of a message: an object with a non-empty
    string [role] and at least one of a [content] property (which may be
    [null]), a truthy [tool_calls], a truthy [function_call]. *)
Definition validMessage (msg : JsValue) : Prop :=
  (∃ fields, msg = JsObject fields)
  ∧ (∃ role, getProp msg "role" = JsString role ∧ role ≠ "")
  ∧ (getProp msg "content" ≠ JsUndefined
     ∨ truthy (getProp msg "tool_calls") = true
     ∨ truthy (getProp msg "function_call") = true).

(** ... and of a body: an object with a non-empty string [model] and a
    non-empty array [messages] of valid messages. *)
Definition validBody (body : JsValue) : Prop :=
  (∃ fields, body = JsObject fields)
  ∧ (∃ m, getProp body "model" = JsString m ∧ m ≠ "")
  ∧ ∃ msgs, getProp body "messages" = JsArray msgs ∧ msgs ≠ []
            ∧ Forall validMessage msgs.

(** The errors of [parseRequest]: the transport answers them with status
    400 and type [invalid_request_error]. *)
Definition validationError (e : JsThrown) : Prop :=
  (∃ msg, e = JsError msg)
  ∧ GatewayProxy.getHttpStatus e = 400
  ∧ err_type (GatewayProxy.formatError e) = "invalid_request_error".

(** The validation rule as the specification words it: a string [role]
    and at least one of a non-null [content], [tool_calls],
    [function_call]. *)
Definition messageAsStated (msg : JsValue) : Prop :=
  (∃ fields, msg = JsObject fields)
  ∧ (∃ role, getProp msg "role" = JsString role)
  ∧ ((getProp msg "content" ≠ JsUndefined ∧ getProp msg "content" ≠ JsNull)
     ∨ getProp msg "tool_calls" ≠ JsUndefined
     ∨ getProp msg "function_call" ≠ JsUndefined).

(** ... in a body as the specification words it. *)
Definition bodyAsStated (body : JsValue) : Prop :=
  (∃ fields, body = JsObject fields)
  ∧ (∃ m, getProp body "model" = JsString m ∧ m ≠ "")
  ∧ ∃ msgs, getProp body "messages" = JsArray msgs ∧ msgs ≠ []
            ∧ Forall messageAsStated msgs.

(** The bodies [parseRequest] accepts, as the specification words it. *)
Definition validation_as_stated : Prop :=
  ∀ body, (∃ r, parseRequest body = Return r) ↔ bodyAsStated body.

(** [{model: "gpt-4", messages: [{role: "user", content: null}]}] *)
Definition nullContentBody : JsValue :=
  JsObject [("model", JsString "gpt-4");
            ("messages", JsArray [JsObject [("role", JsString "user");
                                            ("content", JsNull)]])].

End ParseRequestSpec.

(** ** Dispatcher *)

Module RequestHandlerSpec.
Import RequestHandler.



(** A frame as [formatSSE] writes it. *)
Definition dataFrame (JSON_stringify : ChatCompletionChunk -> string)
  (c : ChatCompletionChunk) : string :=
  "data: " +:+ JSON_stringify c +:+ LF +:+ LF.

(** The frame of [formatSSEDone]. *)
Definition doneFrame : string := "data: [DONE]" +:+ LF +:+ LF.

(** No provider stream throws a retryable error once it has yielded. *)
Definition midStreamQuiet (providers : string -> option Provider) : Prop :=
  ∀ p prov n req chunks e,
    providers p = Some prov →
    chatCompletionStream prov n req = (chunks, Some e) →
    pe_retryable (normalizeToProviderError e p) = true →
    chunks = [].

(** The mocks of the handler tests. *)
Definition tokenOf (p : string) : TokenSet := mkTokenSet "tok-test" None 9999999 p.

Definition unavailable : JsThrown :=
  JsProviderError
    (mkProviderError "openai" None "Stream failed" service_unavailable true).

Definition textChunk (s : string) : ProviderStreamChunk :=
  mkProviderStreamChunk (Some s) None None None.

Definition reply (s : string) : ProviderResponse :=
  mkProviderResponse s "stop" (mkUsage 10 5 15) None None.

(** An [openai] adapter whose stream yields one chunk and then throws a
    retryable error, and a [gemini] adapter whose stream ends normally. *)
Definition adapters (p : string) : option Provider :=
  if bool_decide (p = "openai") then
    Some (mkProvider (fun _ _ => Throw unavailable)
                     (fun _ _ => ([textChunk "Hel"], Some unavailable)))
  else if bool_decide (p = "gemini") then
    Some (mkProvider (fun _ _ => Return (reply "from gemini"))
                     (fun _ _ => ([textChunk "Hello"], None)))
  else None.

(** Two different results of [randomUUID()]. *)
Definition twoIds (k : nat) : string :=
  match k with O => "0000-a" | _ => "0000-b" end.

(** A serializer that writes the id of the chunk only. *)
Definition idOnly (c : ChatCompletionChunk) : string := chunk_id c.

(** Nothing else runs while the request is suspended, and a queued
    [acquire] is released. *)
Definition quiet (n : nat) (w : World) : World := w.
Definition resolves (n : nat) : Settlement := Resolve.

Definition requestFor (m : string) : ChatCompletionRequest :=
  mkRequest m (JsArray [JsObject [("role", JsString "user");
                                  ("content", JsString "Hi")]])
            JsUndefined JsUndefined JsUndefined JsUndefined JsUndefined JsUndefined.

(** The router of the router tests, no rate limits. *)
Definition world0 : World :=
  mkWorld RouterSpec.fresh (RateLimiter.constructor []) [] 0 0 0.

(** The stream of [best-model] with these adapters, and the world it
    leaves. *)
Definition streamRun : list string * Outcome unit :=
  (handleCompletionStream RouterSpec.clock0 twoIds idOnly (fun _ p => Return (tokenOf p))
     adapters quiet resolves 3 (requestFor "best-model") world0).1.

(** The framing property as the specification words it: the chunks of a
    completed stream all carry one stream id.  The serializer is any
    function from whose output the id of the chunk can be read back, as it
    can from JSON. *)
Definition sse_framing_as_stated : Prop :=
  ∀ (clock : nat → Z) (uuid : nat → string)
    (JSON_stringify : ChatCompletionChunk → string) (readId : string → string)
    (getValidToken : nat → string → Result TokenSet)
    (providers : string → option Provider)
    (interleave : nat → World → World) (settlement : nat → Settlement)
    (maxRetries : nat) (request : ChatCompletionRequest) (w w' : World)
    (frames : list string),
    (∀ c, readId (JSON_stringify c) = chunk_id c) →
    handleCompletionStream clock uuid JSON_stringify getValidToken providers
      interleave settlement maxRetries request w = ((frames, Completed tt), w') →
    ∃ (streamId : string) (chunks : list ChatCompletionChunk),
      frames = (((fun c => "data: " +:+ JSON_stringify c +:+ LF +:+ LF) <$> chunks)
                ++ ["data: [DONE]" +:+ LF +:+ LF])%list
      ∧ ∀ c, c ∈ chunks → chunk_id c = streamId.

Definition streamEnd : World :=
  (handleCompletionStream RouterSpec.clock0 twoIds idOnly (fun _ p => Return (tokenOf p))
     adapters quiet resolves 3 (requestFor "best-model") world0).2.

(** A limiter for [openai] with one request per minute and one place in
    the queue, after one admitted and one queued [acquire]. *)
Definition saturated : Timed RateLimiter.t :=
  (RateLimiterSpec.acquireN RateLimiterSpec.clockMs 2 "openai"
     (mkTimed (RateLimiter.constructor [mkRateLimitConfig "openai" 1 1]) 0)).2.



(** One attempt of the stream handler: the provider it tried, the world in
    which it started, and the chunks whose frames it yielded. *)
Record Attempt : Type := mkAttempt {
  at_selected : ProviderModel;
  at_world : World;
  at_chunks : list ChatCompletionChunk
}.

Section Attempts.
Variable clock : nat -> Z.
Variable uuid : nat -> string.
Variable JSON_stringify : ChatCompletionChunk -> string.
Variable getValidToken : nat -> string -> Result TokenSet.
Variable providers : string -> option Provider.
Variable interleave : nat -> World -> World.
Variable settlement : nat -> Settlement.

(** The number of the [randomUUID()] call that gives an attempt its stream
    id: the calls made when the attempt has awaited the limiter and the
    token. *)
Definition streamIdCall (selected : ProviderModel) (w : World) : nat :=
  w_uuids (awaitValidToken getValidToken interleave (provider selected)
             (awaitAcquire clock interleave settlement (provider selected) w).2).2.

(** The attempts of a stream that completed, in order: every attempt but
    the last yielded its frames and threw, and the router then gave the
    provider and the world of the next one; the last yielded its frames
    and the done frame, and returned. *)
Fixpoint chained (request : ChatCompletionRequest) (attempts : list Attempt) : Prop :=
  match attempts with
  | [] => False
  | a :: rest =>
      let run := tryStream clock uuid JSON_stringify getValidToken providers interleave
                   settlement request (at_selected a) (at_world a) in
      match rest with
      | [] =>
          run.1 = ((dataFrame JSON_stringify <$> at_chunks a) ++ [doneFrame], Return tt)%list
      | b :: _ =>
          (∃ e, run.1 = (dataFrame JSON_stringify <$> at_chunks a, Throw e))
          ∧ onRouter (Router.getNextProvider clock (req_model request)
                        (provider (at_selected a))) run.2
            = (Return (Some (at_selected b)), at_world b)
          ∧ chained request rest
      end
  end.
End Attempts.

End RequestHandlerSpec.

(** ** Token refresh *)

Module AuthManagerSpec.

(** The store once it is initialized: what the operations act on. *)
Definition loaded (s : FileTokenStore.t) : FileTokenStore.t := (FileTokenStore.initialize s).2.

(** The token a provider has in the store. *)
Definition storedToken (s : FileTokenStore.t) (p : string) : option TokenSet :=
  FileTokenStore.tokens (loaded s) !! p.

(** The provider can refresh: configured, enabled, with a token endpoint
    and a client id. *)
Definition refreshable (a : AuthManager.t) (p : string) (config : ProviderConfig) : Prop :=
  AuthManager.providerConfigs a !! p = Some config
  ∧ enabled config = true
  ∧ AuthManager.missing (tokenEndpoint config) = false
  ∧ AuthManager.missing (clientId config) = false.

(** The request [refreshToken] posts. *)
Definition refreshRequest (config : ProviderConfig) (currentToken : TokenSet)
  : AuthManager.RefreshRequest :=
  AuthManager.mkRefreshRequest (default "" (tokenEndpoint config))
                   (default "" (clientId config))
                   (clientSecret config)
                   (default "" (refreshToken currentToken))
                   "refresh_token".

(** The store after [saveToken], before the write. *)
Definition withToken (p : string) (tokenSet : TokenSet) (s : FileTokenStore.t)
  : FileTokenStore.t :=
  FileTokenStore.mk (<[p := tokenSet]> (FileTokenStore.tokens (loaded s))) true
                    (FileTokenStore.file (loaded s)) (FileTokenStore.writes s).

(** The token set [refreshToken] builds from a reply read at time [now]. *)
Definition refreshed (now : Z) (p : string) (currentToken : TokenSet)
  (response : AuthManager.TokenResponse) : TokenSet :=
  mkTokenSet (AuthManager.access_token response)
             (orString (AuthManager.refresh_token response)
                       (refreshToken currentToken))
             (now + AuthManager.expires_in response * 1000) p.

(** A token that expired, with a refresh token. *)
Definition expired : TokenSet := mkTokenSet "old-access" (Some "refresh-1") 500 "openai".

(** An initialized store that holds it. *)
Definition store : FileTokenStore.t :=
  FileTokenStore.mk {[ "openai" := expired ]} true FileTokenStore.NoFile 0.

(** The provider entry of the router tests: no token endpoint, no client id. *)
Definition apiOnly : AuthManager.t :=
  AuthManager.mk store
    {[ "openai" := mkProviderConfig true None None None None "https://api.openai.com" ]}.

(** A provider entry with the OAuth endpoints. *)
Definition withOAuth : AuthManager.t :=
  AuthManager.mk store
    {[ "openai" := mkProviderConfig true (Some "client-1") None
                     (Some "https://auth.example/device")
                     (Some "https://auth.example/token")
                     "https://api.openai.com" ]}.

(** A clock that stands still, a disk that takes every write. *)
Definition clock0 : nat -> Z := fun _ => 1000.
Definition diskOk : nat -> option JsThrown := fun _ => None.

(** The token endpoint returns a new access token with [expires_in = 3600]. *)
Definition endpointOk (r : AuthManager.RefreshRequest)
  : AuthManager.TokenResponse + string :=
  inl (AuthManager.mkTokenResponse "new-access" None 3600).

(** The refresh contract as the specification words it: a returned token
    set is stored, and any failure deletes the stored entry. *)
Definition refresh_contract_as_stated : Prop :=
  ∀ (clock : nat → Z) (writeFile : nat → option JsThrown)
    (axios_post : AuthManager.RefreshRequest → AuthManager.TokenResponse + string)
    (a : AuthManager.t) (k : nat) (p : string) (currentToken : TokenSet),
    storedToken (AuthManager.tokenStore a) p = Some currentToken →
    AuthManager.missing (refreshToken currentToken) = false →
    let run := AuthManager.refreshToken clock writeFile axios_post p (mkTimed a k) in
    let after := storedToken (AuthManager.tokenStore (obj run.2)) p in
    (∀ tokenSet, run.1 = Return tokenSet → after = Some tokenSet)
    ∧ (∀ e, run.1 = Throw e → after = None).

End AuthManagerSpec.

(** ** Vocabulary of the further properties *)

(** The order of the candidates of an alias. *)
Definition byPriority (a b : ProviderModel) : Prop := priority a <= priority b.

(** *** Runs of the rate limiter *)

Module RateLimiterRuns.
Import RateLimiter RateLimiterSpec.

(** How many waiters one run of [processQueue] releases. *)
Definition released (rpm : Z) (queue : list QueuedRequest) (timestamps : list Z) : nat :=
  (length queue `min` Z.to_nat (rpm - Z.of_nat (length timestamps)))%nat.

(** The [resolve] calls for the given waiters, in order. *)
Definition resolutions (items : list QueuedRequest) : list (nat * Settlement) :=
  (fun item => (waiter item, Resolve)) <$> items.

(** The limiter once these settlements have been made. *)
Definition withSettled (news : list (nat * Settlement)) (r : RateLimiter.t) : RateLimiter.t :=
  mk (configs r) (requestTimestamps r) (queues r) (timers r) (promises r)
     (settled r ++ news).

(** The calls made on a limiter. *)
Inductive Call : Type :=
| CallAcquire (p : string)
| CallGetStatus (p : string)
| TimerFires (p : string)
| CallDispose.

Definition call (clock : nat -> Z) (c : Call) : M (Timed RateLimiter.t) unit :=
  match c with
  | CallAcquire p => let* _ := acquire clock p in ret tt
  | CallGetStatus p => let* _ := getStatus clock p in ret tt
  | TimerFires p => timerFires clock p
  | CallDispose => dispose
  end.

Fixpoint calls (clock : nat -> Z) (cs : list Call) : M (Timed RateLimiter.t) unit :=
  match cs with
  | [] => ret tt
  | c :: cs' => let* _ := call clock c in calls clock cs'
  end.

(** The promises waiting in some queue, and the promises settled. *)
Definition idsOf (qs : gmap string (list QueuedRequest)) : list nat :=
  map_to_list qs ≫= (fun pq => waiter <$> pq.2).
Definition queuedIds (r : RateLimiter.t) : list nat := idsOf (queues r).
Definition settledIds (r : RateLimiter.t) : list nat := fst <$> settled r.

(** What every reachable limiter satisfies. *)
Record Invariant (r : RateLimiter.t) : Prop := mkInvariant {
  inv_window : ∀ p config, configs r !! p = Some config →
      Z.of_nat (length (stored r p)) <= Z.max 0 (requestsPerMinute config);
  inv_queue : ∀ p config, configs r !! p = Some config →
      Z.of_nat (length (waiting r p)) <= Z.max 0 (maxQueueSize config);
  inv_unconfigured : ∀ p, configs r !! p = None → waiting r p = [];
  inv_timers : ∀ p, p ∈ timers r ↔ waiting r p ≠ [];
  inv_ids : (queuedIds r ++ settledIds r)%list ≡ₚ seq 0 (promises r)
}.

End RateLimiterRuns.

(** *** Headers *)

Module BaseProviderRuns.
Import BaseProvider.
(** [n] calls of [buildHeaders] in a row, with the given tokens. *)
Fixpoint buildHeadersAll (tokens : list string) : M UserAgentPool.t (list Headers) :=
  match tokens with
  | [] => ret []
  | tk :: rest =>
      let* h := buildHeaders tk in
      let* hs := buildHeadersAll rest in
      ret (h :: hs)
  end.
End BaseProviderRuns.

(** *** Provider adapters *)

Module OpenAIProviderSpec.
(** Strings one after the other. *)
Definition joined (parts : list string) : string := foldr String.append "" parts.

(** A decoder for bodies of one-byte characters. *)
Definition decodeLatin (b : OpenAIProvider.Buffer) : string := String.string_of_list_byte b.

(** A body cut in the middle of a line. *)
Definition twoChunks : list OpenAIProvider.Buffer :=
  [String.list_byte_of_string ("data: Hel" +:+ LF +:+ "da");
   String.list_byte_of_string ("ta: lo" +:+ LF +:+ "data: [DONE]" +:+ LF)].
End OpenAIProviderSpec.

Module GeminiProviderSpec.
Import GeminiProvider.

(** The [finishReason] of the first candidate of a reply, if it has one. *)
Definition firstReason (data : GeminiProviderResponse) : option string :=
  head (candidates data) ≫= finishReason.

(** The role under which [convertMessages] passes a message on, if it does. *)
Definition convertedRole (msg : RequestMessage) : option string :=
  if bool_decide (rm_role msg = "user") then Some "user"
  else if bool_decide (rm_role msg = "assistant") then Some "model"
  else if bool_decide (rm_role msg = "tool") then Some "user"
  else if bool_decide (rm_role msg = "function") then Some "user"
  else None.

(** [JSON.parse] succeeds on what the converter parses of a message. *)
Definition parseable (JSON_parse : string -> Result JsValue) (msg : RequestMessage)
  : Prop :=
  (rm_role msg = "assistant" →
   ∀ fc, rm_function_call msg = Some fc → ∃ v, JSON_parse (fc_arguments fc) = Return v)
  ∧ (rm_role msg = "tool" ∨ rm_role msg = "function" →
     ∀ c, rm_content msg = Some c → c ≠ "" → ∃ v, JSON_parse c = Return v).

End GeminiProviderSpec.

(** *** Usage *)

Module UsageTrackerSpec.

(** The sum of one counter over the entries of [byProvider] or [byModel]. *)
Definition sumOf (f : UsageTracker.ModelUsage -> Z)
  (m : gmap string UsageTracker.ModelUsage) : Z :=
  map_fold (fun _ entry acc => f entry + acc) 0 m.

(** What happens to a tracker. *)
Inductive Event : Type :=
| Recorded (provider model : string) (usage : Usage)
| WasReset.

Definition event (rounded : Z -> Z -> Z) (clock : nat -> Z) (e : Event)
  : M (Timed UsageTracker.t) unit :=
  match e with
  | Recorded provider model usage =>
      fun w => (tt, mkTimed (UsageTracker.recordUsage rounded provider model usage
                               (obj w)).2
                            (ticks w))
  | WasReset => UsageTracker.reset clock
  end.

Fixpoint events (rounded : Z -> Z -> Z) (clock : nat -> Z) (es : list Event)
  : M (Timed UsageTracker.t) unit :=
  match es with
  | [] => ret tt
  | e :: es' => let* _ := event rounded clock e in events rounded clock es'
  end.

(** [new UsageTracker()] at the k-th reading of the clock. *)
Definition fresh (clock : nat -> Z) (k : nat) : Timed UsageTracker.t :=
  let '(t, w) := UsageTracker.constructor clock (mkTimed tt k) in mkTimed t (ticks w).

(** The totals agree with the per-provider and the per-model entries. *)
Definition consistent (t : UsageTracker.t) : Prop :=
  UsageTracker.totalRequests t
    = sumOf UsageTracker.mu_requestCount (UsageTracker.byProvider t)
  ∧ UsageTracker.totalRequests t
    = sumOf UsageTracker.mu_requestCount (UsageTracker.byModel t)
  ∧ UsageTracker.totalPromptTokens t
    = sumOf UsageTracker.mu_promptTokens (UsageTracker.byProvider t)
  ∧ UsageTracker.totalPromptTokens t
    = sumOf UsageTracker.mu_promptTokens (UsageTracker.byModel t)
  ∧ UsageTracker.totalCompletionTokens t
    = sumOf UsageTracker.mu_completionTokens (UsageTracker.byProvider t)
  ∧ UsageTracker.totalCompletionTokens t
    = sumOf UsageTracker.mu_completionTokens (UsageTracker.byModel t)
  ∧ UsageTracker.totalTokens t
    = sumOf UsageTracker.mu_totalTokens (UsageTracker.byProvider t)
  ∧ UsageTracker.totalTokens t
    = sumOf UsageTracker.mu_totalTokens (UsageTracker.byModel t).

(** The sum of a list of numbers. *)
Definition total (l : list Z) : Z := foldr Z.add 0 l.

(** The entry that the usages recorded under one key add up to. *)
Definition entryOf (usages : list Usage) : option UsageTracker.ModelUsage :=
  match usages with
  | [] => None
  | _ => Some (UsageTracker.mkModelUsage (Z.of_nat (length usages))
                 (total (promptTokens <$> usages))
                 (total (completionTokens <$> usages))
                 (total (totalTokens <$> usages)))
  end.

(** The calls of [recordUsage] since the last [reset], oldest first;
    [recorded] holds those seen so far. *)
Fixpoint sinceResetFrom (recorded : list (string * string * Usage)) (es : list Event)
  : list (string * string * Usage) :=
  match es with
  | [] => recorded
  | Recorded provider model usage :: es' =>
      sinceResetFrom (recorded ++ [(provider, model, usage)]) es'
  | WasReset :: es' => sinceResetFrom [] es'
  end.

Definition sinceReset (es : list Event) : list (string * string * Usage) :=
  sinceResetFrom [] es.

(** The usages of all the calls of [recordUsage] among the events. *)
Fixpoint recordedIn (es : list Event) : list Usage :=
  match es with
  | [] => []
  | Recorded _ _ usage :: es' => usage :: recordedIn es'
  | WasReset :: es' => recordedIn es'
  end.

(** The token counts are not negative, and the number of calls and each
    of the three sums of tokens stay within 2^53, where the additions of
    the tracker are exact. *)
Definition withinExactRange (usages : list Usage) : Prop :=
  Forall (fun u => 0 <= promptTokens u ∧ 0 <= completionTokens u ∧ 0 <= totalTokens u)
         usages
  ∧ Z.of_nat (length usages) <= 2 ^ 53
  ∧ total (promptTokens <$> usages) <= 2 ^ 53
  ∧ total (completionTokens <$> usages) <= 2 ^ 53
  ∧ total (totalTokens <$> usages) <= 2 ^ 53.

(** The closed form of a tracker that has recorded the calls [recorded]
    since it was new or reset. *)
Definition holds (t : UsageTracker.t) (recorded : list (string * string * Usage)) : Prop :=
  UsageTracker.totalRequests t = Z.of_nat (length recorded)
  ∧ UsageTracker.totalPromptTokens t = total (promptTokens <$> recorded.*2)
  ∧ UsageTracker.totalCompletionTokens t = total (completionTokens <$> recorded.*2)
  ∧ UsageTracker.totalTokens t = total (totalTokens <$> recorded.*2)
  ∧ (∀ p, UsageTracker.byProvider t !! p
          = entryOf (filter (λ c, c.1.1 = p) recorded).*2)
  ∧ (∀ m, UsageTracker.byModel t !! m
          = entryOf (filter (λ c, c.1.2 = m) recorded).*2).

(** Counts of 2^53 tokens, then of one. *)
Definition huge : Usage := mkUsage (2 ^ 53) 0 (2 ^ 53).
Definition one : Usage := mkUsage 1 0 1.

(** The nearest double of a sum between 2^53 and 2^54, where the doubles
    are the even integers: an odd sum goes to the neighbour that is a
    multiple of 4 (ties to even). *)
Definition toEven (a b : Z) : Z :=
  let sum := a + b in
  if Z.even sum then sum
  else if sum mod 4 =? 1 then sum - 1 else sum + 1.

End UsageTrackerSpec.

(** *** Tokens *)

Module AuthManagerRuns.
Import AuthManagerSpec.

(** The provider can run a device flow: as [refreshable]. *)
(** A poll that tells to go on polling. *)
Definition keepPolling (reply : AuthManager.DeviceReply) : Prop :=
  ∃ message, reply = AuthManager.Refused (Some "authorization_pending") message
             ∨ reply = AuthManager.Refused (Some "slow_down") message.

(** The request [completeDeviceFlow] posts. *)
Definition deviceRequest (config : ProviderConfig) (deviceCode : string)
  : AuthManager.DeviceRequest :=
  AuthManager.mkDeviceRequest (default "" (tokenEndpoint config))
    (default "" (clientId config)) deviceCode
    "urn:ietf:params:oauth:grant-type:device_code".

(** The manager with its store replaced. *)
Definition withStore (s : FileTokenStore.t) (a : AuthManager.t) : AuthManager.t :=
  AuthManager.mk s (AuthManager.providerConfigs a).


(** A token that is good until 5000, in an initialized store of a manager
    without any provider configuration. *)
Definition current : TokenSet := mkTokenSet "access-1" None 5000 "openai".

Definition signedIn : AuthManager.t :=
  AuthManager.mk (FileTokenStore.mk {[ "openai" := current ]} true FileTokenStore.NoFile 0) ∅.

(** A manager whose store has no file yet. *)
Definition signedOut : AuthManager.t :=
  AuthManager.mk (FileTokenStore.constructor FileTokenStore.NoFile) ∅.

(** The user never authorizes. *)
Definition neverGranted (n : nat) (r : AuthManager.DeviceRequest) : AuthManager.DeviceReply :=
  AuthManager.Refused (Some "authorization_pending") "Request failed with status code 400".

(** The user authorizes before the third poll. *)
Definition grantedAtThird (n : nat) (r : AuthManager.DeviceRequest)
  : AuthManager.DeviceReply :=
  if (n <? 3)%nat
  then AuthManager.Refused (Some "authorization_pending")
                           "Request failed with status code 400"
  else AuthManager.Granted (AuthManager.mkTokenResponse "device-access" (Some "refresh-2") 3600).

Definition oauthConfig : ProviderConfig :=
  mkProviderConfig true (Some "client-1") None
    (Some "https://auth.example/device") (Some "https://auth.example/token")
    "https://api.openai.com".

End AuthManagerRuns.

(** *** Request bodies *)

Module GatewayProxySpec.

(** [{model: m, messages: [{role: "user", content: "Hi"}], stream}] *)
Definition chatBody (m : string) (stream : JsValue) : JsValue :=
  JsObject [("model", JsString m);
            ("messages", JsArray [JsObject [("role", JsString "user");
                                            ("content", JsString "Hi")]]);
            ("stream", stream)].

End GatewayProxySpec.

(* ===================================================================== *)
(** * Properties                                                          *)
(* ===================================================================== *)

(** Unfolding the state-passing combinators. *)
Ltac run_m :=
  unfold bind, ret, getR, setR, Date_now, get, modify in *;
  cbn [fst snd obj ticks] in *.

(** ** The stable sort by priority *)

Lemma elem_of_insertByPriority x y l :
  y ∈ insertByPriority x l ↔ y = x ∨ y ∈ l.
Proof.
  induction l as [|z l IH]; cbn.
  - rewrite list_elem_of_singleton, elem_of_nil. tauto.
  - destruct (priority x <=? priority z).
    + rewrite (elem_of_cons (z :: l) y x). tauto.
    + rewrite !elem_of_cons, IH. tauto.
Qed.

Lemma elem_of_sortByPriority y l : y ∈ sortByPriority l ↔ y ∈ l.
Proof.
  induction l as [|x l IH]; cbn; [done|].
  rewrite elem_of_insertByPriority, IH, elem_of_cons. tauto.
Qed.

Lemma length_insertByPriority x l :
  length (insertByPriority x l) = S (length l).
Proof.
  induction l as [|z l IH]; cbn; [done|].
  destruct (priority x <=? priority z); cbn; congruence.
Qed.

Lemma length_sortByPriority l : length (sortByPriority l) = length l.
Proof.
  induction l as [|x l IH]; cbn; [done|].
  rewrite length_insertByPriority. congruence.
Qed.

Lemma headLowest_insert x l :
  headLowest l → headLowest (insertByPriority x l).
Proof.
  destruct l as [|z l]; cbn.
  - intros _ c Hc. apply list_elem_of_singleton in Hc. subst. lia.
  - intros Hz. destruct (priority x <=? priority z) eqn:E; cbn.
    + apply Z.leb_le in E. intros c Hc.
      apply elem_of_cons in Hc as [->|Hc]; [lia|].
      specialize (Hz c Hc). lia.
    + apply Z.leb_gt in E. intros c Hc.
      apply elem_of_cons in Hc as [->|Hc]; [lia|].
      apply elem_of_insertByPriority in Hc as [->|Hc]; [lia|].
      apply Hz. by right.
Qed.

Lemma headLowest_sort l : headLowest (sortByPriority l).
Proof.
  induction l as [|x l IH]; cbn; [done|]. by apply headLowest_insert.
Qed.

(** What [sorted[0]] is for a non-empty array. *)
Lemma head_sortByPriority l :
  l ≠ [] →
  ∃ a, head (sortByPriority l) = Some a ∧ a ∈ l
       ∧ ∀ c, c ∈ l → priority a <= priority c.
Proof.
  intros Hl.
  pose proof (headLowest_sort l) as Hh.
  pose proof (length_sortByPriority l) as Hlen.
  destruct (sortByPriority l) as [|a s] eqn:E.
  - destruct l; [done|discriminate].
  - exists a. split; [done|]. split.
    + apply elem_of_sortByPriority. rewrite E. by left.
    + intros c Hc. apply Hh. rewrite <- E. by apply elem_of_sortByPriority.
Qed.

(** ** Router *)

Module RouterFacts.
Import Router RouterSpec.

Lemma pruned_lookup now r p :
  failedProviders (pruned now r) !! p =
  match failedProviders r !! p with
  | Some timestamp =>
      if bool_decide (now - timestamp <= failureTTL r) then Some timestamp else None
  | None => None
  end.
Proof.
  unfold pruned; cbn.
  destruct (failedProviders r !! p) as [timestamp|] eqn:E.
  - case_bool_decide as Hd.
    + apply map_lookup_filter_Some. split; [done|]. cbn. lia.
    + apply map_lookup_filter_None. right. intros x Hx. cbn.
      rewrite E in Hx. injection Hx as <-. lia.
  - apply map_lookup_filter_None. by left.
Qed.

(** Being in the pruned map is being failed. *)
Lemma pruned_lookup_None now r p :
  failedProviders (pruned now r) !! p = None ↔ failedAt now r p = false.
Proof.
  rewrite pruned_lookup. unfold failedAt.
  destruct (failedProviders r !! p); [|done].
  case_bool_decide; split; congruence.
Qed.

Lemma failureTTL_pruned now r : failureTTL (pruned now r) = failureTTL r.
Proof. done. Qed.

Section WithClock.
Variable clock : nat -> Z.

Lemma isProviderFailed_run p w :
  ∃ k', isProviderFailed clock p w = (failedAt (clock (ticks w)) (obj w) p, mkTimed (obj w) k')
        ∧ (ticks w ≤ k' ≤ S (ticks w))%nat.
Proof.
  unfold isProviderFailed, failedAt. run_m.
  destruct w as [r k]; cbn.
  destruct (failedProviders r !! p); eexists; (split; [reflexivity|cbn; lia]).
Qed.

(** The partition loop: the state is left as it is, at most one reading
    is taken per candidate, and every candidate goes to the side on which
    the reading taken for it puts it. *)
Lemma partitionCandidates_run cs :
  ∀ w av fl,
  ∃ avs fls k',
    partitionCandidates clock cs av fl w = ((av ++ avs, fl ++ fls)%list, mkTimed (obj w) k')
    ∧ (ticks w ≤ k' ≤ ticks w + length cs)%nat
    ∧ (∀ c, c ∈ avs → c ∈ cs ∧ ∃ j, (ticks w ≤ j < ticks w + length cs)%nat
                                 ∧ failedAt (clock j) (obj w) (provider c) = false)
    ∧ (∀ c, c ∈ fls → c ∈ cs ∧ ∃ j, (ticks w ≤ j < ticks w + length cs)%nat
                                 ∧ failedAt (clock j) (obj w) (provider c) = true)
    ∧ (∀ c, c ∈ cs → c ∈ avs ∨ c ∈ fls).
Proof.
  induction cs as [|c0 cs IH]; intros w av fl.
  - exists [], [], (ticks w). cbn. unfold ret. rewrite !app_nil_r.
    destruct w; cbn.
    split; [done|]. split; [lia|].
    split; [|split]; intros x Hx; by apply elem_of_nil in Hx.
  - cbn [partitionCandidates]. unfold bind at 1.
    destruct (isProviderFailed_run (provider c0) w) as (k1 & -> & Hk1).
    destruct (failedAt (clock (ticks w)) (obj w) (provider c0)) eqn:Hf.
    + destruct (IH (mkTimed (obj w) k1) av (fl ++ [c0])%list)
        as (avs & fls & k' & -> & Hk' & Hav & Hfl & Hall).
      cbn in *. exists avs, (c0 :: fls), k'.
      rewrite <- app_assoc. cbn.
      split; [done|]. split; [lia|]. split; [|split].
      * intros x Hx. destruct (Hav x Hx) as (Hin & j & Hj & Hjf).
        split; [by right|]. exists j. split; [lia|done].
      * intros x Hx. apply elem_of_cons in Hx as [->|Hx].
        -- split; [by left|]. exists (ticks w). split; [lia|done].
        -- destruct (Hfl x Hx) as (Hin & j & Hj & Hjf).
           split; [by right|]. exists j. split; [lia|done].
      * intros x Hx. apply elem_of_cons in Hx as [->|Hx].
        -- right. by left.
        -- destruct (Hall x Hx); [by left|right; by right].
    + destruct (IH (mkTimed (obj w) k1) (av ++ [c0])%list fl)
        as (avs & fls & k' & -> & Hk' & Hav & Hfl & Hall).
      cbn in *. exists (c0 :: avs), fls, k'.
      rewrite <- app_assoc. cbn.
      split; [done|]. split; [lia|]. split; [|split].
      * intros x Hx. apply elem_of_cons in Hx as [->|Hx].
        -- split; [by left|]. exists (ticks w). split; [lia|done].
        -- destruct (Hav x Hx) as (Hin & j & Hj & Hjf).
           split; [by right|]. exists j. split; [lia|done].
      * intros x Hx. destruct (Hfl x Hx) as (Hin & j & Hj & Hjf).
        split; [by right|]. exists j. split; [lia|done].
      * intros x Hx. apply elem_of_cons in Hx as [->|Hx].
        -- left. by left.
        -- destruct (Hall x Hx); [left; by right|by right].
Qed.

(** [selectProvider] on a non-empty list: the failure map is pruned at the
    first reading, the candidates are partitioned at the following ones,
    and the head of the sorted available ones is taken, else the head of
    the sorted failed ones. *)
Lemma selectProvider_run cs w :
  cs ≠ [] →
  let r' := pruned (clock (ticks w)) (obj w) in
  ∃ avs fls k',
    selectProvider clock cs w =
      (match sortByPriority avs with
       | a0 :: _ => Some a0
       | [] => head (sortByPriority fls)
       end, mkTimed r' k')
    ∧ (S (ticks w) ≤ k' ≤ S (ticks w) + length cs)%nat
    ∧ (∀ c, c ∈ avs → c ∈ cs ∧ ∃ j, (S (ticks w) ≤ j < S (ticks w) + length cs)%nat
                                 ∧ failedAt (clock j) r' (provider c) = false)
    ∧ (∀ c, c ∈ fls → c ∈ cs ∧ ∃ j, (S (ticks w) ≤ j < S (ticks w) + length cs)%nat
                                 ∧ failedAt (clock j) r' (provider c) = true)
    ∧ (∀ c, c ∈ cs → c ∈ avs ∨ c ∈ fls).
Proof.
  intros Hne r'. unfold selectProvider.
  destruct cs as [|c0 cs]; [done|]. cbn [length Nat.eqb].
  unfold clearExpiredFailures. run_m.
  destruct (partitionCandidates_run (c0 :: cs)
              (mkTimed r' (S (ticks w))) [] [])
    as (avs & fls & k' & Hrun & Hk' & Hav & Hfl & Hall).
  cbn [obj ticks app] in *. subst r'. unfold pruned in *.
  rewrite Hrun. cbn [fst snd].
  exists avs, fls, k'.
  split; [by destruct (sortByPriority avs)|].
  split; [done|]. done.
Qed.

(** Pruning never makes a provider failed. *)
Lemma failedAt_pruned_true now now' r p :
  failedAt now' (pruned now r) p = true → failedAt now' r p = true.
Proof.
  unfold failedAt at 1. rewrite pruned_lookup, failureTTL_pruned.
  unfold failedAt. destruct (failedProviders r !! p) as [timestamp|]; [|done].
  by case_bool_decide.
Qed.

(** What a reading taken after an eviction finds. *)
Lemma failedAt_pruned now now' r p :
  failedAt now' (pruned now r) p = failedAt now r p && failedAt now' r p.
Proof.
  unfold failedAt at 1. rewrite pruned_lookup, failureTTL_pruned.
  unfold failedAt. destruct (failedProviders r !! p) as [timestamp|]; [|done].
  by case_bool_decide.
Qed.

(** C4. Availability preference of [selectProvider].  While the call
    runs, no candidate's failure entry expires (in particular when the
    readings of the clock coincide); [now] is the first reading.  On an
    empty candidate list the result is [null]; if some candidate's
    provider is not failed (not in the failure map once entries older
    than the TTL are dropped, see [pruned_lookup_None]) the result is such
    a candidate, of the lowest priority among them, so a failed candidate
    is never returned while a non-failed one exists; and if every
    candidate is failed the result is a failed candidate of the lowest
    priority. *)
Theorem selectProvider_prefers_available (r : Router.t) (k : nat)
    (cs : list ProviderModel) :
  (∀ c j, c ∈ cs → (k ≤ j ≤ k + length cs)%nat →
          failedAt (clock j) r (provider c) = failedAt (clock k) r (provider c)) →
  let now := clock k in
  let res := (selectProvider clock cs (mkTimed r k)).1 in
  (cs = [] → res = None)
  ∧ ((∃ c, c ∈ cs ∧ failedAt now r (provider c) = false) →
     ∃ a, res = Some a ∧ a ∈ cs ∧ failedAt now r (provider a) = false
          ∧ ∀ c, c ∈ cs → failedAt now r (provider c) = false →
                 priority a <= priority c)
  ∧ (cs ≠ [] → (∀ c, c ∈ cs → failedAt now r (provider c) = true) →
     ∃ f, res = Some f ∧ f ∈ cs ∧ failedAt now r (provider f) = true
          ∧ ∀ c, c ∈ cs → priority f <= priority c).
Proof.
  intros Hstable now res.
  split; [intros ->; done|].
  assert (Hcases : cs = [] ∨ cs ≠ []) by (destruct cs; [by left|by right]).
  destruct Hcases as [->|Hne].
  { split; [intros (c & Hc & _); by apply elem_of_nil in Hc|done]. }
  destruct (selectProvider_run cs (mkTimed r k) Hne)
    as (avs & fls & k' & Hrun & Hk' & Hav & Hfl & Hall).
  cbn [obj ticks] in *. fold now in Hrun, Hav, Hfl.
  assert (Hjudge : ∀ c j, c ∈ cs → (S k ≤ j < S k + length cs)%nat →
            failedAt (clock j) (pruned now r) (provider c) = failedAt now r (provider c)).
  { intros c j Hc Hj. rewrite failedAt_pruned, (Hstable c j) by (done || lia).
    fold now. by destruct (failedAt now r (provider c)). }
  assert (Hav' : ∀ c, c ∈ avs → c ∈ cs ∧ failedAt now r (provider c) = false).
  { intros c Hc. destruct (Hav c Hc) as (Hin & j & Hj & Hjf). split; [done|].
    by rewrite Hjudge in Hjf. }
  assert (Hfl' : ∀ c, c ∈ fls → c ∈ cs ∧ failedAt now r (provider c) = true).
  { intros c Hc. destruct (Hfl c Hc) as (Hin & j & Hj & Hjf). split; [done|].
    by rewrite Hjudge in Hjf. }
  subst res. rewrite Hrun. cbn [fst].
  split.
  - intros (c & Hc & Hcf).
    assert (Hcav : c ∈ avs).
    { destruct (Hall c Hc) as [|Hcfl]; [done|].
      apply Hfl' in Hcfl as [_ Hcfl]. congruence. }
    assert (Hne' : avs ≠ []) by (intros ->; by apply elem_of_nil in Hcav).
    destruct (head_sortByPriority avs Hne') as (a & Ha & Hain & Hmin).
    exists a. destruct (sortByPriority avs) as [|a0 s]; [done|].
    cbn in Ha. injection Ha as ->.
    split; [done|]. destruct (Hav' a Hain) as [Hacs Haf].
    split; [done|]. split; [done|].
    intros c' Hc' Hc'f. apply Hmin.
    destruct (Hall c' Hc') as [|Hc'fl]; [done|].
    apply Hfl' in Hc'fl as [_ Hc'fl]. congruence.
  - intros _ Hallf.
    assert (Havs : avs = []).
    { destruct avs as [|a avs]; [done|].
      destruct (Hav' a) as [Hin Hf]; [by left|].
      rewrite (Hallf a Hin) in Hf. discriminate. }
    subst avs. cbn [sortByPriority].
    assert (Hne' : fls ≠ []).
    { destruct cs as [|c0 cs]; [done|].
      destruct (Hall c0) as [Hc0|Hc0]; [by left|by apply elem_of_nil in Hc0|].
      intros ->. by apply elem_of_nil in Hc0. }
    destruct (head_sortByPriority fls Hne') as (f & Hf & Hfin & Hmin).
    exists f. split; [done|]. destruct (Hfl' f Hfin) as [Hfcs Hff].
    split; [done|]. split; [done|].
    intros c Hc. apply Hmin.
    destruct (Hall c Hc) as [Hca|]; [by apply elem_of_nil in Hca|done].
Qed.

Lemma resolveModelAlias_run m w :
  resolveModelAlias m w = (resolved (obj w) m, w).
Proof.
  unfold resolveModelAlias, resolved. run_m.
  destruct (modelAliases (obj w) !! m); [done|].
  by destruct (splitAtSlash m) as [[? ?]|].
Qed.

Lemma markFailed_run p w :
  markFailed clock p w =
  (tt, mkTimed (marked (clock (ticks w)) p (obj w)) (S (ticks w))).
Proof. done. Qed.

Lemma failedAt_marked_ne now t p q r :
  q ≠ p → failedAt now (marked t p r) q = failedAt now r q.
Proof.
  intros Hne. unfold failedAt, marked; cbn.
  by rewrite lookup_insert_ne.
Qed.

(** A provider marked at [t] is failed at every [now] within the TTL of
    [t], also after an eviction done within the TTL. *)
Lemma failedAt_pruned_marked now now' t p r :
  now - t <= failureTTL r → now' - t <= failureTTL r →
  failedAt now' (pruned now (marked t p r)) p = true.
Proof.
  intros H1 H2. unfold failedAt. rewrite pruned_lookup.
  unfold marked at 1; cbn. rewrite lookup_insert_eq.
  rewrite bool_decide_true by done. cbn. by rewrite bool_decide_true.
Qed.

Lemma getNextProvider_run m p w :
  getNextProvider clock m p w =
  let w1 := mkTimed (marked (clock (ticks w)) p (obj w)) (S (ticks w)) in
  match resolved (obj w) m with
  | Throw e => (Throw e, w1)
  | Return cs => let (sel, w2) := selectProvider clock cs w1 in (Return sel, w2)
  end.
Proof.
  unfold getNextProvider, bind. rewrite markFailed_run, resolveModelAlias_run.
  cbn [obj]. change (resolved (marked _ p (obj w)) m) with (resolved (obj w) m).
  by destruct (resolved (obj w) m).
Qed.

(** The state [getNextProvider] leaves behind: [failedProvider] is in the
    failure map with the time of the call, whatever the alias was. *)
Lemma getNextProvider_state m p r k :
  clock (S k) - clock k <= failureTTL r →
  let w1 := (getNextProvider clock m p (mkTimed r k)).2 in
  failedProviders (obj w1) !! p = Some (clock k)
  ∧ failureTTL (obj w1) = failureTTL r
  ∧ modelAliases (obj w1) = modelAliases r
  ∧ (k < ticks w1)%nat.
Proof.
  intros Httl. rewrite getNextProvider_run. cbn [obj ticks].
  destruct (resolved r m) as [cs|e] eqn:Hres; cbn.
  - destruct cs as [|c0 cs].
    + cbn. rewrite lookup_insert_eq. repeat split; lia.
    + destruct (selectProvider_run (c0 :: cs)
                  (mkTimed (marked (clock k) p r) (S k)))
        as (avs & fls & k' & Hrun & Hk' & _); [done|].
      cbn [obj ticks] in *.
      rewrite Hrun. cbn [snd obj ticks].
      rewrite pruned_lookup. cbn. rewrite lookup_insert_eq.
      rewrite bool_decide_true by done. repeat split; lia.
  - rewrite lookup_insert_eq. repeat split; lia.
Qed.

(** C3, amended.  [getNextProvider(m, p)], when the readings of the call
    stay within the TTL of the reading at which [p] is marked: if some
    candidate of another provider than [p] is not failed at any of them,
    the result is a candidate of another provider than [p]; if every
    candidate of another provider is failed at all of them (or there is
    none), the result is the fallback of [selectProvider], a candidate of
    the lowest priority of the whole list, which is a candidate of [p]
    when the candidates of [p] come before the others; on an empty list
    it is [null]. *)
Theorem getNextProvider_other_provider (r : Router.t) (k : nat) (m p : string)
    (cs : list ProviderModel) :
  resolved r m = Return cs →
  (∀ j, (k < j ≤ k + 1 + length cs)%nat → clock j - clock k <= failureTTL r) →
  let res := (getNextProvider clock m p (mkTimed r k)).1 in
  ((∃ c, c ∈ cs ∧ provider c ≠ p
         ∧ ∀ j, (k < j ≤ k + 1 + length cs)%nat →
                failedAt (clock j) r (provider c) = false) →
   ∃ a, res = Return (Some a) ∧ a ∈ cs ∧ provider a ≠ p)
  ∧ (cs ≠ [] →
     (∀ c j, c ∈ cs → provider c ≠ p → (k < j ≤ k + 1 + length cs)%nat →
             failedAt (clock j) r (provider c) = true) →
     ∃ f, res = Return (Some f) ∧ f ∈ cs
          ∧ (∀ c, c ∈ cs → priority f <= priority c)
          ∧ ((∃ c0, c0 ∈ cs ∧ provider c0 = p
                    ∧ ∀ c, c ∈ cs → provider c ≠ p → priority c0 < priority c) →
             provider f = p))
  ∧ (cs = [] → res = Return None).
Proof.
  intros Hres Httl res. subst res.
  rewrite getNextProvider_run. cbn [obj ticks]. rewrite Hres.
  split; [|split].
  - intros (c & Hc & Hcp & Hcf).
    assert (Hne : cs ≠ []) by (intros ->; by apply elem_of_nil in Hc).
    destruct (selectProvider_run cs (mkTimed (marked (clock k) p r) (S k)) Hne)
      as (avs & fls & k' & Hrun & Hk' & Hav & Hfl & Hall).
    cbn [obj ticks] in *. rewrite Hrun. cbn [fst].
    assert (Hcav : c ∈ avs).
    { destruct (Hall c Hc) as [|Hcfl]; [done|].
      destruct (Hfl c Hcfl) as (_ & j & Hj & Hjf).
      apply failedAt_pruned_true in Hjf.
      rewrite failedAt_marked_ne in Hjf by done.
      rewrite Hcf in Hjf by lia. discriminate. }
    assert (Hne' : avs ≠ []) by (intros ->; by apply elem_of_nil in Hcav).
    destruct (head_sortByPriority avs Hne') as (a & Ha & Hain & _).
    exists a. destruct (sortByPriority avs) as [|a0 s0]; [done|].
    cbn in Ha. injection Ha as ->.
    split; [done|]. destruct (Hav a Hain) as (Hacs & j & Hj & Hjf).
    split; [done|]. intros Hap. rewrite Hap in Hjf.
    rewrite failedAt_pruned_marked in Hjf; [discriminate| |].
    + apply (Httl (S k)). lia.
    + apply Httl. lia.
  - intros Hne Hothers.
    destruct (selectProvider_run cs (mkTimed (marked (clock k) p r) (S k)) Hne)
      as (avs & fls & k' & Hrun & Hk' & Hav & Hfl & Hall).
    cbn [obj ticks] in *. rewrite Hrun. cbn [fst].
    assert (Havs : avs = []).
    { destruct avs as [|x avs]; [done|]. exfalso.
      destruct (Hav x) as (Hx & j & Hj & Hjf); [by left|].
      destruct (decide (provider x = p)) as [Hxp|Hxp].
      - rewrite Hxp in Hjf. rewrite failedAt_pruned_marked in Hjf; [discriminate| |].
        + apply (Httl (S k)). lia.
        + apply Httl. lia.
      - rewrite failedAt_pruned, !failedAt_marked_ne in Hjf by done.
        rewrite !Hothers in Hjf by (done || lia). discriminate. }
    subst avs. cbn [sortByPriority].
    assert (Hne' : fls ≠ []).
    { destruct cs as [|c0 cs]; [done|].
      destruct (Hall c0) as [Hc0|Hc0]; [by left|by apply elem_of_nil in Hc0|].
      intros ->. by apply elem_of_nil in Hc0. }
    destruct (head_sortByPriority fls Hne') as (f & Hf & Hfin & Hmin).
    exists f. rewrite Hf. split; [done|].
    destruct (Hfl f Hfin) as [Hfcs _]. split; [done|].
    assert (Hlow : ∀ c, c ∈ cs → priority f <= priority c).
    { intros c Hc. apply Hmin.
      destruct (Hall c Hc) as [Hca|]; [by apply elem_of_nil in Hca|done]. }
    split; [done|].
    intros (c0 & Hc0 & Hc0p & Hc0low).
    destruct (decide (provider f = p)) as [|Hfp]; [done|].
    specialize (Hc0low f Hfcs Hfp). specialize (Hlow c0 Hc0). lia.
  - intros ->. done.
Qed.

(** C10.  The failure memory is keyed by the provider alone.  After
    [getNextProvider(m, p)], whatever the alias [m] was, and for every
    alias [m2] with candidates [cs]: while the readings stay within the TTL
    of the mark, [isProviderFailed(p)] is true, and [selectProvider(cs)],
    which returns a candidate whenever [cs] is not empty, treats the
    candidates of [p] as failed: as soon as some candidate of [cs] is not
    failed it returns a candidate of another provider than [p], whatever
    the priorities, and it returns a candidate of [p] only as the fallback
    taken when every candidate of [cs] is in the failure map. *)
Theorem failure_memory_keyed_by_provider (r : Router.t) (k k2 : nat)
    (m m2 p : string) (cs : list ProviderModel) :
  let w1 := (getNextProvider clock m p (mkTimed r k)).2 in
  resolved (obj w1) m2 = Return cs →
  (ticks w1 ≤ k2)%nat →
  (∀ j, (k < j ≤ k2 + length cs)%nat → clock j - clock k <= failureTTL r) →
  let run := selectProvider clock cs (mkTimed (obj w1) k2) in
  (isProviderFailed clock p (mkTimed (obj w1) k2)).1 = true
  ∧ (cs ≠ [] → ∃ a, run.1 = Some a ∧ a ∈ cs)
  ∧ ((∃ c, c ∈ cs ∧ ∀ j, (k2 < j ≤ k2 + length cs)%nat →
                         failedAt (clock j) (obj w1) (provider c) = false) →
     ∃ a, run.1 = Some a ∧ a ∈ cs ∧ provider a ≠ p)
  ∧ (∀ a, run.1 = Some a → provider a = p →
     ∀ c, c ∈ cs → is_Some (failedProviders (obj run.2) !! provider c)).
Proof.
  intros w1 Hres Hk2 Httl run.
  destruct (getNextProvider_state m p r k) as (Hp & Httl1 & _ & Hk).
  { apply (Httl (S k)). fold w1 in Hk2.
    assert (k < ticks w1)%nat; [|lia].
    subst w1. rewrite getNextProvider_run. cbn [obj ticks].
    destruct (resolved r m) as [cs0|e]; [|cbn; lia].
    destruct cs0 as [|c0 cs0]; [cbn; lia|].
    destruct (selectProvider_run (c0 :: cs0)
                (mkTimed (marked (clock k) p r) (S k)))
      as (avs & fls & k' & Hrun & Hk' & _); [done|].
    cbn [obj ticks] in *. rewrite Hrun. cbn. lia. }
  fold w1 in Hp, Httl1, Hk.
  split.
  { unfold isProviderFailed. run_m. rewrite Hp. cbn.
    rewrite Httl1. apply bool_decide_true. apply Httl. lia. }
  assert (Hcases : cs = [] ∨ cs ≠ []) by (destruct cs; [by left|by right]).
  destruct Hcases as [->|Hne].
  { split; [intros Hne; by destruct Hne|]. split.
    - intros (c & Hc & _). by apply elem_of_nil in Hc.
    - intros a _ _ c Hc. by apply elem_of_nil in Hc. }
  destruct (selectProvider_run cs (mkTimed (obj w1) k2) Hne)
    as (avs & fls & k' & Hrun & Hk' & Hav & Hfl & Hall).
  cbn [obj ticks] in *. subst run. rewrite Hrun. cbn [fst snd obj].
  assert (Hpf : ∀ j, (k2 < j ≤ k2 + length cs)%nat →
            failedAt (clock j) (pruned (clock k2) (obj w1)) p = true).
  { intros j Hj. unfold failedAt.
    rewrite pruned_lookup, failureTTL_pruned, Hp, Httl1.
    rewrite bool_decide_true by (apply Httl; lia). cbn.
    apply bool_decide_true. apply Httl. lia. }
  assert (Hhead : ∀ a, match sortByPriority avs with
                       | a0 :: _ => Some a0
                       | [] => head (sortByPriority fls)
                       end = Some a →
                  (a ∈ avs ∨ (avs = [] ∧ a ∈ fls))).
  { intros a Ha. destruct avs as [|x avs].
    - right. split; [done|]. cbn in Ha.
      apply elem_of_sortByPriority. destruct (sortByPriority fls); [done|].
      cbn in Ha. injection Ha as ->. by left.
    - left. destruct (head_sortByPriority (x :: avs)) as (a0 & Ha0 & Hin0 & _); [done|].
      destruct (sortByPriority (x :: avs)) as [|a1 s1]; [done|].
      cbn in Ha0. injection Ha0 as ->. by injection Ha as <-. }
  split; [|split].
  - intros _.
    assert (Hex : ∃ a, match sortByPriority avs with
                       | a0 :: _ => Some a0
                       | [] => head (sortByPriority fls)
                       end = Some a).
    { destruct avs as [|x avs].
      - assert (Hne' : fls ≠ []).
        { destruct cs as [|c0 cs]; [done|].
          destruct (Hall c0) as [Hc0|Hc0]; [by left|by apply elem_of_nil in Hc0|].
          intros ->. by apply elem_of_nil in Hc0. }
        destruct (head_sortByPriority fls Hne') as (f & Hf & _). by exists f.
      - destruct (head_sortByPriority (x :: avs)) as (a & Ha & _); [done|].
        exists a. by destruct (sortByPriority (x :: avs)). }
    destruct Hex as (a & Ha). exists a. split; [done|].
    destruct (Hhead a Ha) as [Hin|[_ Hin]]; [by apply Hav|by apply Hfl].
  - intros (c & Hc & Hcf).
    assert (Hcav : c ∈ avs).
    { destruct (Hall c Hc) as [|Hcfl]; [done|].
      destruct (Hfl c Hcfl) as (_ & j & Hj & Hjf).
      apply failedAt_pruned_true in Hjf. rewrite Hcf in Hjf by lia. discriminate. }
    assert (Hne' : avs ≠ []) by (intros ->; by apply elem_of_nil in Hcav).
    destruct (head_sortByPriority avs Hne') as (a & Ha & Hain & _).
    exists a. destruct (sortByPriority avs) as [|a0 s0]; [done|].
    cbn in Ha. injection Ha as ->.
    split; [done|]. destruct (Hav a Hain) as (Hacs & j & Hj & Hjf).
    split; [done|]. intros Hap. rewrite Hap, Hpf in Hjf by lia. discriminate.
  - intros a Ha Hap c Hc.
    destruct (Hhead a Ha) as [Hin|[-> Hin]].
    + destruct (Hav a Hin) as (_ & j & Hj & Hjf).
      rewrite Hap, Hpf in Hjf by lia. discriminate.
    + destruct (Hall c Hc) as [Hca|Hcf]; [by apply elem_of_nil in Hca|].
      destruct (Hfl c Hcf) as (_ & j & Hj & Hjf).
      unfold failedAt in Hjf.
      destruct (failedProviders (pruned (clock k2) (obj w1)) !! provider c);
        [by eexists|discriminate].
Qed.

End WithClock.
End RouterFacts.

(** *** Concrete routers: the configuration of the router tests *)

Module RouterExamples.
Import Router RouterSpec RouterFacts.

Example resolve_best_model :
  resolved fresh "best-model" = Return bestModel.
Proof. vm_compute. reflexivity. Qed.

Example select_skips_failed :
  (selectProvider clock0 bestModel (mkTimed openaiDown 1)).1
  = Some (mkProviderModel "gemini" "gemini-pro" 2).
Proof. vm_compute. reflexivity. Qed.

Example next_after_openai :
  (getNextProvider clock0 "best-model" "openai" (mkTimed fresh 0)).1
  = Return (Some (mkProviderModel "gemini" "gemini-pro" 2)).
Proof. vm_compute. reflexivity. Qed.

Example next_when_all_failed :
  (getNextProvider clock0 "best-model" "openai" (mkTimed geminiDown 1)).1
  = Return (Some (mkProviderModel "openai" "gpt-4" 1)).
Proof. vm_compute. reflexivity. Qed.

(** C3 as stated fails: with [gemini] already failed,
    [getNextProvider('best-model', 'openai')] falls back to the
    lowest-priority failed candidate, which is [openai] itself. *)
Lemma no_repeat_on_failure_fails : ¬ no_repeat_on_failure_as_stated.
Proof.
  intros H.
  destruct (H clock0 geminiDown 1%nat "best-model" "openai"
              (mkModelAlias "best-model" bestModel))
    as (a & Ha & Hne).
  - vm_compute. reflexivity.
  - cbn. lia.
  - cbn. apply elem_of_cons. by left.
  - intros j _. vm_compute. discriminate.
  - rewrite next_when_all_failed in Ha. injection Ha as <-. by apply Hne.
Qed.

Example gemini_available :
  ∃ c, c ∈ bestModel ∧ provider c ≠ "openai"
       ∧ ∀ j, (0 < j ≤ 0 + 1 + length bestModel)%nat →
              failedAt (clock0 j) fresh (provider c) = false.
Proof.
  exists (mkProviderModel "gemini" "gemini-pro" 2).
  split; [apply elem_of_cons; right; apply elem_of_cons; by left|].
  split; [discriminate|]. intros j _. vm_compute. reflexivity.
Qed.

Example others_failed :
  ∀ c j, c ∈ bestModel → provider c ≠ "openai" →
         (1 < j ≤ 1 + 1 + length bestModel)%nat →
         failedAt (clock0 j) geminiDown (provider c) = true.
Proof.
  intros c j Hc Hcp _.
  apply elem_of_cons in Hc as [->|Hc]; [done|].
  apply list_elem_of_singleton in Hc as ->. vm_compute. reflexivity.
Qed.

Example openai_is_lowest :
  ∃ c0, c0 ∈ bestModel ∧ provider c0 = "openai"
        ∧ ∀ c, c ∈ bestModel → provider c ≠ "openai" → priority c0 < priority c.
Proof.
  exists (mkProviderModel "openai" "gpt-4" 1).
  split; [by left|]. split; [reflexivity|].
  intros c Hc Hcp. apply elem_of_cons in Hc as [->|Hc]; [done|].
  apply list_elem_of_singleton in Hc as ->. cbn. lia.
Qed.

Lemma getNextProvider_other_provider_witness :
  (∃ a, (getNextProvider clock0 "best-model" "openai" (mkTimed fresh 0)).1
          = Return (Some a)
        ∧ a ∈ bestModel ∧ provider a ≠ "openai")
  ∧ (∃ f, (getNextProvider clock0 "best-model" "openai" (mkTimed geminiDown 1)).1
            = Return (Some f)
          ∧ f ∈ bestModel ∧ provider f = "openai").
Proof.
  split.
  - destruct (getNextProvider_other_provider clock0 fresh 0 "best-model" "openai"
                bestModel) as [H _].
    + vm_compute. reflexivity.
    + intros j _. vm_compute. discriminate.
    + exact (H gemini_available).
  - destruct (getNextProvider_other_provider clock0 geminiDown 1 "best-model" "openai"
                bestModel) as (_ & H & _).
    + vm_compute. reflexivity.
    + intros j _. vm_compute. discriminate.
    + destruct H as (f & Hf & Hin & _ & Hp).
      * discriminate.
      * exact others_failed.
      * exists f. split; [exact Hf|]. split; [exact Hin|]. exact (Hp openai_is_lowest).
Defined.

Example select_at_the_ttl :
  selectProvider clockTick bestModel (mkTimed openaiAtZero 0)
  = (Some (mkProviderModel "openai" "gpt-4" 1), mkTimed openaiAtZero 2).
Proof. vm_compute. reflexivity. Qed.

(** C4 as stated fails: a failure of [openai] is 60000 ms old when the
    failure map is pruned and 60001 ms old when the candidate is checked,
    so [openai] is returned while its entry is still in the pruned map and
    [gemini] is not in it. *)
Lemma availability_preference_fails : ¬ availability_as_stated.
Proof.
  intros H.
  specialize (H clockTick openaiAtZero 0%nat bestModel).
  cbv zeta in H. rewrite select_at_the_ttl in H. cbn [fst snd obj] in H.
  destruct H as (a & Ha & _ & Hmap).
  - exists (mkProviderModel "gemini" "gemini-pro" 2).
    split; [apply elem_of_cons; right; apply elem_of_cons; by left|].
    vm_compute. reflexivity.
  - injection Ha as <-. vm_compute in Hmap. discriminate.
Qed.

Lemma selectProvider_prefers_available_witness :
  let res := (selectProvider clock0 bestModel (mkTimed openaiDown 1)).1 in
  (bestModel = [] → res = None)
  ∧ ((∃ c, c ∈ bestModel ∧ failedAt 1000 openaiDown (provider c) = false) →
     ∃ a, res = Some a ∧ a ∈ bestModel ∧ failedAt 1000 openaiDown (provider a) = false
          ∧ ∀ c, c ∈ bestModel → failedAt 1000 openaiDown (provider c) = false →
                 priority a <= priority c)
  ∧ (bestModel ≠ [] → (∀ c, c ∈ bestModel → failedAt 1000 openaiDown (provider c) = true) →
     ∃ f, res = Some f ∧ f ∈ bestModel ∧ failedAt 1000 openaiDown (provider f) = true
          ∧ ∀ c, c ∈ bestModel → priority f <= priority c).
Proof.
  apply (selectProvider_prefers_available clock0 openaiDown 1 bestModel).
  intros c j _ _. reflexivity.
Defined.

Example gemini_still_available :
  ∃ c, c ∈ bestModel
       ∧ ∀ j, (5 < j ≤ 5 + length bestModel)%nat →
              failedAt (clock0 j)
                (obj (getNextProvider clock0 "fast-model" "openai" (mkTimed fresh 0)).2)
                (provider c) = false.
Proof.
  exists (mkProviderModel "gemini" "gemini-pro" 2).
  split; [apply elem_of_cons; right; apply elem_of_cons; by left|].
  intros j _. vm_compute. reflexivity.
Qed.

Lemma failure_memory_keyed_by_provider_witness :
  let w1 := (getNextProvider clock0 "fast-model" "openai" (mkTimed fresh 0)).2 in
  (isProviderFailed clock0 "openai" (mkTimed (obj w1) 5)).1 = true
  ∧ ∃ a, (selectProvider clock0 bestModel (mkTimed (obj w1) 5)).1 = Some a
         ∧ a ∈ bestModel ∧ provider a ≠ "openai".
Proof.
  destruct (failure_memory_keyed_by_provider clock0 fresh 0 5 "fast-model"
              "best-model" "openai" bestModel) as (H1 & _ & H2 & _).
  - vm_compute. reflexivity.
  - vm_compute. lia.
  - intros j _. vm_compute. discriminate.
  - split; [exact H1|]. exact (H2 gemini_still_available).
Defined.

End RouterExamples.

(** ** Rate limiter *)

Module RateLimiterFacts.
Import RateLimiter RateLimiterSpec.

Lemma setTimestamps_id p ts r :
  requestTimestamps r !! p = Some ts → setTimestamps p ts r = r.
Proof.
  intros H. destruct r. unfold setTimestamps; cbn in *. by rewrite insert_id.
Qed.

Lemma setQueue_id p q r :
  queues r !! p = Some q → setQueue p q r = r.
Proof.
  intros H. destruct r. unfold setQueue; cbn in *. by rewrite insert_id.
Qed.

Lemma cleaned_live now ts :
  (∀ x, x ∈ ts → x > now - 60000) → cleaned now ts = ts.
Proof.
  unfold cleaned. destruct ts as [|x ts]; [done|].
  intros H. cbn. rewrite bool_decide_true; [done|]. apply H. by left.
Qed.

Lemma young_all now ts :
  (∀ x, x ∈ ts → x > now - 60000) → young now ts = ts.
Proof.
  unfold young. induction ts as [|x ts IH]; intros H; [done|].
  rewrite filter_cons, decide_True by (apply H; by left).
  f_equal. apply IH. intros y Hy. apply H. by right.
Qed.

(** On timestamps in ascending order, the cleaning keeps exactly the
    ones younger than 60 s. *)
Lemma cleaned_sorted now ts :
  StronglySorted Z.le ts → cleaned now ts = young now ts.
Proof.
  unfold cleaned. induction 1 as [|x ts Hs IH Hx]; [done|].
  cbn [findIndex]. case_bool_decide as Hy.
  - rewrite drop_0. symmetry. apply young_all. intros y Hin.
    apply elem_of_cons in Hin as [->|Hin]; [done|].
    rewrite Forall_forall in Hx. specialize (Hx y Hin). lia.
  - unfold young. rewrite filter_cons, decide_False by done.
    fold (young now ts). rewrite <- IH.
    by destruct (findIndex _ ts).
Qed.

Lemma window_sorted now r p :
  StronglySorted Z.le (stored r p) → window now r p = young now (stored r p).
Proof.
  unfold window, stored. destruct (requestTimestamps r !! p) as [ts|]; cbn; [|done].
  apply cleaned_sorted.
Qed.

Lemma young_sorted now ts :
  StronglySorted Z.le ts → StronglySorted Z.le (young now ts).
Proof.
  unfold young. induction 1 as [|x ts Hs IH Hx]; [constructor|].
  rewrite filter_cons. destruct (decide (x > now - 60000)); [|done].
  constructor; [done|]. rewrite Forall_forall in Hx |- *.
  intros y Hy. apply list_elem_of_filter in Hy as [_ Hy]. by apply Hx.
Qed.

(** The head of the young timestamps of an ascending list is the oldest
    of them. *)
Lemma head_young_oldest now ts oldest :
  StronglySorted Z.le ts →
  oldest ∈ young now ts → (∀ x, x ∈ young now ts → oldest <= x) →
  head (young now ts) = Some oldest.
Proof.
  intros Hs Hin Hmin. apply (young_sorted now) in Hs.
  destruct (young now ts) as [|h l]; [by apply elem_of_nil in Hin|].
  cbn. f_equal. apply StronglySorted_cons in Hs as [Hh _].
  rewrite Forall_forall in Hh.
  assert (oldest <= h) by (apply Hmin; by left).
  apply elem_of_cons in Hin as [->|Hin]; [done|].
  specialize (Hh oldest Hin). lia.
Qed.

Section WithClock.
Variable clock : nat -> Z.

Lemma cleanWindow_run p w :
  cleanWindow clock p w =
  (tt, match requestTimestamps (obj w) !! p with
       | None => w
       | Some ts =>
           mkTimed (setTimestamps p (cleaned (clock (ticks w)) ts) (obj w))
                   (S (ticks w))
       end).
Proof.
  unfold cleanWindow, cleaned. run_m. destruct w as [r k]; cbn.
  destruct (requestTimestamps r !! p) as [ts|] eqn:E; [|done].
  destruct (findIndex _ ts) as [[|i]|]; cbn; try done.
  by rewrite setTimestamps_id.
Qed.

(** [acquire] on a provider without a rate-limit configuration. *)
Lemma acquire_unconfigured p w :
  configs (obj w) !! p = None → acquire clock p w = (Fulfilled, w).
Proof. intros H. unfold acquire. run_m. by rewrite H. Qed.

(** [acquire] on a configured provider, in closed form. *)
Lemma acquire_run p config r k :
  configs r !! p = Some config →
  acquire clock p (mkTimed r k) =
  let ts := window (clock k) r p in
  let q := waiting r p in
  let r3 := prepared (clock k) p r in
  let k1 := cleanTicks r p k in
  if bool_decide (Z.of_nat (length ts) < requestsPerMinute config) then
    (Fulfilled, mkTimed (setTimestamps p (ts ++ [clock k1]) r3) (S k1))
  else if bool_decide (Z.of_nat (length q) < maxQueueSize config) then
    (Pending (promises r),
     mkTimed (startedTimer p (setQueue p (q ++ [mkQueued (promises r) (clock k1)])
                                (newPromise r3))) (S k1))
  else
    (Rejected (JsError ("Rate limit exceeded: queue full for provider " +:+ p)),
     mkTimed r3 k1).
Proof.
  intros Hc. unfold acquire. unfold bind, getR, ret. cbv beta. cbn [obj fst snd].
  rewrite Hc. rewrite cleanWindow_run. cbn [obj ticks].
  unfold window, waiting, prepared, cleanTicks, window, waiting, startedTimer.
  destruct r as [cf rts qs tm pr st]. cbn in Hc |- *.
  destruct (rts !! p) as [ts|] eqn:Ets;
  destruct (qs !! p) as [q|] eqn:Eq; cbn;
  rewrite ?lookup_insert_eq, ?Ets, ?Eq; cbn;
  rewrite ?lookup_insert_eq, ?Ets, ?Eq; cbn;
  repeat case_bool_decide; try reflexivity; try lia; try done.
  all: unfold setTimestamps, setQueue, setTimers, newPromise; cbn;
    rewrite ?insert_insert_eq, ?(insert_id qs p q) by done; try reflexivity.
Qed.


(** [acquire] when the window has room: the promise is fulfilled and the
    reading taken after the cleaning joins the window. *)
Lemma acquire_admitted p config r k :
  configs r !! p = Some config →
  Z.of_nat (length (window (clock k) r p)) < requestsPerMinute config →
  acquire clock p (mkTimed r k) =
  (Fulfilled,
   mkTimed (setTimestamps p (window (clock k) r p ++ [clock (cleanTicks r p k)])
              (prepared (clock k) p r))
           (S (cleanTicks r p k))).
Proof.
  intros Hc Hw. rewrite (acquire_run p config) by done. cbv zeta.
  by rewrite bool_decide_true by lia.
Qed.

(** [getStatus] on a configured provider, in closed form. *)
Lemma getStatus_run p config r k :
  configs r !! p = Some config →
  getStatus clock p (mkTimed r k) =
  let ts := window (clock k) r p in
  (mkRateLimitStatus
     (Z.of_nat (length ts))
     (Z.of_nat (length (waiting r p)))
     (if bool_decide (Z.of_nat (length ts) >= requestsPerMinute config)
         && bool_decide (Z.of_nat (length ts) > 0)
      then default 0 (head ts) + 60000 else 0),
   mkTimed (match requestTimestamps r !! p with
            | Some _ => setTimestamps p ts r
            | None => r
            end) (cleanTicks r p k)).
Proof.
  intros Hc. unfold getStatus. unfold bind, getR, ret. cbv beta. cbn [obj fst snd].
  rewrite Hc. rewrite cleanWindow_run. cbn [obj ticks].
  unfold window, waiting, cleanTicks.
  destruct (requestTimestamps r !! p) as [ts|] eqn:Ets; cbn.
  - by rewrite lookup_insert_eq.
  - by rewrite Ets.
Qed.

Lemma window_live now r p :
  (∀ x, x ∈ stored r p → x > now - 60000) → window now r p = stored r p.
Proof.
  unfold window, stored. destruct (requestTimestamps r !! p) as [ts|]; [|done].
  cbn. apply cleaned_live.
Qed.

Lemma acquireN_admitted p config (k0 K : nat) :
  (∀ i j, (k0 ≤ i ≤ j ≤ K)%nat → clock j - clock i < 60000) →
  ∀ n w,
  configs (obj w) !! p = Some config →
  Z.of_nat (length (stored (obj w) p) + n) <= requestsPerMinute config →
  (∀ x, x ∈ stored (obj w) p → ∃ a, (k0 ≤ a < ticks w)%nat ∧ x = clock a) →
  (k0 ≤ ticks w)%nat → (ticks w + 2 * n ≤ K + 1)%nat →
  ∃ news w',
    acquireN clock n p w = (replicate n Fulfilled, w')
    ∧ configs (obj w') = configs (obj w)
    ∧ stored (obj w') p = (stored (obj w) p ++ news)%list
    ∧ length news = n
    ∧ (∀ x, x ∈ news → ∃ a, (ticks w ≤ a < ticks w')%nat ∧ x = clock a)
    ∧ (ticks w ≤ ticks w' ≤ ticks w + 2 * n)%nat
    ∧ waiting (obj w') p = waiting (obj w) p
    ∧ ((0 < n)%nat → is_Some (requestTimestamps (obj w') !! p)
                     ∧ head news = Some (clock (cleanTicks (obj w) p (ticks w)))).
Proof.
  intros Hwin. induction n as [|n IH]; intros w Hc Hlen Hst Hk0 HK.
  - exists [], w. cbn. rewrite app_nil_r. repeat split; try done; try lia.
    intros x Hx. by apply elem_of_nil in Hx.
  - cbn [acquireN]. unfold bind at 1. destruct w as [r k]. cbn [obj ticks] in *.
    assert (Hlive : window (clock k) r p = stored r p).
    { apply window_live. intros x Hx. destruct (Hst x Hx) as (a & Ha & ->).
      specialize (Hwin a k). lia. }
    rewrite (acquire_admitted p config r k Hc) by (rewrite Hlive; lia).
    rewrite Hlive.
    set (k1 := cleanTicks r p k).
    assert (Hk1 : (k ≤ k1 ≤ S k)%nat).
    { unfold k1, cleanTicks. destruct (requestTimestamps r !! p); lia. }
    set (r1 := setTimestamps p (stored r p ++ [clock k1]) (prepared (clock k) p r)).
    assert (Hst1 : stored r1 p = (stored r p ++ [clock k1])%list).
    { unfold r1, stored; cbn. by rewrite lookup_insert_eq. }
    destruct (IH (mkTimed r1 (S k1))) as (news & w' & Hrun & Hcf & Hst' & Hln & Hnews & Hk' & Hwt & _).
    + done.
    + cbn [obj]. rewrite Hst1, length_app. cbn. lia.
    + cbn [obj ticks]. rewrite Hst1. intros x Hx.
      apply elem_of_app in Hx as [Hx|Hx].
      * destruct (Hst x Hx) as (a & Ha & ->). exists a. split; [lia|done].
      * apply list_elem_of_singleton in Hx as ->. exists k1. split; [lia|done].
    + cbn; lia.
    + cbn [ticks]; lia.
    + cbn [obj ticks] in *. unfold bind. rewrite Hrun.
      exists (clock k1 :: news), w'. cbn [replicate].
      split; [done|]. split; [done|].
      split; [rewrite Hst', Hst1, <- app_assoc; done|].
      split; [cbn; lia|].
      split.
      { intros x Hx. apply elem_of_cons in Hx as [->|Hx].
        - exists k1. split; [lia|done].
        - destruct (Hnews x Hx) as (a & Ha & ->). exists a. split; [lia|done]. }
      split; [lia|].
      split.
      { rewrite Hwt. unfold r1, waiting; cbn. rewrite lookup_insert_eq. done. }
      intros _. split; [|done]. rewrite Hst1 in Hst'. unfold stored at 1 in Hst'.
      destruct (requestTimestamps (obj w') !! p) eqn:E; [by eexists|].
      cbn in Hst'. destruct (stored r p); discriminate.
Qed.

(** What [getStatus] reports: the count of the cleaned window, and a next
    slot of 0 under capacity, of the oldest timestamp plus 60 s at capacity. *)
Lemma getStatus_slot p config r k :
  configs r !! p = Some config →
  let st := (getStatus clock p (mkTimed r k)).1 in
  let ts := window (clock k) r p in
  requestsInWindow st = Z.of_nat (length ts)
  ∧ queueLength st = Z.of_nat (length (waiting r p))
  ∧ (requestsInWindow st < requestsPerMinute config → nextAvailableSlot st = 0)
  ∧ (requestsInWindow st >= requestsPerMinute config →
     ∀ oldest, head ts = Some oldest → nextAvailableSlot st = oldest + 60000).
Proof.
  intros Hc. rewrite (getStatus_run p config) by done. cbn.
  split; [done|]. split; [done|]. split.
  - intros H. by rewrite bool_decide_false by lia.
  - intros H oldest Ho. rewrite Ho. cbn.
    rewrite bool_decide_true by lia.
    destruct (window (clock k) r p); [discriminate|]. cbn.
    by rewrite bool_decide_true by lia.
Qed.

(** C7, amended.  On a limiter where provider [p] has no window yet, [N]
    calls of [acquire(p)] with [N <= requestsPerMinute], all made within
    less than 60 s up to the [getStatus] that follows, are all admitted at
    once, and [getStatus(p)] then reports [requestsInWindow = N], the queue
    as it was, and [nextAvailableSlot] 0 under capacity and the time of the
    first admission plus 60000 at capacity.  In any state whose stored
    timestamps of [p] are in ascending order, [getStatus(p)] reports the
    number of the timestamps younger than 60 s, 0 as next slot while that
    number is under [requestsPerMinute], and the oldest of the timestamps
    younger than 60 s plus 60000 once it has reached it. *)
Theorem window_count_within_window (r : RateLimiter.t) (k : nat) (p : string)
    (config : RateLimitConfig) (N : nat) :
  configs r !! p = Some config →
  requestTimestamps r !! p = None →
  Z.of_nat N <= requestsPerMinute config →
  (∀ i j, (k ≤ i ≤ j ≤ k + 2 * N)%nat → clock j - clock i < 60000) →
  let run := acquireN clock N p (mkTimed r k) in
  let status := (getStatus clock p run.2).1 in
  (run.1 = replicate N Fulfilled
   ∧ requestsInWindow status = Z.of_nat N
   ∧ queueLength status = Z.of_nat (length (waiting r p))
   ∧ nextAvailableSlot status =
       if bool_decide (Z.of_nat N < requestsPerMinute config) || bool_decide (N = 0%nat)
       then 0 else clock k + 60000)
  ∧ ∀ r' k',
      configs r' !! p = Some config →
      StronglySorted Z.le (stored r' p) →
      let st := (getStatus clock p (mkTimed r' k')).1 in
      let inWindow := young (clock k') (stored r' p) in
      requestsInWindow st = Z.of_nat (length inWindow)
      ∧ (requestsInWindow st < requestsPerMinute config → nextAvailableSlot st = 0)
      ∧ (requestsInWindow st >= requestsPerMinute config →
         ∀ oldest, oldest ∈ inWindow → (∀ x, x ∈ inWindow → oldest <= x) →
                   nextAvailableSlot st = oldest + 60000).
Proof.
  intros Hc Hnone HN Hwin run status.
  split.
  2:{ intros r' k' Hc' Hs st inWindow.
      destruct (getStatus_slot p config r' k' Hc') as (H1 & _ & H2 & H3).
      rewrite (window_sorted _ _ _ Hs) in H1, H3. fold inWindow in H1, H3.
      split; [done|]. split; [done|].
      intros Hfull oldest Hin Hmin. apply (H3 Hfull).
      by apply head_young_oldest. }
  assert (Hst0 : stored r p = []) by (unfold stored; by rewrite Hnone).
  destruct (acquireN_admitted p config k (k + 2 * N) Hwin N (mkTimed r k))
    as (news & w' & Hrun & Hcf & Hst' & Hln & Hnews & Hk' & Hwt & Hpos).
  - done.
  - cbn [obj]. rewrite Hst0. cbn. lia.
  - cbn [obj]. rewrite Hst0. intros x Hx. by apply elem_of_nil in Hx.
  - cbn; lia.
  - cbn; lia.
  - cbn [obj ticks] in *. subst run status. rewrite Hrun. cbn [fst snd].
    split; [done|]. rewrite Hst0 in Hst'. cbn in Hst'.
    destruct w' as [r1 k1]. cbn [obj ticks] in *.
    assert (Hc1 : configs r1 !! p = Some config) by (by rewrite Hcf).
    assert (Hlive : window (clock k1) r1 p = news).
    { rewrite window_live; [done|]. rewrite Hst'. intros x Hx.
      destruct (Hnews x Hx) as (a & Ha & ->). specialize (Hwin a k1). lia. }
    rewrite (getStatus_run p config) by done. cbn. rewrite Hlive, Hwt, Hln.
    split; [done|]. split; [done|].
    destruct N as [|N].
    + rewrite (bool_decide_true (0%nat = 0%nat)) by done.
      rewrite orb_true_r. destruct news; [|discriminate]. cbn.
      by rewrite andb_false_r.
    + rewrite (bool_decide_false (S N = 0%nat)) by done. rewrite orb_false_r.
      destruct Hpos as [_ Hhead]; [lia|]. rewrite Hhead. cbn.
      unfold cleanTicks. rewrite Hnone.
      rewrite (bool_decide_true (Z.of_nat (S N) > 0)) by lia. rewrite andb_true_r.
      case_bool_decide; case_bool_decide; try lia; done.
Qed.

Lemma dispose_run w : dispose w = (tt, mkTimed (disposed (obj w)) (ticks w)).
Proof. done. Qed.

(** C5, amended.  [dispose] stops every release ticker (no interval fires
    any more) and calls [reject] with "Rate limiter disposed for provider
    p" for every waiter of every queue, leaving the queues empty; the
    configuration and the windows stay as they were and nothing records
    that the limiter was disposed, so a later [acquire] is admitted at once
    on a provider without configuration or with room in its window. *)
Theorem dispose_rejects_waiters (r : RateLimiter.t) (k : nat) :
  let w1 := (dispose (mkTimed r k)).2 in
  timers (obj w1) = ∅
  ∧ (∀ p, timerFires clock p w1 = (tt, w1))
  ∧ (∀ p q, queues r !! p = Some q →
       queues (obj w1) !! p = Some []
       ∧ ∀ item, item ∈ q →
           (waiter item, Reject (JsError ("Rate limiter disposed for provider " +:+ p)))
           ∈ settled (obj w1))
  ∧ configs (obj w1) = configs r
  ∧ requestTimestamps (obj w1) = requestTimestamps r
  ∧ (∀ p, configs r !! p = None → (acquire clock p w1).1 = Fulfilled)
  ∧ (∀ p config,
       configs r !! p = Some config →
       Z.of_nat (length (window (clock k) r p)) < requestsPerMinute config →
       (acquire clock p w1).1 = Fulfilled).
Proof.
  intros w1. subst w1. rewrite dispose_run. cbn [snd obj ticks].
  split; [done|]. split.
  { intros p. unfold timerFires. unfold bind, getR, ret. cbn.
    rewrite bool_decide_false; [done|]. apply not_elem_of_empty. }
  split.
  { intros p q Hq. split.
    - cbn. by rewrite lookup_fmap, Hq.
    - intros item Hitem. cbn. apply elem_of_app. right.
      apply list_elem_of_bind. exists (p, q). split.
      + cbn. unfold rejectAll. apply list_elem_of_fmap. by exists item.
      + by apply elem_of_map_to_list. }
  split; [done|]. split; [done|]. split.
  - intros p Hp. by rewrite acquire_unconfigured.
  - intros p config Hc Hw.
    rewrite (acquire_admitted p config); [done|done|done].
Qed.
End WithClock.
End RateLimiterFacts.

(** *** Concrete limiters: the configuration of the rate-limiter tests *)

Module RateLimiterExamples.
Import RateLimiter RateLimiterSpec RateLimiterFacts.

Example three_admitted :
  (acquireN clockJump 3 "openai" (mkTimed fresh 0)).1
  = [Fulfilled; Fulfilled; Fulfilled].
Proof. vm_compute. reflexivity. Qed.

Example window_slides :
  requestsInWindow
    (getStatus clockJump "openai" (acquireN clockJump 3 "openai" (mkTimed fresh 0)).2).1
  = 0.
Proof. vm_compute. reflexivity. Qed.

(** C7 as stated fails: three admitted calls, then 61 s pass, and
    [getStatus] counts 0 requests in the window. *)
Lemma window_count_fails : ¬ window_count_as_stated.
Proof.
  intros H.
  specialize (H clockJump testConfigs "openai" (mkRateLimitConfig "openai" 3 5)
                3%nat 0%nat).
  cbv zeta in H. fold fresh in H. rewrite window_slides in H.
  assert (0 = Z.of_nat 3); [|discriminate].
  apply H.
  - vm_compute. reflexivity.
  - cbn. lia.
  - vm_compute. reflexivity.
Qed.

Example three_stored :
  stored (obj (acquireN clock9s 3 "openai" (mkTimed fresh 0)).2) "openai"
  = [0; 18000; 36000].
Proof. vm_compute. reflexivity. Qed.

Lemma window_count_within_window_witness :
  let admitted := (acquireN clock9s 3 "openai" (mkTimed fresh 0)).2 in
  requestsInWindow (getStatus clock9s "openai" admitted).1 = 3
  ∧ requestsInWindow (getStatus clock9s "openai" (mkTimed (obj admitted) 8)).1 = 2.
Proof.
  destruct (window_count_within_window clock9s fresh 0 "openai"
              (mkRateLimitConfig "openai" 3 5) 3) as [(_ & H & _) Hany].
  - vm_compute. reflexivity.
  - vm_compute. reflexivity.
  - cbn. lia.
  - intros i j Hij. unfold clock9s. lia.
  - split; [exact H|].
    destruct (Hany (obj (acquireN clock9s 3 "openai" (mkTimed fresh 0)).2) 8%nat)
      as [Hcount _].
    + vm_compute. reflexivity.
    + rewrite three_stored. repeat constructor; lia.
    + rewrite Hcount, three_stored. vm_compute. reflexivity.
Defined.

(** C5 as stated fails: [acquire] on a disposed limiter is admitted. *)
Lemma acquire_after_dispose_succeeds : ¬ dispose_as_stated.
Proof.
  intros H. destruct (H clockMs fresh 0%nat) as (_ & _ & Hno).
  apply (Hno "openai" 0%nat). vm_compute. reflexivity.
Qed.

Example five_calls :
  (acquireN clockMs 5 "openai" (mkTimed fresh 0)).1
  = [Fulfilled; Fulfilled; Fulfilled; Pending 0; Pending 1].
Proof. vm_compute. reflexivity. Qed.

Example two_waiting :
  queues (obj (acquireN clockMs 5 "openai" (mkTimed fresh 0)).2) !! "openai"
  = Some [mkQueued 0 6; mkQueued 1 8].
Proof. vm_compute. reflexivity. Qed.

Example ticker_running :
  "openai" ∈ timers (obj (acquireN clockMs 5 "openai" (mkTimed fresh 0)).2).
Proof. vm_compute. reflexivity. Qed.

Lemma dispose_rejects_waiters_witness :
  let r := obj (acquireN clockMs 5 "openai" (mkTimed fresh 0)).2 in
  let w1 := (dispose (mkTimed r 9)).2 in
  "openai" ∈ timers r
  ∧ timers (obj w1) = ∅
  ∧ timerFires clockMs "openai" w1 = (tt, w1)
  ∧ queues (obj w1) !! "openai" = Some []
  ∧ (0%nat, Reject (JsError "Rate limiter disposed for provider openai"))
      ∈ settled (obj w1)
  ∧ (1%nat, Reject (JsError "Rate limiter disposed for provider openai"))
      ∈ settled (obj w1)
  ∧ (acquire clockMs "gemini" w1).1 = Fulfilled.
Proof.
  intros r. cbv zeta.
  destruct (dispose_rejects_waiters clockMs r 9) as (H1 & H2 & H3 & _ & _ & _ & H4).
  destruct (H3 "openai" _ two_waiting) as [Hq Hrej].
  split; [exact ticker_running|].
  split; [exact H1|]. split; [exact (H2 "openai")|]. split; [exact Hq|].
  split; [apply (Hrej (mkQueued 0 6)); by left|].
  split; [apply (Hrej (mkQueued 1 8)); right; by left|].
  apply (H4 "gemini" (mkRateLimitConfig "gemini" 2 3)).
  - vm_compute. reflexivity.
  - vm_compute. reflexivity.
Defined.

End RateLimiterExamples.

(** ** Provider error normalisation *)

Module BaseProviderFacts.
Import BaseProvider BaseProviderSpec.

(** C2, amended.  [normalizeError] maps the upstream status 401 and 403 to
    [auth], not retryable; 429 to [rate_limit], retryable; 500, 502 and
    503 to [service_unavailable], retryable; 400 to [invalid_request], not
    retryable; and every other status, other 5xx included, or no status
    at all, to [unknown], not retryable. *)
Theorem normalizeError_classification (name : string) (e : AxiosError) :
  let pe := normalizeError name e in
  let status := response_status e in
  pe_provider pe = name
  ∧ pe_statusCode pe = status
  ∧ (status = Some 401 ∨ status = Some 403 →
     pe_type pe = auth ∧ pe_retryable pe = false)
  ∧ (status = Some 429 → pe_type pe = rate_limit ∧ pe_retryable pe = true)
  ∧ (status = Some 500 ∨ status = Some 502 ∨ status = Some 503 →
     pe_type pe = service_unavailable ∧ pe_retryable pe = true)
  ∧ (status = Some 400 → pe_type pe = invalid_request ∧ pe_retryable pe = false)
  ∧ (status ≠ Some 401 → status ≠ Some 403 → status ≠ Some 429 →
     status ≠ Some 500 → status ≠ Some 502 → status ≠ Some 503 →
     status ≠ Some 400 →
     pe_type pe = unknown ∧ pe_retryable pe = false).
Proof.
  unfold normalizeError. cbv zeta.
  destruct e as [st dm m]; cbn [response_status].
  repeat case_bool_decide; cbn; subst;
    repeat split; try done; intros; simplify_eq; try done; intuition congruence.
Qed.

Example gateway_timeout_is_unknown :
  normalizeError "openai" (upstream 504 "Gateway Timeout")
  = mkProviderError "openai" (Some 504) "Gateway Timeout" unknown false.
Proof. reflexivity. Qed.

(** C2 as stated fails: a 504 is classified [unknown] and not retried. *)
Lemma classification_5xx_fails : ¬ classification_as_stated.
Proof.
  intros H. destruct (H "openai" "Gateway Timeout" 504) as (_ & _ & H5 & _).
  destruct H5 as [Ht _]; [lia|].
  rewrite gateway_timeout_is_unknown in Ht. discriminate.
Qed.

Lemma normalizeError_classification_witness :
  pe_type (normalizeError "openai" (upstream 503 "Service Unavailable"))
    = service_unavailable
  ∧ pe_retryable (normalizeError "openai" (upstream 503 "Service Unavailable")) = true.
Proof.
  destruct (normalizeError_classification "openai"
              (upstream 503 "Service Unavailable")) as (_ & _ & _ & _ & H & _).
  apply H. right. right. reflexivity.
Defined.

End BaseProviderFacts.

(** ** Request validation *)

Module ParseRequestFacts.
Import RequestHandler ParseRequestSpec.

Lemma isUndefined_false v : v ≠ JsUndefined → isUndefined v = false.
Proof. by destruct v. Qed.

Lemma checkMessage_None msg : checkMessage msg = None ↔ validMessage msg.
Proof.
  unfold checkMessage, validMessage. split.
  - destruct (negb (truthy msg) || negb (typeofObject msg)) eqn:E1; [done|].
    destruct (negb (truthy (getProp msg "role"))
              || negb (typeofString (getProp msg "role"))) eqn:E2; [done|].
    destruct (isUndefined (getProp msg "content")
              && negb (truthy (getProp msg "tool_calls"))
              && negb (truthy (getProp msg "function_call"))) eqn:E3; [done|].
    intros _. apply orb_false_elim in E2 as [E2a E2b].
    apply negb_false_iff in E2a, E2b.
    destruct (getProp msg "role") as [| | | |role| |] eqn:Er; try done.
    split.
    + destruct msg; try done. by eexists.
    + split.
      * exists role. split; [done|]. cbn in E2a.
        apply negb_true_iff, bool_decide_eq_false in E2a. done.
      * destruct (getProp msg "content") eqn:Ec;
          try (left; discriminate).
        cbn in E3. right.
        destruct (truthy (getProp msg "tool_calls")); [by left|].
        destruct (truthy (getProp msg "function_call")); [by right|done].
  - intros ([fields ->] & (role & Hr & Hne) & Hc).
    cbn [truthy typeofObject negb orb]. rewrite Hr.
    cbn [truthy typeofString]. rewrite bool_decide_false by done.
    cbn [negb orb].
    destruct Hc as [Hc|[Hc|Hc]].
    + apply isUndefined_false in Hc. by rewrite Hc.
    + rewrite Hc. cbn. by rewrite andb_false_r.
    + rewrite Hc. cbn. by rewrite andb_false_r.
Qed.

Lemma checkMessage_Some msg e : checkMessage msg = Some e → validationError e.
Proof.
  unfold checkMessage.
  repeat match goal with
         | |- context [if ?b then _ else _] => destruct b
         end; intros [= <-]; (split; [by eexists|split; reflexivity]).
Qed.

Lemma checkMessages_None msgs :
  checkMessages msgs = None ↔ Forall validMessage msgs.
Proof.
  induction msgs as [|msg msgs IH]; cbn.
  - split; [constructor|done].
  - destruct (checkMessage msg) as [e|] eqn:E.
    + split; [done|]. intros H. apply Forall_cons in H as [H _].
      apply checkMessage_None in H. congruence.
    + rewrite IH. apply checkMessage_None in E. split.
      * intros H. by constructor.
      * intros H. by apply Forall_cons in H as [_ H].
Qed.

Lemma checkMessages_Some msgs e :
  checkMessages msgs = Some e → validationError e.
Proof.
  induction msgs as [|msg msgs IH]; cbn; [done|].
  destruct (checkMessage msg) as [e'|] eqn:E; [|done].
  intros [= <-]. by apply checkMessage_Some in E.
Qed.

(** [parseRequest] either returns the body or throws a validation error. *)
Lemma parseRequest_cases body :
  parseRequest body = Return body
  ∨ ∃ e, parseRequest body = Throw e ∧ validationError e.
Proof.
  unfold parseRequest.
  destruct (negb (truthy body) || negb (typeofObject body)).
  { right. eexists. split; [done|]. split; [by eexists|split; reflexivity]. }
  destruct (negb (truthy (getProp body "model"))
            || negb (typeofString (getProp body "model"))).
  { right. eexists. split; [done|]. split; [by eexists|split; reflexivity]. }
  destruct (getProp body "messages") as [| | | | |[|msg msgs]|];
    try (right; eexists; split; [done|]; split; [by eexists|split; reflexivity]).
  destruct (checkMessages (msg :: msgs)) as [e|] eqn:E; [|by left].
  right. exists e. split; [done|]. by apply checkMessages_Some in E.
Qed.

(** C6, amended.  [parseRequest] returns the body exactly when it is an
    object with a non-empty string [model] and a non-empty [messages]
    array whose every element is an object with a non-empty string [role]
    and at least one of: a [content] property, [null] included; a truthy
    [tool_calls]; a truthy [function_call].  On every other body it throws
    a validation error. *)
Theorem parseRequest_accepts_iff_valid (body : JsValue) :
  (parseRequest body = Return body ↔ validBody body)
  ∧ (¬ validBody body → ∃ e, parseRequest body = Throw e ∧ validationError e).
Proof.
  assert (Hiff : parseRequest body = Return body ↔ validBody body).
  { unfold parseRequest, validBody. split.
    - destruct (negb (truthy body) || negb (typeofObject body)) eqn:E1; [done|].
      destruct (negb (truthy (getProp body "model"))
                || negb (typeofString (getProp body "model"))) eqn:E2; [done|].
      destruct (getProp body "messages") as [| | | | |[|msg msgs]|] eqn:Em;
        try done.
      destruct (checkMessages (msg :: msgs)) as [e|] eqn:E3; [done|].
      intros _. apply orb_false_elim in E2 as [E2a E2b].
      apply negb_false_iff in E2a, E2b.
      destruct (getProp body "model") as [| | | |m| |] eqn:Emod; try done.
      split.
      + destruct body; try done. by eexists.
      + split.
        * exists m. split; [done|]. cbn in E2a.
          by apply negb_true_iff, bool_decide_eq_false in E2a.
        * exists (msg :: msgs). split; [done|]. split; [done|].
          by apply checkMessages_None.
    - intros ([fields ->] & (m & Hm & Hne) & (msgs & Hmsgs & Hnil & Hall)).
      cbn [truthy typeofObject negb orb]. rewrite Hm.
      cbn [truthy typeofString]. rewrite bool_decide_false by done.
      cbn [negb orb]. rewrite Hmsgs.
      destruct msgs as [|msg msgs]; [done|].
      apply checkMessages_None in Hall. by rewrite Hall. }
  split; [done|]. intros Hinv.
  destruct (parseRequest_cases body) as [Hok|Hthrow]; [|done].
  by apply Hiff in Hok.
Qed.

Example null_content_accepted :
  parseRequest nullContentBody = Return nullContentBody.
Proof. reflexivity. Qed.

(** C6 as stated fails: a message whose only payload is [content: null]
    is accepted. *)
Lemma validation_null_content_fails : ¬ validation_as_stated.
Proof.
  intros H. destruct (H nullContentBody) as [Hacc _].
  destruct Hacc as (_ & _ & msgs & Hmsgs & _ & Hall).
  { eexists. apply null_content_accepted. }
  cbn in Hmsgs. injection Hmsgs as <-.
  apply Forall_cons in Hall as [(_ & _ & [[_ Hc]|[Hc|Hc]]) _]; by apply Hc.
Qed.

Lemma parseRequest_accepts_iff_valid_witness :
  parseRequest nullContentBody = Return nullContentBody.
Proof.
  apply (parseRequest_accepts_iff_valid nullContentBody).
  split; [by eexists|]. split; [exists "gpt-4"; by split|].
  eexists. split; [reflexivity|]. split; [done|].
  constructor; [|constructor].
  split; [by eexists|]. split; [exists "user"; by split|].
  left. discriminate.
Defined.

End ParseRequestFacts.

(** ** Dispatcher *)

Module RequestHandlerFacts.
Import RequestHandler RequestHandlerSpec.

Section WithEnvironment.
Variable clock : nat -> Z.
Variable uuid : nat -> string.
Variable JSON_stringify : ChatCompletionChunk -> string.
Variable getValidToken : nat -> string -> Result TokenSet.
Variable providers : string -> option Provider.
Variable interleave : nat -> World -> World.
Variable settlement : nat -> Settlement.
Variable maxRetries : nat.

Abbreviation awaitAcquire := (awaitAcquire clock interleave settlement).
Abbreviation tryCompletion := (tryCompletion clock uuid getValidToken providers interleave settlement).
Abbreviation tryStream := (tryStream clock uuid JSON_stringify getValidToken providers interleave settlement).
Abbreviation completionLoop := (completionLoop clock uuid getValidToken providers interleave settlement maxRetries).
Abbreviation streamLoop := (streamLoop clock uuid JSON_stringify getValidToken providers interleave settlement maxRetries).
Abbreviation handleCompletion := (handleCompletion clock uuid getValidToken providers interleave settlement maxRetries).
Abbreviation handleCompletionStream := (handleCompletionStream clock uuid JSON_stringify getValidToken providers interleave settlement maxRetries).




Lemma onRouter_resolve m w :
  onRouter (Router.resolveModelAlias m) w = (RouterSpec.resolved (router w) m, w).
Proof.
  unfold onRouter. rewrite RouterFacts.resolveModelAlias_run. by destruct w.
Qed.


Abbreviation streamChunks := (streamChunks clock JSON_stringify interleave).
Abbreviation formatSSE := (ResponseTransformer.formatSSE JSON_stringify).
Abbreviation streamIdCall := (streamIdCall clock getValidToken interleave settlement).
Abbreviation chained := (chained clock uuid JSON_stringify getValidToken providers interleave settlement).

Lemma streamChunks_run chunks m streamId :
  ∀ w, ∃ cks w',
    streamChunks chunks m streamId w = (dataFrame JSON_stringify <$> cks, w')
    ∧ length cks = length chunks
    ∧ ∀ c, c ∈ cks → chunk_id c = streamId.
Proof.
  induction chunks as [|chunk rest IH]; intros w.
  - exists [], w. split; [done|]. split; [done|].
    intros c Hc. by apply elem_of_nil in Hc.
  - cbn [RequestHandler.streamChunks]. unfold bind at 1.
    destruct (suspend interleave w) as [n0 w0].
    unfold bind at 1.
    destruct (onClock (ResponseTransformer.toOpenAIChunk clock chunk m streamId) w0)
      as [oc w1] eqn:Eoc.
    assert (Hid : chunk_id oc = streamId).
    { unfold onClock, ResponseTransformer.toOpenAIChunk in Eoc.
      unfold bind, Date_now, ret in Eoc. cbn in Eoc. by injection Eoc as <- _. }
    unfold bind at 1. destruct (suspend interleave w1) as [n2 w2].
    unfold bind at 1.
    destruct (IH w2) as (cks & w' & -> & Hlen & Hids).
    exists (oc :: cks), w'. unfold ret. split; [done|].
    split; [cbn; lia|].
    intros c Hc. apply elem_of_cons in Hc as [->|Hc]; [done|by apply Hids].
Qed.

(** One attempt of the stream handler: the frames it yields are data
    frames of chunks that all carry the id generated for the attempt,
    followed by the done frame if the attempt returns. *)
Lemma tryStream_run request sel w :
  ∃ cks res w',
    tryStream request sel w = ((if res is Return _ then (dataFrame JSON_stringify <$> cks) ++ [doneFrame]
                                else dataFrame JSON_stringify <$> cks)%list, res, w')
    ∧ (∃ k, ∀ c, c ∈ cks → chunk_id c = "chatcmpl-" +:+ uuid k)
    ∧ (∀ e, res = Throw e →
         cks = []
         ∨ ∃ prov n req chunks,
             providers (provider sel) = Some prov
             ∧ chatCompletionStream prov n req = (chunks, Some e)
             ∧ length cks = length chunks).
Proof.
  unfold RequestHandler.tryStream. unfold bind at 1.
  destruct (awaitAcquire (provider sel) w) as [[u|e] w0].
  2:{ exists [], (Throw e), w0. split; [done|].
      split; [exists 0%nat; intros c Hc; by apply elem_of_nil in Hc|].
      intros e' _. by left. }
  unfold bind at 1.
  destruct (awaitValidToken getValidToken interleave (provider sel) w0) as [[token|e] w1].
  2:{ exists [], (Throw e), w1. split; [done|].
      split; [exists 0%nat; intros c Hc; by apply elem_of_nil in Hc|].
      intros e' _. by left. }
  destruct (providers (provider sel)) as [prov|] eqn:Eprov.
  2:{ exists [], (Throw (notInitialized (provider sel))), w1. split; [done|].
      split; [exists 0%nat; intros c Hc; by apply elem_of_nil in Hc|].
      intros e' _. by left. }
  unfold bind at 1.
  unfold generateCompletionId, randomUUID, bind, ret. cbn [fst snd].
  set (w2 := mkWorld _ _ _ _ _ _).
  destruct (suspend interleave w2) as [n w3].
  destruct (chatCompletionStream prov n _) as [chunks failure] eqn:Estream.
  destruct (streamChunks_run chunks (req_model request)
              ("chatcmpl-" +:+ uuid (w_uuids w1)) w3)
    as (cks & w4 & -> & Hlen & Hids).
  destruct failure as [e|].
  - exists cks, (Throw e), w4. split; [done|].
    split; [by exists (w_uuids w1)|].
    intros e' [= <-]. right.
    by exists prov, n, (buildProviderRequest sel request true token), chunks.
  - destruct (suspend interleave w4) as [n5 w5].
    exists cks, (Return tt), w5. split; [done|].
    split; [by exists (w_uuids w1)|]. done.
Qed.

(** The retry loop of the stream handler, when it completes. *)
Lemma streamLoop_completed remaining request :
  ∀ attempts selected lastError w frames w',
  streamLoop remaining request attempts selected lastError w
    = ((frames, Completed tt), w') →
  ∃ earlier last k,
    frames = ((dataFrame JSON_stringify <$> (earlier ++ last)) ++ [doneFrame])%list
    ∧ (∀ c, c ∈ last → chunk_id c = "chatcmpl-" +:+ uuid k)
    ∧ (∀ c, c ∈ earlier → ∃ k', chunk_id c = "chatcmpl-" +:+ uuid k')
    ∧ (midStreamQuiet providers → earlier = []).
Proof.
  induction remaining as [|remaining IH];
    intros attempts selected lastError w frames w' Hrun.
  { cbn in Hrun. unfold ret, throwLast in Hrun. by destruct selected. }
  destruct selected as [sel|]; [|cbn in Hrun; unfold ret, throwLast in Hrun; done].
  cbn [RequestHandler.streamLoop] in Hrun. unfold bind at 1 in Hrun.
  destruct (tryStream_run request sel w) as (cks & res & w0 & Htry & [k Hids] & Hthrow).
  rewrite Htry in Hrun. cbn [fst snd] in Hrun.
  destruct res as [u|e].
  - unfold ret in Hrun. injection Hrun as <- <-.
    exists [], cks, k. split; [done|]. split; [done|].
    split; [intros c Hc; by apply elem_of_nil in Hc|done].
  - destruct (pe_retryable (normalizeToProviderError e (provider sel))
              && (S attempts <? maxRetries)%nat) eqn:Eretry;
      [|unfold ret, throwLast in Hrun; done].
    unfold bind at 1 in Hrun.
    destruct (onRouter (Router.getNextProvider clock (req_model request) (provider sel)) w0)
      as [[[sel'|]|e'] w1]; try (unfold ret, throwLast in Hrun; done).
    unfold bind at 1 in Hrun.
    destruct (streamLoop remaining request (S attempts) (Some sel')
                (Some (normalizeToProviderError e (provider sel))) w1)
      as [[more out] w2] eqn:Emore.
    unfold ret in Hrun. cbn [fst snd] in Hrun. injection Hrun as <- -> <-.
    destruct (IH _ _ _ _ _ _ Emore) as (earlier & last & k2 & -> & Hlast & Hearlier & Hquiet).
    exists (cks ++ earlier)%list, last, k2.
    split; [by rewrite <- !app_assoc, !fmap_app, <- !app_assoc|].
    split; [done|]. split.
    + intros c Hc. apply elem_of_app in Hc as [Hc|Hc]; [by exists k; apply Hids|by apply Hearlier].
    + intros Hq. rewrite (Hquiet Hq), app_nil_r.
      destruct (Hthrow e eq_refl) as [->|(prov & n & req & chunks & Hp & Hs & Hlen)]; [done|].
      apply andb_true_iff in Eretry as [Er _].
      rewrite (Hq _ _ _ _ _ _ Hp Hs Er) in Hlen. by destruct cks.
Qed.

(** One attempt of the stream handler, with the id of its chunks. *)
Lemma tryStream_attempt request sel w :
  ∃ cks res w',
    tryStream request sel w = ((if res is Return _ then (dataFrame JSON_stringify <$> cks) ++ [doneFrame]
                                else dataFrame JSON_stringify <$> cks)%list, res, w')
    ∧ (∀ c, c ∈ cks → chunk_id c = "chatcmpl-" +:+ uuid (streamIdCall sel w))
    ∧ (∀ e, res = Throw e →
         cks = []
         ∨ ∃ prov n req chunks,
             providers (provider sel) = Some prov
             ∧ chatCompletionStream prov n req = (chunks, Some e)
             ∧ length cks = length chunks).
Proof.
  unfold RequestHandler.tryStream, RequestHandlerSpec.streamIdCall. unfold bind at 1.
  destruct (awaitAcquire (provider sel) w) as [[u|e] w0].
  2:{ exists [], (Throw e), w0. split; [done|].
      split; [intros c Hc; by apply elem_of_nil in Hc|].
      intros e' _. by left. }
  unfold bind at 1. cbn [snd].
  destruct (awaitValidToken getValidToken interleave (provider sel) w0) as [[token|e] w1].
  2:{ exists [], (Throw e), w1. split; [done|].
      split; [intros c Hc; by apply elem_of_nil in Hc|].
      intros e' _. by left. }
  destruct (providers (provider sel)) as [prov|] eqn:Eprov.
  2:{ exists [], (Throw (notInitialized (provider sel))), w1. split; [done|].
      split; [intros c Hc; by apply elem_of_nil in Hc|].
      intros e' _. by left. }
  unfold bind at 1.
  unfold generateCompletionId, randomUUID, bind, ret. cbn [fst snd].
  set (w2 := mkWorld _ _ _ _ _ _).
  destruct (suspend interleave w2) as [n w3].
  destruct (chatCompletionStream prov n _) as [chunks failure] eqn:Estream.
  destruct (streamChunks_run chunks (req_model request)
              ("chatcmpl-" +:+ uuid (w_uuids w1)) w3)
    as (cks & w4 & -> & Hlen & Hids).
  destruct failure as [e|].
  - exists cks, (Throw e), w4. split; [done|].
    split; [done|].
    intros e' [= <-]. right.
    by exists prov, n, (buildProviderRequest sel request true token), chunks.
  - destruct (suspend interleave w4) as [n5 w5].
    exists cks, (Return tt), w5. split; [done|]. done.
Qed.

(** The retry loop of the stream handler, when it completes: its attempts. *)
Lemma streamLoop_attempts remaining request :
  ∀ attempts sel lastError w frames w',
  streamLoop remaining request attempts (Some sel) lastError w
    = ((frames, Completed tt), w') →
  ∃ (tried : list Attempt) (final : Attempt),
    at_selected <$> head tried = Some sel
    ∧ at_world <$> head tried = Some w
    ∧ chained request tried
    ∧ frames = ((dataFrame JSON_stringify <$> (tried ≫= at_chunks)) ++ [doneFrame])%list
    ∧ (∀ a c, a ∈ tried → c ∈ at_chunks a →
              chunk_id c = "chatcmpl-" +:+ uuid (streamIdCall (at_selected a) (at_world a)))
    ∧ last tried = Some final
    ∧ (midStreamQuiet providers → tried ≫= at_chunks = at_chunks final).
Proof.
  induction remaining as [|remaining IH];
    intros attempts sel lastError w frames w' Hrun.
  { cbn in Hrun. unfold ret, throwLast in Hrun. done. }
  cbn [RequestHandler.streamLoop] in Hrun. unfold bind at 1 in Hrun.
  destruct (tryStream_attempt request sel w) as (cks & res & w0 & Htry & Hids & Hthrow).
  rewrite Htry in Hrun. cbn [fst snd] in Hrun.
  destruct res as [[]|e].
  - unfold ret in Hrun. injection Hrun as <- <-.
    exists [mkAttempt sel w cks], (mkAttempt sel w cks).
    split; [done|]. split; [done|]. split; [cbn; by rewrite Htry|].
    split; [cbn; by rewrite app_nil_r|]. split.
    + intros a c Ha Hc. apply list_elem_of_singleton in Ha as ->. by apply Hids.
    + split; [done|]. intros _. cbn. by rewrite app_nil_r.
  - destruct (pe_retryable (normalizeToProviderError e (provider sel))
              && (S attempts <? maxRetries)%nat) eqn:Eretry;
      [|unfold ret, throwLast in Hrun; done].
    unfold bind at 1 in Hrun.
    destruct (onRouter (Router.getNextProvider clock (req_model request) (provider sel)) w0)
      as [[[sel'|]|e'] w1] eqn:Enext; try (unfold ret, throwLast in Hrun; done).
    unfold bind at 1 in Hrun.
    destruct (streamLoop remaining request (S attempts) (Some sel')
                (Some (normalizeToProviderError e (provider sel))) w1)
      as [[more out] w2] eqn:Emore.
    unfold ret in Hrun. cbn [fst snd] in Hrun. injection Hrun as <- -> <-.
    destruct (IH _ _ _ _ _ _ Emore)
      as (tried & final & Hsel & Hw & Hchain & -> & Hids' & Hlast & Hquiet).
    destruct tried as [|b rest]; [done|].
    cbn in Hsel, Hw. injection Hsel as Hsel. injection Hw as Hw.
    exists (mkAttempt sel w cks :: b :: rest), final.
    split; [done|]. split; [done|]. split.
    { cbn [RequestHandlerSpec.chained at_selected at_world at_chunks].
      rewrite Htry. cbn [fst snd]. split; [by exists e|].
      split; [by rewrite Hsel, Hw|]. exact Hchain. }
    split.
    { cbn [mbind list_bind at_chunks]. by rewrite !fmap_app, <- !app_assoc. }
    split.
    { intros a c Ha Hc. apply elem_of_cons in Ha as [->|Ha]; [by apply Hids|].
      by apply Hids'. }
    split; [done|].
    intros Hq. cbn [mbind list_bind at_chunks].
    change (at_chunks b ++ rest ≫= at_chunks)%list with ((b :: rest) ≫= at_chunks).
    rewrite (Hquiet Hq).
    destruct (Hthrow e eq_refl) as [->|(prov & n & req & chunks & Hp & Hs & Hlen)]; [done|].
    apply andb_true_iff in Eretry as [Er _].
    rewrite (Hq _ _ _ _ _ _ Hp Hs Er) in Hlen. by destruct cks.
Qed.

(** C9, amended.  When a streaming completion succeeds, it is the work of
    one or more attempts: the first on the provider that [selectProvider]
    gave, each further one on the provider that [getNextProvider] gave
    after the attempt before it threw.  The frames are
    ["data: " + JSON + "\n\n"] for a chunk each, attempt after attempt,
    followed by exactly ["data: [DONE]\n\n"]; every chunk carries the id
    that the attempt which yielded it generated, by its own call of
    [randomUUID()], before it opened the provider stream; and when no
    provider stream throws a retryable error after yielding, all chunks
    are those of the last attempt, so they carry one id. *)
Theorem stream_frames (request : ChatCompletionRequest) (w w' : World)
    (frames : list string) :
  handleCompletionStream request w = ((frames, Completed tt), w') →
  ∃ (cs : list ProviderModel) (tried : list Attempt) (first final : Attempt),
    RouterSpec.resolved (router w) (req_model request) = Return cs
    ∧ onRouter (Router.selectProvider clock cs) w
      = (Some (at_selected first), at_world first)
    ∧ head tried = Some first
    ∧ last tried = Some final
    ∧ chained request tried
    ∧ frames = ((dataFrame JSON_stringify <$> (tried ≫= at_chunks)) ++ [doneFrame])%list
    ∧ (∀ a c, a ∈ tried → c ∈ at_chunks a →
              chunk_id c = "chatcmpl-" +:+ uuid (streamIdCall (at_selected a) (at_world a)))
    ∧ (midStreamQuiet providers → tried ≫= at_chunks = at_chunks final).
Proof.
  unfold RequestHandler.handleCompletionStream, bind. rewrite onRouter_resolve.
  destruct (RouterSpec.resolved (router w) (req_model request)) as [cs|e];
    [|unfold ret; done].
  destruct (onRouter (Router.selectProvider clock cs) w) as [[sel|] w0] eqn:Esel;
    [|unfold ret; done].
  intros Hrun.
  destruct (streamLoop_attempts _ _ _ _ _ _ _ _ Hrun)
    as (tried & final & Hsel & Hw & Hchain & Hframes & Hids & Hlast & Hquiet).
  destruct tried as [|first rest]; [done|].
  cbn in Hsel, Hw. injection Hsel as <-. injection Hw as <-.
  by exists cs, (first :: rest), first, final.
Qed.

End WithEnvironment.

End RequestHandlerFacts.

(** *** Concrete runs of the dispatcher *)

Module RequestHandlerExamples.
Import RequestHandler RequestHandlerSpec RequestHandlerFacts.

Example stream_changes_id :
  streamRun = (["data: chatcmpl-0000-a" +:+ LF +:+ LF;
                "data: chatcmpl-0000-b" +:+ LF +:+ LF;
                "data: [DONE]" +:+ LF +:+ LF], Completed tt).
Proof. vm_compute. reflexivity. Qed.

Example stream_changes_id_run :
  handleCompletionStream RouterSpec.clock0 twoIds idOnly (fun _ p => Return (tokenOf p))
     adapters quiet resolves 3 (requestFor "best-model") world0
  = ((["data: chatcmpl-0000-a" +:+ LF +:+ LF;
       "data: chatcmpl-0000-b" +:+ LF +:+ LF;
       "data: [DONE]" +:+ LF +:+ LF], Completed tt), streamEnd).
Proof.
  rewrite <- stream_changes_id. unfold streamRun, streamEnd.
  by destruct (handleCompletionStream _ _ _ _ _ _ _ _ _ _) as [[? ?] ?].
Qed.

Lemma sse_framing_single_id_fails : ¬ sse_framing_as_stated.
Proof.
  intros H.
  destruct (H _ _ idOnly (fun s => s) _ _ _ _ _ _ _ _ _
              (fun c => eq_refl) stream_changes_id_run)
    as (streamId & chunks & Hframes & Hids).
  destruct chunks as [|c1 [|c2 [|c3 chunks]]].
  - discriminate Hframes.
  - discriminate Hframes.
  - injection Hframes as H1 H2.
    unfold idOnly in H1, H2.
    rewrite (Hids c1) in H1 by (by left).
    rewrite (Hids c2) in H2 by (right; by left).
    cbn in H1, H2. rewrite <- H2 in H1. discriminate.
  - destruct chunks; discriminate Hframes.
Qed.

Lemma stream_frames_witness :
  ∃ (cs : list ProviderModel) (tried : list Attempt) (first final : Attempt),
    RouterSpec.resolved (router world0) "best-model" = Return cs
    ∧ onRouter (Router.selectProvider RouterSpec.clock0 cs) world0
      = (Some (at_selected first), at_world first)
    ∧ head tried = Some first
    ∧ last tried = Some final
    ∧ chained RouterSpec.clock0 twoIds idOnly (fun _ p => Return (tokenOf p)) adapters
        quiet resolves (requestFor "best-model") tried
    ∧ ["data: chatcmpl-0000-a" +:+ LF +:+ LF;
       "data: chatcmpl-0000-b" +:+ LF +:+ LF;
       "data: [DONE]" +:+ LF +:+ LF]
      = ((dataFrame idOnly <$> (tried ≫= at_chunks)) ++ [doneFrame])%list
    ∧ (∀ a c, a ∈ tried → c ∈ at_chunks a →
              chunk_id c = "chatcmpl-" +:+ twoIds
                (streamIdCall RouterSpec.clock0 (fun _ p => Return (tokenOf p)) quiet
                   resolves (at_selected a) (at_world a)))
    ∧ (midStreamQuiet adapters → tried ≫= at_chunks = at_chunks final).
Proof.
  exact (stream_frames RouterSpec.clock0 twoIds idOnly (fun _ p => Return (tokenOf p))
           adapters quiet resolves 3 (requestFor "best-model") world0 streamEnd _
           stream_changes_id_run).
Defined.






End RequestHandlerExamples.

(** ** Token refresh *)

Module AuthManagerFacts.
Import AuthManagerSpec.

Lemma loaded_idem s : loaded (loaded s) = loaded s.
Proof.
  unfold loaded, FileTokenStore.initialize. destruct (FileTokenStore.initialized s) eqn:E; cbn.
  - by rewrite E.
  - done.
Qed.

Section WithEnvironment.
Variable clock : nat -> Z.
Variable writeFile : nat -> option JsThrown.
Variable axios_post : AuthManager.RefreshRequest -> AuthManager.TokenResponse + string.

Abbreviation refresh := (AuthManager.refreshToken clock writeFile axios_post).

Lemma getToken_run p s :
  FileTokenStore.getToken p s = (storedToken s p, loaded s).
Proof.
  unfold FileTokenStore.getToken, storedToken, loaded, bind, get, ret.
  by destruct (FileTokenStore.initialize s).
Qed.

Lemma deleteToken_tokens p s :
  FileTokenStore.tokens (FileTokenStore.deleteToken writeFile p s).2 !! p = None.
Proof.
  unfold FileTokenStore.deleteToken, bind, modify, FileTokenStore.persist.
  destruct (FileTokenStore.initialize s) as [u s0]. cbn.
  destruct (writeFile _); cbn; apply lookup_delete_eq.
Qed.

Lemma refreshFailed_deletes p message w :
  let run := AuthManager.refreshFailed writeFile p message w in
  (∃ e, run.1 = Throw e)
  ∧ FileTokenStore.tokens (AuthManager.tokenStore (obj run.2)) !! p = None
  ∧ (writeFile (FileTokenStore.writes (AuthManager.tokenStore (obj w))) = None →
     run.1 = Throw (JsError ("Failed to refresh token for " +:+ p +:+ ": "
                             +:+ message +:+ ". Please re-authenticate."))).
Proof.
  unfold AuthManager.refreshFailed, bind, AuthManager.onStore. cbn zeta.
  pose proof (deleteToken_tokens p (AuthManager.tokenStore (obj w))) as Hdel.
  destruct (FileTokenStore.deleteToken writeFile p (AuthManager.tokenStore (obj w))) as [[u|e] s1] eqn:E;
    cbn in *.
  - split; [by eexists|]. split; [done|]. done.
  - split; [by eexists|]. split; [done|].
    intros Hw. exfalso. revert E.
    unfold FileTokenStore.deleteToken, bind, modify, FileTokenStore.persist.
    destruct (FileTokenStore.initialize _) as [u0 s0] eqn:Ei. cbn.
    assert (FileTokenStore.writes s0 = FileTokenStore.writes (AuthManager.tokenStore (obj w))) as ->.
    { unfold FileTokenStore.initialize in Ei.
      destruct (FileTokenStore.initialized _); by injection Ei as _ <-. }
    by rewrite Hw.
Qed.

Lemma storedToken_initialized s p :
  FileTokenStore.initialized s = true → storedToken s p = FileTokenStore.tokens s !! p.
Proof.
  intros H. unfold storedToken, loaded, FileTokenStore.initialize. by rewrite H.
Qed.

Lemma loaded_initialized s : FileTokenStore.initialized (loaded s) = true.
Proof.
  unfold loaded, FileTokenStore.initialize.
  by destruct (FileTokenStore.initialized s) eqn:E.
Qed.

Lemma loaded_writes s : FileTokenStore.writes (loaded s) = FileTokenStore.writes s.
Proof.
  unfold loaded, FileTokenStore.initialize.
  by destruct (FileTokenStore.initialized s).
Qed.

Lemma deleteToken_initialized p s :
  FileTokenStore.initialized (FileTokenStore.deleteToken writeFile p s).2 = true.
Proof.
  unfold FileTokenStore.deleteToken, bind, modify, FileTokenStore.persist.
  pose proof (loaded_initialized s) as Hi. unfold loaded in Hi.
  destruct (FileTokenStore.initialize s) as [u s0]. cbn in *.
  destruct (writeFile _); cbn; done.
Qed.

Lemma refreshFailed_forgets p message w :
  let run := AuthManager.refreshFailed writeFile p message w in
  (∃ e, run.1 = Throw e)
  ∧ storedToken (AuthManager.tokenStore (obj run.2)) p = None
  ∧ (writeFile (FileTokenStore.writes (AuthManager.tokenStore (obj w))) = None →
     run.1 = Throw (JsError ("Failed to refresh token for " +:+ p +:+ ": "
                             +:+ message +:+ ". Please re-authenticate."))).
Proof.
  destruct (refreshFailed_deletes p message w) as (He & Hdel & Hmsg).
  cbv zeta. split; [done|]. split; [|done].
  rewrite storedToken_initialized; [done|].
  unfold AuthManager.refreshFailed, bind, AuthManager.onStore.
  pose proof (deleteToken_initialized p (AuthManager.tokenStore (obj w))) as Hi.
  destruct (FileTokenStore.deleteToken writeFile p _) as [[u|e] s1]; cbn in *; done.
Qed.

Lemma getProviderConfig_run p (w : Timed AuthManager.t) :
  AuthManager.getProviderConfig p w =
  (match AuthManager.providerConfigs (obj w) !! p with
   | None => Throw (JsError ("Provider " +:+ p +:+ " not configured"))
   | Some config =>
       if negb (enabled config)
       then Throw (JsError ("Provider " +:+ p +:+ " is disabled"))
       else Return config
   end, w).
Proof.
  unfold AuthManager.getProviderConfig, bind, getR, ret.
  destruct (AuthManager.providerConfigs (obj w) !! p) as [c|]; [|done].
  by destruct (enabled c).
Qed.

Lemma onStore_getToken p (w : Timed AuthManager.t) :
  AuthManager.onStore (FileTokenStore.getToken p) w =
  (storedToken (AuthManager.tokenStore (obj w)) p,
   mkTimed (AuthManager.mk (loaded (AuthManager.tokenStore (obj w)))
                           (AuthManager.providerConfigs (obj w))) (ticks w)).
Proof. unfold AuthManager.onStore. by rewrite getToken_run. Qed.

Lemma saveToken_run p tokenSet s :
  FileTokenStore.saveToken writeFile p tokenSet s =
  match writeFile (FileTokenStore.writes s) with
  | Some e =>
      (Throw e, FileTokenStore.mk (FileTokenStore.tokens (withToken p tokenSet s)) true
                  (FileTokenStore.file (loaded s)) (S (FileTokenStore.writes s)))
  | None =>
      (Return tt, FileTokenStore.mk (FileTokenStore.tokens (withToken p tokenSet s)) true
                    (FileTokenStore.Tokens (FileTokenStore.tokens (withToken p tokenSet s)))
                    (S (FileTokenStore.writes s)))
  end.
Proof.
  unfold FileTokenStore.saveToken, bind, modify, FileTokenStore.persist, withToken.
  pose proof (loaded_initialized s) as Hi. pose proof (loaded_writes s) as Hw.
  unfold loaded in *. destruct (FileTokenStore.initialize s) as [u s0]. cbn in *.
  rewrite Hi, Hw. by destruct (writeFile (FileTokenStore.writes s)).
Qed.

(** [refreshToken] on a refreshable provider with a stored refresh token,
    in closed form. *)
Lemma refreshToken_run (a : AuthManager.t) (k : nat) (p : string)
    (config : ProviderConfig) (currentToken : TokenSet) :
  storedToken (AuthManager.tokenStore a) p = Some currentToken →
  AuthManager.missing (refreshToken currentToken) = false →
  refreshable a p config →
  refresh p (mkTimed a k) =
  let store := loaded (AuthManager.tokenStore a) in
  let cfgs := AuthManager.providerConfigs a in
  match axios_post (refreshRequest config currentToken) with
  | inl response =>
      let tokenSet := refreshed (clock k) p currentToken response in
      let saved := (FileTokenStore.saveToken writeFile p tokenSet store).2 in
      match writeFile (FileTokenStore.writes (AuthManager.tokenStore a)) with
      | None => (Return tokenSet, mkTimed (AuthManager.mk saved cfgs) (S k))
      | Some e =>
          AuthManager.refreshFailed writeFile p (AuthManager.messageOf e)
            (mkTimed (AuthManager.mk saved cfgs) (S k))
      end
  | inr message =>
      AuthManager.refreshFailed writeFile p message
        (mkTimed (AuthManager.mk store cfgs) k)
  end.
Proof.
  intros Hstored Hrt (Hc & Hen & Hte & Hci).
  unfold AuthManager.refreshToken.
  unfold bind at 1. rewrite getProviderConfig_run. cbn [obj]. rewrite Hc, Hen. cbn [negb].
  unfold bind at 1. rewrite onStore_getToken. cbn [obj ticks].
  rewrite Hstored, Hrt, Hte, Hci. cbn [orb].
  fold (refreshRequest config currentToken). cbv zeta.
  destruct (axios_post (refreshRequest config currentToken)) as [response|message];
    [|done].
  unfold bind at 1. unfold Date_now at 1. cbn [obj ticks].
  unfold bind at 1. unfold AuthManager.onStore at 1.
  cbn [obj ticks AuthManager.tokenStore AuthManager.providerConfigs].
  fold (refreshed (clock k) p currentToken response).
  rewrite saveToken_run, loaded_writes.
  by destruct (writeFile (FileTokenStore.writes (AuthManager.tokenStore a))).
Qed.

(** [refreshToken] stops at its guards when the provider cannot refresh. *)
Lemma refreshToken_guarded (a : AuthManager.t) (k : nat) (p : string)
    (currentToken : TokenSet) :
  storedToken (AuthManager.tokenStore a) p = Some currentToken →
  AuthManager.missing (refreshToken currentToken) = false →
  (∀ config, ¬ refreshable a p config) →
  ∃ e w, refresh p (mkTimed a k) = (Throw e, w)
         ∧ storedToken (AuthManager.tokenStore (obj w)) p = Some currentToken.
Proof.
  intros Hstored Hrt Hno.
  unfold AuthManager.refreshToken.
  unfold bind at 1. rewrite getProviderConfig_run. cbn [obj].
  destruct (AuthManager.providerConfigs a !! p) as [config|] eqn:Hc.
  2:{ eexists _, _. split; [reflexivity|done]. }
  destruct (enabled config) eqn:Hen; cbn [negb].
  2:{ eexists _, _. split; [reflexivity|done]. }
  unfold bind at 1. rewrite onStore_getToken. cbn [obj ticks].
  rewrite Hstored, Hrt.
  destruct (AuthManager.missing (tokenEndpoint config)
            || AuthManager.missing (clientId config)) eqn:Hm.
  - eexists _, _. split; [reflexivity|]. cbn. unfold storedToken in *.
    by rewrite loaded_idem.
  - apply orb_false_elim in Hm as [Hte Hci]. by destruct (Hno config).
Qed.

(** C8, amended.  With a stored token set that has a refresh token, on a
    provider that is configured, enabled and has a token endpoint and a
    client id: when the token endpoint replies and the store can write,
    [refreshToken] stores and returns the token set with the new access
    token, the new refresh token if the reply has a non-empty one and the
    old one otherwise, and [expiresAt = now + expires_in * 1000]; when the
    request fails, or the new token set cannot be written, the entry of
    the provider is deleted and an error is thrown.  When the provider is
    not configured, is disabled, or lacks the token endpoint or the client
    id, [refreshToken] throws before any request and the stored entry
    stays. *)
Theorem refreshToken_contract (a : AuthManager.t) (k : nat) (p : string)
    (currentToken : TokenSet) :
  storedToken (AuthManager.tokenStore a) p = Some currentToken →
  AuthManager.missing (refreshToken currentToken) = false →
  let run := refresh p (mkTimed a k) in
  let after := storedToken (AuthManager.tokenStore (obj run.2)) p in
  let canWrite := writeFile (FileTokenStore.writes (AuthManager.tokenStore a)) = None in
  (∀ config, refreshable a p config →
     match axios_post (refreshRequest config currentToken) with
     | inl response =>
         let tokenSet := refreshed (clock k) p currentToken response in
         accessToken tokenSet = AuthManager.access_token response
         ∧ expiresAt tokenSet = clock k + AuthManager.expires_in response * 1000
         ∧ (∀ new, AuthManager.refresh_token response = Some new → new ≠ "" →
              refreshToken tokenSet = Some new)
         ∧ (AuthManager.missing (AuthManager.refresh_token response) = true →
              refreshToken tokenSet = refreshToken currentToken)
         ∧ (canWrite → run.1 = Return tokenSet ∧ after = Some tokenSet)
         ∧ (¬ canWrite → (∃ e, run.1 = Throw e) ∧ after = None)
     | inr message =>
         (∃ e, run.1 = Throw e) ∧ after = None
         ∧ (canWrite →
            run.1 = Throw (JsError ("Failed to refresh token for " +:+ p +:+ ": "
                                    +:+ message +:+ ". Please re-authenticate.")))
     end)
  ∧ ((∀ config, ¬ refreshable a p config) →
     (∃ e, run.1 = Throw e) ∧ after = Some currentToken).
Proof.
  intros Hstored Hrt run after canWrite. subst run after canWrite.
  split.
  - intros config Hcfg.
    rewrite (refreshToken_run a k p config currentToken) by done. cbv zeta.
    fold (refreshed (clock k) p currentToken).
    destruct (axios_post (refreshRequest config currentToken)) as [response|message].
    + split; [done|]. split; [done|]. split.
      { intros new Hnew Hne. cbn. rewrite Hnew. cbn. by rewrite bool_decide_false. }
      split.
      { intros Hmiss. cbn. unfold AuthManager.missing in Hmiss.
        destruct (AuthManager.refresh_token response) as [new|]; [|done].
        cbn. by rewrite Hmiss. }
      destruct (writeFile (FileTokenStore.writes (AuthManager.tokenStore a)))
        as [e|] eqn:Ew.
      * split; [done|]. intros _.
        match goal with |- context [AuthManager.refreshFailed ?wf ?pp ?m ?ww] =>
          destruct (refreshFailed_forgets pp m ww) as (He & Hdel & _) end.
        done.
      * split; [|done]. intros _. cbn [fst snd obj]. split; [done|].
        rewrite saveToken_run, loaded_writes, Ew. cbn [snd AuthManager.tokenStore].
        rewrite storedToken_initialized by done. cbn. apply lookup_insert_eq.
    + match goal with |- context [AuthManager.refreshFailed ?wf ?pp ?m ?ww] =>
        destruct (refreshFailed_forgets pp m ww) as (He & Hdel & Hmsg) end.
      split; [done|]. split; [done|]. intros Hw. apply Hmsg. cbn.
      by rewrite loaded_writes.
  - intros Hno.
    destruct (refreshToken_guarded a k p currentToken Hstored Hrt Hno)
      as (e & w & -> & Hkept).
    split; [by eexists|done].
Qed.

End WithEnvironment.
End AuthManagerFacts.

(** *** Concrete refreshes *)

Module AuthManagerExamples.
Import AuthManagerSpec AuthManagerFacts.

Example refresh_without_endpoint :
  (AuthManager.refreshToken clock0 diskOk endpointOk "openai" (mkTimed apiOnly 0)).1
  = Throw (JsError "Provider openai missing token endpoint or client ID").
Proof. vm_compute. reflexivity. Qed.

Example token_kept_without_endpoint :
  storedToken
    (AuthManager.tokenStore
       (obj (AuthManager.refreshToken clock0 diskOk endpointOk "openai"
               (mkTimed apiOnly 0)).2)) "openai"
  = Some expired.
Proof. vm_compute. reflexivity. Qed.

(** C8 as stated fails: on a provider without token endpoint the refresh
    fails and the stored token stays. *)
Lemma refresh_failure_keeps_token : ¬ refresh_contract_as_stated.
Proof.
  intros H.
  destruct (H clock0 diskOk endpointOk apiOnly 0%nat "openai" expired) as [_ Hdel].
  - vm_compute. reflexivity.
  - reflexivity.
  - specialize (Hdel _ refresh_without_endpoint).
    rewrite token_kept_without_endpoint in Hdel. discriminate.
Qed.

Lemma refreshToken_contract_witness :
  (AuthManager.refreshToken clock0 diskOk endpointOk "openai" (mkTimed withOAuth 0)).1
  = Return (mkTokenSet "new-access" (Some "refresh-1") 3601000 "openai").
Proof.
  destruct (refreshToken_contract clock0 diskOk endpointOk withOAuth 0 "openai" expired)
    as [H _].
  - vm_compute. reflexivity.
  - reflexivity.
  - specialize (H (mkProviderConfig true (Some "client-1") None
                     (Some "https://auth.example/device")
                     (Some "https://auth.example/token")
                     "https://api.openai.com")).
    cbn in H. destruct H as (_ & _ & _ & _ & Hw & _).
    + split; [vm_compute; reflexivity|]. by repeat split.
    + by destruct Hw.
Defined.

End AuthManagerExamples.

(* ===================================================================== *)
(** * Further properties                                                  *)
(* ===================================================================== *)

(** ** The sort, and the split of [provider/model] *)

Lemma filter_insertByPriority v x l :
  filter (λ c, priority c = v) (insertByPriority x l)
  = filter (λ c, priority c = v) (x :: l).
Proof.
  induction l as [|y l IH]; cbn [insertByPriority]; [done|].
  destruct (priority x <=? priority y) eqn:E; [done|].
  apply Z.leb_gt in E.
  rewrite filter_cons. rewrite IH. rewrite !filter_cons.
  destruct (decide (priority y = v)) as [Hy|Hy];
  destruct (decide (priority x = v)) as [Hx|Hx]; try done. lia.
Qed.

Lemma filter_sortByPriority v l :
  filter (λ c, priority c = v) (sortByPriority l) = filter (λ c, priority c = v) l.
Proof.
  induction l as [|x l IH]; cbn [sortByPriority]; [done|].
  rewrite filter_insertByPriority, !filter_cons, IH. done.
Qed.

Lemma insertByPriority_perm x l : insertByPriority x l ≡ₚ x :: l.
Proof.
  induction l as [|y l IH]; cbn [insertByPriority]; [done|].
  destruct (priority x <=? priority y); [done|].
  rewrite IH. apply Permutation_swap.
Qed.

Lemma sortByPriority_perm l : sortByPriority l ≡ₚ l.
Proof.
  induction l as [|x l IH]; cbn [sortByPriority]; [done|].
  by rewrite insertByPriority_perm, IH.
Qed.

Lemma insertByPriority_sorted x l :
  StronglySorted byPriority l → StronglySorted byPriority (insertByPriority x l).
Proof.
  induction 1 as [|y l Hs IH Hall]; cbn [insertByPriority].
  - repeat constructor.
  - destruct (priority x <=? priority y) eqn:E.
    + apply Z.leb_le in E. constructor; [by constructor|].
      constructor; [done|].
      eapply Forall_impl; [exact Hall|]. unfold byPriority. intros; cbn in *; lia.
    + apply Z.leb_gt in E. constructor; [done|].
      rewrite insertByPriority_perm. constructor; [unfold byPriority; lia|done].
Qed.

Lemma sortByPriority_sorted l : StronglySorted byPriority (sortByPriority l).
Proof.
  induction l as [|x l IH]; cbn [sortByPriority]; [constructor|].
  by apply insertByPriority_sorted.
Qed.

Lemma includes_slash_split s :
  includes s "/" = false → splitAtSlash s = None.
Proof.
  induction s as [|c s IH]; [done|].
  cbn [includes splitAtSlash]. cbn [String.prefix].
  destruct (Ascii.eqb c "/") eqn:E.
  - apply Ascii.eqb_eq in E. subst. cbn. destruct s; done.
  - intros H. apply orb_false_iff in H as [_ H]. by rewrite IH.
Qed.

Lemma splitAtSlash_app p mn :
  includes p "/" = false → splitAtSlash (p +:+ "/" +:+ mn) = Some (p, mn).
Proof.
  induction p as [|c p IH]; [done|].
  cbn [includes]. intros H. apply orb_false_iff in H as [Hc H].
  change (String c p +:+ "/" +:+ mn) with (String c (p +:+ "/" +:+ mn)).
  cbn [splitAtSlash].
  destruct (Ascii.eqb c "/") eqn:E.
  - apply Ascii.eqb_eq in E. subst. cbn in Hc. destruct p; done.
  - by rewrite IH.
Qed.

(** ** Router *)

Module RouterProperties.
Import Router RouterSpec RouterFacts.

(** X1.  For a configured alias, [resolveModelAlias] returns the alias's
    candidates reordered by ascending priority: the result is a
    permutation of the configured list, it is sorted, candidates of equal
    priority keep their configuration order (the sort is stable), and the
    router is left as it was, without a reading of the clock. *)
Theorem resolveModelAlias_sorts_alias (r : Router.t) (k : nat) (m : string)
    (a : ModelAlias) :
  modelAliases r !! m = Some a →
  ∃ cs, resolveModelAlias m (mkTimed r k) = (Return cs, mkTimed r k)
        ∧ cs ≡ₚ providers a
        ∧ StronglySorted byPriority cs
        ∧ ∀ v, filter (λ c, priority c = v) cs
               = filter (λ c, priority c = v) (providers a).
Proof.
  intros Ha. exists (sortByPriority (providers a)).
  split; [|split; [|split]].
  - unfold resolveModelAlias. run_m. by rewrite Ha.
  - apply sortByPriority_perm.
  - apply sortByPriority_sorted.
  - intros v. apply filter_sortByPriority.
Qed.

(** X2.  For a name that is no alias: [provider/model], where [provider]
    holds no slash, resolves to the single candidate of that provider and
    model with priority 0 (the name is split at its first slash); a name
    without a slash throws [Unknown model: name].  The router is left as
    it was. *)
Theorem resolveModelAlias_direct (r : Router.t) (k : nat) (m : string) :
  modelAliases r !! m = None →
  (∀ p modelName,
     m = p +:+ "/" +:+ modelName → includes p "/" = false →
     resolveModelAlias m (mkTimed r k)
     = (Return [mkProviderModel p modelName 0], mkTimed r k))
  ∧ (includes m "/" = false →
     resolveModelAlias m (mkTimed r k)
     = (Throw (JsError ("Unknown model: " +:+ m)), mkTimed r k)).
Proof.
  intros Hm. split.
  - intros p mn -> Hp. unfold resolveModelAlias. run_m.
    rewrite Hm. by rewrite splitAtSlash_app.
  - intros Hs. unfold resolveModelAlias. run_m.
    rewrite Hm. by rewrite includes_slash_split.
Qed.

Section WithClock.
Variable clock : nat -> Z.

Lemma partitionCandidates_none_failed cs :
  ∀ w av fl, failedProviders (obj w) = ∅ →
  partitionCandidates clock cs av fl w = ((av ++ cs, fl)%list, w).
Proof.
  induction cs as [|c cs IH]; intros w av fl He.
  - cbn. unfold ret. by rewrite app_nil_r.
  - cbn [partitionCandidates]. unfold bind at 1.
    unfold isProviderFailed. run_m. rewrite He, lookup_empty.
    rewrite IH by done. by rewrite <- app_assoc.
Qed.

(** X3.  Once every recorded failure is older than the failure TTL at the
    reading [selectProvider] takes for its eviction, the call forgets them
    all and returns the candidate of lowest priority of the whole list: a
    provider that failed is tried again after the TTL. *)
Theorem selectProvider_after_ttl (r : Router.t) (k : nat)
    (cs : list ProviderModel) :
  cs ≠ [] →
  (∀ q t, failedProviders r !! q = Some t → clock k - t > failureTTL r) →
  selectProvider clock cs (mkTimed r k)
  = (head (sortByPriority cs), mkTimed (setFailed ∅ r) (S k)).
Proof.
  intros Hne Hold. unfold selectProvider.
  destruct cs as [|c0 cs]; [done|]. cbn [length Nat.eqb].
  unfold clearExpiredFailures. run_m.
  assert (Hf : filter (λ kv : string * Z, ¬ clock k - kv.2 > failureTTL r)
                 (failedProviders r) = ∅).
  { apply map_empty_filter_2. intros q t Hq. cbn. specialize (Hold q t Hq). lia. }
  rewrite Hf.
  rewrite partitionCandidates_none_failed by done. cbn [fst snd app].
  pose proof (length_sortByPriority (c0 :: cs)) as Hl.
  destruct (sortByPriority (c0 :: cs)); [discriminate|done].
Qed.

(** X4.  [clearExpiredFailures] cannot be observed through
    [isProviderFailed]: when the clock does not go back, a question asked
    after an eviction gets the answer it would have got without it. *)
Theorem eviction_is_unobservable (r : Router.t) (k j : nat) (p : string) :
  clock k <= clock j →
  (isProviderFailed clock p
     (mkTimed (obj (clearExpiredFailures clock (mkTimed r k)).2) j)).1
  = (isProviderFailed clock p (mkTimed r j)).1.
Proof.
  intros Hle.
  destruct (isProviderFailed_run clock p
              (mkTimed (obj (clearExpiredFailures clock (mkTimed r k)).2) j))
    as (k1 & -> & _).
  destruct (isProviderFailed_run clock p (mkTimed r j)) as (k2 & -> & _).
  cbn [fst obj ticks].
  change (obj (clearExpiredFailures clock (mkTimed r k)).2) with (pruned (clock k) r).
  rewrite failedAt_pruned. unfold failedAt.
  destruct (failedProviders r !! p) as [t|]; [|done].
  repeat case_bool_decide; try done. lia.
Qed.

End WithClock.
End RouterProperties.

(** ** Rate limiter *)

Module RateLimiterProperties.
Import RateLimiter RateLimiterSpec RateLimiterFacts RateLimiterRuns.

Lemma length_cleaned now ts : (length (cleaned now ts) ≤ length ts)%nat.
Proof.
  unfold cleaned. destruct (findIndex _ ts); cbn; [|lia].
  rewrite length_drop. lia.
Qed.

Lemma length_window now r p : (length (window now r p) ≤ length (stored r p))%nat.
Proof.
  unfold window, stored. destruct (requestTimestamps r !! p); cbn; [|lia].
  apply length_cleaned.
Qed.

Section WithClock.
Variable clock : nat -> Z.

Lemma releaseLoop_run p rpm queue :
  ∀ ts w,
  let m := released rpm queue ts in
  releaseLoop clock p rpm queue ts w
  = ((drop m queue, (ts ++ (clock <$> seq (ticks w) m))%list),
     mkTimed (withSettled (resolutions (take m queue)) (obj w)) (ticks w + m)).
Proof.
  induction queue as [|item queue IH]; intros ts w m; subst m.
  - cbn. unfold ret, withSettled, resolutions. cbn. rewrite !app_nil_r.
    destruct w as [[] ?]; cbn. by rewrite Nat.add_0_r.
  - cbn [releaseLoop]. case_bool_decide as Hlt.
    + run_m. rewrite IH. cbn [obj ticks].
      unfold released. cbn [length].
      replace (Z.to_nat (rpm - Z.of_nat (length ts)))
        with (S (Z.to_nat (rpm - Z.of_nat (length (ts ++ [clock (ticks w)]))))).
      2:{ rewrite length_app; cbn. lia. }
      rewrite <- Nat.succ_min_distr. cbn [drop take seq fmap list_fmap].
      set (m := (length queue `min` _)%nat).
      f_equal; [f_equal; by rewrite <- app_assoc|].
      f_equal; [|lia].
      unfold withSettled, settle, resolutions; cbn. by rewrite <- app_assoc.
    + unfold ret, released.
      replace (Z.to_nat (rpm - Z.of_nat (length ts))) with 0%nat by lia.
      rewrite Nat.min_0_r. cbn. unfold withSettled, resolutions; cbn.
      rewrite !app_nil_r, Nat.add_0_r. by destruct w as [[] ?].
Qed.

Lemma stopTimer_run p r k :
  stopTimer p (mkTimed r k) = (tt, mkTimed (setTimers (timers r ∖ {[p]}) r) k).
Proof.
  unfold stopTimer. run_m.
  destruct (decide (p ∈ timers r)) as [Hp|Hp].
  - by rewrite bool_decide_true.
  - rewrite bool_decide_false by done.
    f_equal. f_equal. destruct r as [cf rts qs tm pr st]; unfold setTimers; cbn in *.
    f_equal. set_solver.
Qed.

(** [processQueue] on a configured provider, in closed form. *)
Lemma processQueue_run p config r k :
  configs r !! p = Some config →
  let ts := window (clock k) r p in
  let q := waiting r p in
  let k1 := cleanTicks r p k in
  let m := released (requestsPerMinute config) q ts in
  processQueue clock p (mkTimed r k)
  = (tt, mkTimed
           (mk (configs r)
               (match requestTimestamps r !! p with
                | Some _ => <[p := (ts ++ (clock <$> seq k1 m))%list]> (requestTimestamps r)
                | None => requestTimestamps r
                end)
               (match queues r !! p with
                | Some _ => <[p := drop m q]> (queues r)
                | None => queues r
                end)
               (if (length (drop m q) =? 0)%nat then timers r ∖ {[p]} else timers r)
               (promises r)
               (settled r ++ resolutions (take m q)))
           (k1 + m)).
Proof.
  intros Hc ts q k1 m. unfold processQueue.
  unfold bind at 1. rewrite cleanWindow_run. cbn [obj ticks].
  unfold bind at 1. unfold getR at 1. cbn [obj].
  assert (Hc1 : configs (obj (match requestTimestamps r !! p with
       | Some ts0 => mkTimed (setTimestamps p (cleaned (clock k) ts0) r) (S k)
       | None => mkTimed r k end)) !! p = Some config).
  { destruct (requestTimestamps r !! p); done. }
  rewrite Hc1. unfold bind at 1.
  replace (default [] (requestTimestamps (obj (match requestTimestamps r !! p with
       | Some ts0 => mkTimed (setTimestamps p (cleaned (clock k) ts0) r) (S k)
       | None => mkTimed r k end)) !! p)) with ts.
  2:{ subst ts. unfold window. destruct (requestTimestamps r !! p) eqn:E; cbn.
      - by rewrite lookup_insert_eq.
      - by rewrite E. }
  replace (default [] (queues (obj (match requestTimestamps r !! p with
       | Some ts0 => mkTimed (setTimestamps p (cleaned (clock k) ts0) r) (S k)
       | None => mkTimed r k end)) !! p)) with q.
  2:{ subst q. unfold waiting. destruct (requestTimestamps r !! p); done. }
  rewrite releaseLoop_run. fold m. cbn [fst snd].
  unfold bind at 1. unfold setR at 1. cbn [obj ticks fst snd].
  replace (ticks (match requestTimestamps r !! p with
       | Some ts0 => mkTimed (setTimestamps p (cleaned (clock k) ts0) r) (S k)
       | None => mkTimed r k end)) with k1.
  2:{ subst k1. unfold cleanTicks. destruct (requestTimestamps r !! p); done. }
  destruct r as [cf rts qs tm pr st]. cbn [configs requestTimestamps queues timers promises settled] in *.
  destruct (length (drop m q) =? 0)%nat eqn:El.
  - rewrite stopTimer_run. f_equal. f_equal.
    unfold withSettled, setTimers, setTimestamps, setQueue.
    destruct (rts !! p) as [ts0|] eqn:Ets; destruct (qs !! p) as [q0|] eqn:Eq;
      cbn; rewrite ?lookup_insert_eq, ?Ets, ?Eq; cbn;
      rewrite ?lookup_insert_eq, ?Ets, ?Eq; cbn; rewrite ?insert_insert_eq; done.
  - unfold ret. f_equal. f_equal.
    unfold withSettled, setTimers, setTimestamps, setQueue.
    destruct (rts !! p) as [ts0|] eqn:Ets; destruct (qs !! p) as [q0|] eqn:Eq;
      cbn; rewrite ?lookup_insert_eq, ?Ets, ?Eq; cbn;
      rewrite ?lookup_insert_eq, ?Ets, ?Eq; cbn; rewrite ?insert_insert_eq; done.
Qed.

(** X5.  When the window of a configured provider is full and its queue
    has room, [acquire] returns a new pending promise, appends it to the
    end of the provider's queue with the time of enqueueing, starts the
    provider's ticker, takes no slot of the window and settles nothing;
    the queues, windows and tickers of the other providers are
    untouched. *)
Theorem acquire_waits_in_line (r : RateLimiter.t) (k : nat) (p : string)
    (config : RateLimitConfig) :
  configs r !! p = Some config →
  Z.of_nat (length (window (clock k) r p)) >= requestsPerMinute config →
  Z.of_nat (length (waiting r p)) < maxQueueSize config →
  let k1 := cleanTicks r p k in
  ∃ r', acquire clock p (mkTimed r k) = (Pending (promises r), mkTimed r' (S k1))
        ∧ waiting r' p = (waiting r p ++ [mkQueued (promises r) (clock k1)])%list
        ∧ stored r' p = window (clock k) r p
        ∧ p ∈ timers r'
        ∧ promises r' = S (promises r)
        ∧ settled r' = settled r
        ∧ ∀ q, q ≠ p →
            waiting r' q = waiting r q ∧ stored r' q = stored r q
            ∧ (q ∈ timers r' ↔ q ∈ timers r).
Proof.
  intros Hc Hw Hq k1. rewrite (acquire_run clock p config) by done. cbv zeta.
  rewrite bool_decide_false by lia. rewrite bool_decide_true by lia.
  eexists. split; [reflexivity|].
  unfold startedTimer, waiting, stored, prepared.
  destruct r as [cf rts qs tm pr st]. cbn [configs requestTimestamps queues timers promises settled] in *.
  case_bool_decide as Ht; cbn; rewrite ?lookup_insert_eq; cbn.
  - repeat split; try done.
    all: rewrite ?lookup_insert_ne by done; done.
  - repeat split; try done; try set_solver.
    all: rewrite ?lookup_insert_ne by done; done.
Qed.

(** X6.  When the ticker of a provider fires, the window is pruned and the
    waiters are released first come first served: with [m] the smaller of
    the queue length and the free slots of the pruned window, the first
    [m] waiters are resolved in queue order, each taking a slot stamped
    with its own reading of the clock, the others stay queued in order,
    and the ticker stops exactly when the queue has become empty.  Other
    providers are untouched. *)
Theorem timer_releases_in_order (r : RateLimiter.t) (k : nat) (p : string)
    (config : RateLimitConfig) (ts : list Z) (q : list QueuedRequest) :
  configs r !! p = Some config →
  p ∈ timers r →
  requestTimestamps r !! p = Some ts →
  queues r !! p = Some q →
  let live := cleaned (clock k) ts in
  let m := (length q `min` Z.to_nat (requestsPerMinute config - Z.of_nat (length live)))%nat in
  ∃ r', timerFires clock p (mkTimed r k) = (tt, mkTimed r' (S k + m))
        ∧ settled r' = (settled r ++ ((fun item => (waiter item, Resolve)) <$> take m q))%list
        ∧ queues r' !! p = Some (drop m q)
        ∧ requestTimestamps r' !! p = Some (live ++ (clock <$> seq (S k) m))%list
        ∧ (p ∈ timers r' ↔ (m < length q)%nat)
        ∧ (∀ p', p' ≠ p →
             queues r' !! p' = queues r !! p'
             ∧ requestTimestamps r' !! p' = requestTimestamps r !! p'
             ∧ (p' ∈ timers r' ↔ p' ∈ timers r)).
Proof.
  intros Hc Ht Hts Hq live m.
  unfold timerFires. unfold bind, getR. cbn [obj fst snd].
  rewrite bool_decide_true by done.
  rewrite (processQueue_run p config) by done. cbv zeta.
  unfold window, waiting, cleanTicks, released. rewrite Hts, Hq.
  cbn [default from_option id]. fold live. fold m.
  eexists. split; [reflexivity|]. cbn [settled queues requestTimestamps timers].
  split; [done|]. rewrite !lookup_insert_eq. split; [done|]. split; [done|].
  split.
  - destruct (length (drop m q) =? 0)%nat eqn:E.
    + apply Nat.eqb_eq in E. rewrite length_drop in E.
      split; [set_solver|lia].
    + apply Nat.eqb_neq in E. rewrite length_drop in E.
      split; [lia|done].
  - intros p' Hp'. rewrite !lookup_insert_ne by done.
    split; [done|]. split; [done|].
    destruct (length (drop m q) =? 0)%nat; set_solver.
Qed.

End WithClock.

Lemma idsOf_delete qs p :
  idsOf qs ≡ₚ ((waiter <$> default [] (qs !! p)) ++ idsOf (delete p qs))%list.
Proof.
  unfold idsOf. destruct (qs !! p) as [q|] eqn:E; cbn.
  - rewrite <- (map_to_list_delete qs p q E). done.
  - by rewrite delete_id.
Qed.

Lemma idsOf_insert qs p q :
  idsOf (<[p := q]> qs) ≡ₚ ((waiter <$> q) ++ idsOf (delete p qs))%list.
Proof.
  unfold idsOf. rewrite <- insert_delete_eq.
  rewrite map_to_list_insert by apply lookup_delete_eq. done.
Qed.

Lemma idsOf_insert_same qs p :
  idsOf (<[p := default [] (qs !! p)]> qs) ≡ₚ idsOf qs.
Proof. by rewrite idsOf_insert, <- idsOf_delete. Qed.

Lemma idsOf_emptied (qs : gmap string (list QueuedRequest)) :
  idsOf ((fun _ => []) <$> qs) = [].
Proof.
  unfold idsOf. rewrite map_to_list_fmap.
  induction (map_to_list qs) as [|[p q] l IH]; [done|]. cbn. exact IH.
Qed.

Lemma settledIds_dispose qs :
  fst <$> (map_to_list qs ≫= (fun pq => rejectAll pq.1 pq.2)) = idsOf qs.
Proof.
  unfold idsOf. induction (map_to_list qs) as [|[p q] l IH]; [done|].
  cbn. rewrite fmap_app, IH. f_equal.
  unfold rejectAll. rewrite <- list_fmap_compose. done.
Qed.

Lemma stored_setTimestamps p ts r q :
  stored (setTimestamps p ts r) q = if decide (q = p) then ts else stored r q.
Proof.
  unfold stored, setTimestamps; cbn. destruct (decide (q = p)) as [->|Hne].
  - by rewrite lookup_insert_eq.
  - by rewrite lookup_insert_ne.
Qed.

Lemma waiting_setQueue p qu r q :
  waiting (setQueue p qu r) q = if decide (q = p) then qu else waiting r q.
Proof.
  unfold waiting, setQueue; cbn. destruct (decide (q = p)) as [->|Hne].
  - by rewrite lookup_insert_eq.
  - by rewrite lookup_insert_ne.
Qed.

Lemma waiting_prepared now p r q : waiting (prepared now p r) q = waiting r q.
Proof.
  unfold prepared. rewrite waiting_setQueue. destruct (decide (q = p)) as [->|]; done.
Qed.

Lemma stored_prepared now p r q :
  stored (prepared now p r) q = if decide (q = p) then window now r p else stored r q.
Proof. unfold prepared. unfold stored at 1. cbn. apply (stored_setTimestamps p _ r q). Qed.

Lemma queuedIds_prepared now p r : queuedIds (prepared now p r) ≡ₚ queuedIds r.
Proof. unfold queuedIds, prepared, waiting; cbn. apply idsOf_insert_same. Qed.

Lemma Invariant_constructor cfgs : Invariant (constructor cfgs).
Proof.
  split; unfold stored, waiting, queuedIds, settledIds; cbn.
  - intros. rewrite lookup_empty. cbn. lia.
  - intros. rewrite lookup_empty. cbn. lia.
  - intros. by rewrite lookup_empty.
  - intros p. rewrite lookup_empty. cbn. split; [set_solver|done].
  - unfold idsOf. by rewrite map_to_list_empty.
Qed.

Section Preservation.
Variable clock : nat -> Z.

Lemma Invariant_prepared now p r : Invariant r → Invariant (prepared now p r).
Proof.
  intros [Hw Hq Hu Ht Hi]. split.
  - intros q config Hc. rewrite stored_prepared.
    destruct (decide (q = p)) as [->|]; [|by apply Hw].
    pose proof (length_window now r p). specialize (Hw p config Hc). lia.
  - intros q config Hc. rewrite waiting_prepared. by apply Hq.
  - intros q Hc. rewrite waiting_prepared. by apply Hu.
  - intros q. rewrite waiting_prepared. apply Ht.
  - rewrite queuedIds_prepared. exact Hi.
Qed.

Lemma Invariant_acquire r k p :
  Invariant r →
  Invariant (obj (acquire clock p (mkTimed r k)).2)
  ∧ configs (obj (acquire clock p (mkTimed r k)).2) = configs r.
Proof.
  intros Hinv.
  destruct (configs r !! p) as [config|] eqn:Hc.
  2:{ by rewrite acquire_unconfigured. }
  rewrite (acquire_run clock p config) by done. cbv zeta.
  pose proof (Invariant_prepared (clock k) p r Hinv) as [Hw Hq Hu Ht Hi].
  set (r3 := prepared (clock k) p r) in *.
  assert (Hst3 : stored r3 p = window (clock k) r p).
  { unfold r3. rewrite stored_prepared. by rewrite decide_True. }
  assert (Hwt3 : waiting r3 p = waiting r p) by apply waiting_prepared.
  case_bool_decide as Hlt; [|case_bool_decide as Hql]; cbn [snd obj].
  - split; [|done]. split.
    + intros q config' Hc'. rewrite stored_setTimestamps.
      destruct (decide (q = p)) as [->|]; [|by apply Hw].
      change (configs r !! p = Some config') in Hc'. rewrite Hc in Hc'. injection Hc' as <-.
      rewrite length_app. cbn. lia.
    + exact Hq.
    + exact Hu.
    + exact Ht.
    + exact Hi.
  - split; [|unfold startedTimer; by case_bool_decide].
    set (r4 := setQueue p _ (newPromise r3)).
    assert (Hwt4 : ∀ q, waiting r4 q = if decide (q = p)
               then (waiting r p ++ [mkQueued (promises r) (clock (cleanTicks r p k))])%list
               else waiting r3 q).
    { intros q. unfold r4. rewrite waiting_setQueue. by destruct (decide (q = p)). }
    assert (Hstart : ∀ q, waiting (startedTimer p r4) q = waiting r4 q).
    { intros q. unfold startedTimer. by case_bool_decide. }
    split.
    + intros q config' Hc'.
      replace (stored (startedTimer p r4) q) with (stored r3 q)
        by (unfold startedTimer; by case_bool_decide).
      apply Hw. unfold startedTimer in Hc'. by case_bool_decide.
    + intros q config' Hc'. rewrite Hstart, Hwt4.
      assert (Hc3 : configs r3 !! q = Some config')
        by (unfold startedTimer in Hc'; by case_bool_decide).
      destruct (decide (q = p)) as [->|]; [|by apply Hq].
      change (configs r !! p = Some config') in Hc3. rewrite Hc in Hc3. injection Hc3 as <-.
      rewrite length_app. cbn. lia.
    + intros q Hc'. rewrite Hstart, Hwt4.
      assert (Hc3 : configs r3 !! q = None)
        by (unfold startedTimer in Hc'; by case_bool_decide).
      destruct (decide (q = p)) as [->|]; [|by apply Hu].
      change (configs r !! p = None) in Hc3. congruence.
    + intros q. rewrite Hstart, Hwt4.
      assert (Htm : q ∈ timers (startedTimer p r4) ↔ q = p ∨ q ∈ timers r3).
      { unfold startedTimer. case_bool_decide as Hin; cbn; [|set_solver].
        change (timers r4) with (timers r3) in *. split; [by right|].
        intros [->|]; done. }
      rewrite Htm. destruct (decide (q = p)) as [->|Hne].
      * split; [intros _; by destruct (waiting r p)|by left].
      * rewrite <- Ht. split; [by intros [|]|by right].
    + replace (promises (startedTimer p r4)) with (S (promises r))
        by (unfold startedTimer; by case_bool_decide).
      replace (settledIds (startedTimer p r4)) with (settledIds r3)
        by (unfold startedTimer; by case_bool_decide).
      replace (queuedIds (startedTimer p r4)) with (queuedIds r4)
        by (unfold startedTimer; by case_bool_decide).
      rewrite seq_S, Nat.add_0_l.
      change (promises r) with (promises r3). rewrite <- Hi.
      unfold queuedIds. unfold r4 at 1. cbn [queues setQueue newPromise].
      rewrite idsOf_insert.
      rewrite (idsOf_delete (queues r3) p).
      fold (waiting r3 p). rewrite Hwt3. rewrite fmap_app. cbn [fmap list_fmap waiter].
      rewrite <- !app_assoc. apply Permutation_app_head.
      cbn [app]. rewrite <- Permutation_middle.
      rewrite app_nil_r. apply Permutation_middle.
  - split; [|done]. by split.
Qed.

Lemma Invariant_getStatus r k p :
  Invariant r →
  Invariant (obj (getStatus clock p (mkTimed r k)).2)
  ∧ configs (obj (getStatus clock p (mkTimed r k)).2) = configs r.
Proof.
  intros Hinv.
  destruct (configs r !! p) as [config|] eqn:Hc.
  2:{ unfold getStatus. run_m. by rewrite Hc. }
  rewrite (getStatus_run clock p config) by done. cbv zeta. cbn [snd obj].
  destruct (requestTimestamps r !! p) as [ts|] eqn:Ets; [|done].
  split; [|done]. destruct Hinv as [Hw Hq Hu Ht Hi]. split; try done.
  intros q config' Hc'. rewrite stored_setTimestamps.
  destruct (decide (q = p)) as [->|]; [|by apply Hw].
  pose proof (length_window (clock k) r p). specialize (Hw p config' Hc'). lia.
Qed.

Lemma Invariant_timerFires r k p :
  Invariant r →
  Invariant (obj (timerFires clock p (mkTimed r k)).2)
  ∧ configs (obj (timerFires clock p (mkTimed r k)).2) = configs r.
Proof.
  intros Hinv. unfold timerFires. unfold bind, getR. cbn [obj fst snd].
  case_bool_decide as Hin; [|done].
  pose proof Hinv as [Hw Hq Hu Ht Hi].
  assert (Hne : waiting r p ≠ []) by (by apply Ht).
  destruct (configs r !! p) as [config|] eqn:Hc.
  2:{ by specialize (Hu p Hc). }
  rewrite (processQueue_run clock p config) by done. cbv zeta. cbn [snd obj].
  set (ts := window (clock k) r p).
  set (q := waiting r p) in *.
  set (m := released (requestsPerMinute config) q ts).
  assert (Hq_some : queues r !! p = Some q).
  { subst q. unfold waiting in *. destruct (queues r !! p); done. }
  rewrite Hq_some. split; [|done].
  assert (Hm : (m ≤ length q)%nat) by (unfold m, released; lia).
  split; unfold stored, waiting; cbn [configs requestTimestamps queues timers promises settled].
  - intros p' config' Hc'. destruct (decide (p' = p)) as [->|Hne'].
    + rewrite Hc in Hc'. injection Hc' as <-.
      destruct (requestTimestamps r !! p) eqn:Ets; [|rewrite Ets; cbn; lia].
      rewrite lookup_insert_eq. cbn. rewrite length_app, length_fmap, length_seq.
      specialize (Hw p config Hc). pose proof (length_window (clock k) r p).
      fold ts in H. unfold m, released. lia.
    + specialize (Hw p' config' Hc'). unfold stored in Hw.
      destruct (requestTimestamps r !! p); [by rewrite lookup_insert_ne|done].
  - intros p' config' Hc'. destruct (decide (p' = p)) as [->|Hne'].
    + rewrite Hc in Hc'. injection Hc' as <-. rewrite lookup_insert_eq. cbn.
      rewrite length_drop. specialize (Hq p config Hc). fold q in Hq. lia.
    + rewrite lookup_insert_ne by done. by apply Hq.
  - intros p' Hc'. destruct (decide (p' = p)) as [->|Hne']; [congruence|].
    rewrite lookup_insert_ne by done. by apply Hu.
  - intros p'. destruct (decide (p' = p)) as [->|Hne'].
    + rewrite lookup_insert_eq. cbn.
      destruct (length (drop m q) =? 0)%nat eqn:E.
      * apply Nat.eqb_eq in E. apply nil_length_inv in E. rewrite E.
        split; [set_solver|done].
      * apply Nat.eqb_neq in E. split; [|done]. intros _ Hd. by rewrite Hd in E.
    + rewrite lookup_insert_ne by done. fold (waiting r p'). rewrite <- Ht.
      destruct (length (drop m q) =? 0)%nat; set_solver.
  - unfold queuedIds, settledIds. cbn [queues settled].
    rewrite idsOf_insert. rewrite <- Hi. unfold queuedIds, settledIds.
    rewrite (idsOf_delete (queues r) p). rewrite Hq_some. cbn [default from_option id].
    rewrite fmap_app. unfold resolutions. rewrite <- list_fmap_compose.
    change (fst ∘ (λ item, (waiter item, Resolve))) with waiter.
    rewrite <- (take_drop m q) at 3. rewrite fmap_app.
    rewrite <- !app_assoc.
    rewrite (Permutation_app_comm (waiter <$> take m q)).
    rewrite <- !app_assoc. apply Permutation_app_head. reflexivity.
Qed.

Lemma Invariant_dispose r k :
  Invariant r →
  Invariant (obj (dispose (mkTimed r k)).2)
  ∧ configs (obj (dispose (mkTimed r k)).2) = configs r.
Proof.
  intros [Hw Hq Hu Ht Hi]. split; [|done].
  assert (Hwt : ∀ p, waiting (obj (dispose (mkTimed r k)).2) p = []).
  { intros p. unfold waiting; cbn. rewrite lookup_fmap.
    by destruct (queues r !! p). }
  split.
  - exact Hw.
  - intros p config _. rewrite Hwt. cbn. lia.
  - intros p _. apply Hwt.
  - intros p. rewrite Hwt. cbn. split; [set_solver|done].
  - unfold queuedIds, settledIds; cbn.
    rewrite idsOf_emptied, fmap_app, settledIds_dispose. cbn.
    rewrite <- Hi. apply Permutation_app_comm.
Qed.

Lemma Invariant_call r k c :
  Invariant r →
  Invariant (obj (call clock c (mkTimed r k)).2)
  ∧ configs (obj (call clock c (mkTimed r k)).2) = configs r.
Proof.
  intros Hinv. destruct c as [p|p|p|]; cbn [call].
  - unfold bind, ret. destruct (acquire clock p (mkTimed r k)) as [a w] eqn:E.
    cbn [snd]. replace w with (acquire clock p (mkTimed r k)).2 by (by rewrite E).
    by apply Invariant_acquire.
  - unfold bind, ret. destruct (getStatus clock p (mkTimed r k)) as [a w] eqn:E.
    cbn [snd]. replace w with (getStatus clock p (mkTimed r k)).2 by (by rewrite E).
    by apply Invariant_getStatus.
  - by apply Invariant_timerFires.
  - by apply Invariant_dispose.
Qed.

Lemma Invariant_calls cs :
  ∀ r k, Invariant r →
  Invariant (obj (calls clock cs (mkTimed r k)).2)
  ∧ configs (obj (calls clock cs (mkTimed r k)).2) = configs r.
Proof.
  induction cs as [|c cs IH]; intros r k Hinv; [done|].
  cbn [calls]. unfold bind.
  destruct (call clock c (mkTimed r k)) as [[] [r1 k1]] eqn:E.
  destruct (Invariant_call r k c Hinv) as [H1 Hc1]. rewrite E in H1, Hc1.
  cbn [snd obj] in H1, Hc1.
  destruct (IH r1 k1 H1) as [H2 Hc2]. split; [done|congruence].
Qed.

(** X7.  Whatever calls of [acquire], [getStatus], [dispose] and firings
    of tickers are made on a new limiter, for every configured provider
    the stored window never holds more than [requestsPerMinute]
    timestamps, the queue never holds more than [maxQueueSize] waiters
    (none when the limit is negative), and the provider's ticker runs
    exactly when its queue is not empty. *)
Theorem limiter_stays_within_capacity (cfgs : list RateLimitConfig)
    (cs : list Call) (k : nat) (p : string) (config : RateLimitConfig) :
  configs (constructor cfgs) !! p = Some config →
  let r := obj (calls clock cs (mkTimed (constructor cfgs) k)).2 in
  Z.of_nat (length (stored r p)) <= Z.max 0 (requestsPerMinute config)
  ∧ Z.of_nat (length (waiting r p)) <= Z.max 0 (maxQueueSize config)
  ∧ (p ∈ timers r ↔ waiting r p ≠ []).
Proof.
  intros Hc r.
  destruct (Invariant_calls cs (constructor cfgs) k (Invariant_constructor cfgs))
    as [[Hw Hq Hu Ht Hi] Hcf].
  fold r in Hw, Hq, Ht, Hcf. rewrite <- Hcf in Hc.
  split; [by apply Hw|]. split; [by apply Hq|]. apply Ht.
Qed.

(** X8.  Whatever calls are made on a new limiter, the promises waiting in
    the queues together with the promises settled so far are exactly the
    pending promises created so far, each once: no waiter is lost, none is
    settled twice, none is settled while still queued. *)
Theorem every_waiter_is_queued_or_settled_once (cfgs : list RateLimitConfig)
    (cs : list Call) (k : nat) :
  let r := obj (calls clock cs (mkTimed (constructor cfgs) k)).2 in
  (queuedIds r ++ settledIds r)%list ≡ₚ seq 0 (promises r).
Proof.
  intros r.
  destruct (Invariant_calls cs (constructor cfgs) k (Invariant_constructor cfgs))
    as [[Hw Hq Hu Ht Hi] Hcf].
  exact Hi.
Qed.

End Preservation.
End RateLimiterProperties.

(** ** Provider errors and headers *)

Module BaseProviderProperties.
Import BaseProvider BaseProviderSpec BaseProviderRuns.

(** X9.  The message of a normalized error is never empty: it is the
    upstream [response.data.error.message] when that is a non-empty
    string, else the error's own [message] when that is non-empty, else
    ['Unknown error']. *)
Theorem normalizeError_message (name : string) (e : AxiosError) :
  let pe := normalizeError name e in
  pe_message pe ≠ ""
  ∧ (∀ m, response_data_error_message e = Some m → m ≠ "" → pe_message pe = m)
  ∧ (response_data_error_message e = None ∨ response_data_error_message e = Some "" →
     (∀ m, message e = Some m → m ≠ "" → pe_message pe = m)
     ∧ (message e = None ∨ message e = Some "" → pe_message pe = "Unknown error")).
Proof.
  unfold normalizeError. cbv zeta.
  destruct e as [st dm m]; cbn [response_status response_data_error_message message].
  assert (Hm : ∀ a b c d, pe_message (let '(type, retryable) := (a, b) : ErrorType * bool in
             mkProviderError c st d type retryable) = d) by done.
  set (msg := default "Unknown error" _).
  assert (Hpe : ∀ x : ErrorType * bool,
            pe_message (let '(type, retryable) := x in
                        mkProviderError name st msg type retryable) = msg)
    by (by intros []).
  rewrite Hpe. subst msg. unfold orString.
  destruct dm as [d|]; destruct m as [m|]; repeat case_bool_decide; cbn;
    repeat split; try done; intros; simplify_eq; try done;
    repeat match goal with
           | H : _ ∨ _ |- _ => destruct H
           | H : _ ∧ _ |- _ => destruct H
           end; simplify_eq; try done; split; intros; simplify_eq; try done;
    repeat match goal with
           | H : _ ∨ _ |- _ => destruct H
           end; simplify_eq; done.
Qed.

Lemma getNext_run s :
  UserAgentPool.getNext s
  = (default "" (UserAgentPool.agents !! (UserAgentPool.index s `mod` 4)%nat),
     UserAgentPool.mk (S (UserAgentPool.index s))).
Proof. done. Qed.

Lemma buildHeadersAll_run tokens :
  ∀ s,
  buildHeadersAll tokens s
  = (imap (fun i tk =>
             mkHeaders ("Bearer " +:+ tk) "application/json"
               (default "" (UserAgentPool.agents
                              !! ((UserAgentPool.index s + i) `mod` 4)%nat))) tokens,
     UserAgentPool.mk (UserAgentPool.index s + length tokens)).
Proof.
  induction tokens as [|tk tokens IH]; intros s.
  - cbn. unfold ret. destruct s. cbn. by rewrite Nat.add_0_r.
  - cbn [buildHeadersAll]. unfold buildHeaders. unfold bind, ret.
    rewrite getNext_run. rewrite IH. cbn [UserAgentPool.index].
    cbn [imap length]. rewrite Nat.add_0_r. f_equal.
    + f_equal. apply imap_ext. intros i x _. unfold compose.
      by replace (S (UserAgentPool.index s) + i)%nat
        with (UserAgentPool.index s + S i)%nat by lia.
    + f_equal. lia.
Qed.

(** X10.  [buildHeaders] rotates the user agents: the i-th call on a new
    provider (from 0) sends [Authorization: Bearer token], [Content-Type:
    application/json] and the agent number [i mod 4] of the pool, and two
    calls send the same agent exactly when their numbers agree modulo 4. *)
Theorem user_agents_rotate (tokens : list string) (i : nat) (tk : string) :
  tokens !! i = Some tk →
  ∃ h agent,
    (buildHeadersAll tokens UserAgentPool.constructor).1 !! i = Some h
    ∧ Authorization h = "Bearer " +:+ tk
    ∧ Content_Type h = "application/json"
    ∧ UserAgentPool.agents !! (i `mod` 4)%nat = Some agent
    ∧ User_Agent h = agent
    ∧ ∀ j h', (buildHeadersAll tokens UserAgentPool.constructor).1 !! j = Some h' →
              (User_Agent h' = agent ↔ (j `mod` 4 = i `mod` 4)%nat).
Proof.
  intros Hi. rewrite buildHeadersAll_run.
  cbn [fst UserAgentPool.index UserAgentPool.constructor Nat.add].
  assert (Hlt : (i `mod` 4 < 4)%nat) by (apply Nat.mod_upper_bound; lia).
  destruct (UserAgentPool.agents !! (i `mod` 4)%nat) as [agent|] eqn:Ea.
  2:{ apply lookup_ge_None in Ea. cbn [length UserAgentPool.agents] in Ea. lia. }
  eexists _, agent. rewrite list_lookup_imap, Hi. cbn [fmap option_fmap option_map].
  split; [reflexivity|]. cbn [Authorization Content_Type User_Agent]. rewrite Ea.
  split; [done|]. split; [done|]. split; [done|]. split; [done|].
  intros j h' Hj. rewrite list_lookup_imap in Hj.
  destruct (tokens !! j) as [tk'|]; [|done].
  cbn [fmap option_fmap option_map] in Hj. injection Hj as <-.
  cbn [User_Agent].
  assert (Hltj : (j `mod` 4 < 4)%nat) by (apply Nat.mod_upper_bound; lia).
  change (3 - (Nat.divmod j 3 0 3).2)%nat with (j `mod` 4)%nat.
  revert Ea. generalize (i `mod` 4)%nat (j `mod` 4)%nat Hlt Hltj.
  intros a b Ha Hb.
  destruct a as [|[|[|[|a]]]]; try lia; destruct b as [|[|[|[|b]]]]; try lia;
    cbn; intros [= <-]; split; done.
Qed.

End BaseProviderProperties.

(** ** HTTP layer *)

Module GatewayProxyProperties.
Import GatewayProxy BaseProvider.

(** X11.  How an upstream failure reaches the client when the adapter's
    error is what the handler throws: the HTTP error handler answers an
    upstream 401 or 403 with status 401, type [authentication_error] and
    code [invalid_api_key]; a 429 with 429, [rate_limit_error],
    [rate_limit_exceeded]; a 500, 502 or 503 with 503, [server_error],
    [service_unavailable]; a 400 with 400, [invalid_request_error], no
    code; anything else, no status included, with 500, [server_error], no
    code.  The message is the normalized one, and the body is the one the
    transformer's [toOpenAIError] builds. *)
Theorem upstream_status_reaches_client (name : string) (e : AxiosError) :
  let pe := normalizeError name e in
  let status := response_status e in
  let answer := errorHandler (JsProviderError pe) in
  err_message answer.2 = pe_message pe
  ∧ answer.2 = ResponseTransformer.toOpenAIError pe
  ∧ (status = Some 401 ∨ status = Some 403 →
     answer.1 = 401 ∧ err_type answer.2 = "authentication_error"
     ∧ err_code answer.2 = Some "invalid_api_key")
  ∧ (status = Some 429 →
     answer.1 = 429 ∧ err_type answer.2 = "rate_limit_error"
     ∧ err_code answer.2 = Some "rate_limit_exceeded")
  ∧ (status = Some 500 ∨ status = Some 502 ∨ status = Some 503 →
     answer.1 = 503 ∧ err_type answer.2 = "server_error"
     ∧ err_code answer.2 = Some "service_unavailable")
  ∧ (status = Some 400 →
     answer.1 = 400 ∧ err_type answer.2 = "invalid_request_error"
     ∧ err_code answer.2 = None)
  ∧ (status ≠ Some 401 → status ≠ Some 403 → status ≠ Some 429 →
     status ≠ Some 500 → status ≠ Some 502 → status ≠ Some 503 →
     status ≠ Some 400 →
     answer.1 = 500 ∧ err_type answer.2 = "server_error"
     ∧ err_code answer.2 = None).
Proof.
  unfold errorHandler, getHttpStatus, formatError, ResponseTransformer.toOpenAIError,
    normalizeError. cbv zeta.
  destruct e as [st dm m]; cbn [response_status].
  repeat case_bool_decide; cbn; subst;
    repeat split; try done; intros; simplify_eq; try done; intuition congruence.
Qed.

Section WithClock.
Variable clock : nat -> Z.

Lemma handleListModels_run aliases :
  ∀ (w : Timed unit),
  handleListModels clock aliases w
  = (imap (fun i a => mkModelInfo (alias a) (clock (ticks w + i) `div` 1000)
                                  "llm-gateway") aliases,
     mkTimed (obj w) (ticks w + length aliases)).
Proof.
  induction aliases as [|a aliases IH]; intros w.
  - cbn. unfold ret. destruct w; cbn. by rewrite Nat.add_0_r.
  - cbn [handleListModels]. run_m. rewrite IH. cbn [obj ticks imap length].
    rewrite Nat.add_0_r. f_equal.
    + f_equal. apply imap_ext. intros i x _. unfold compose.
      by replace (S (ticks w) + i)%nat with (ticks w + S i)%nat by lia.
    + f_equal. lia.
Qed.

Lemma constructor_lookup (aliases : list ModelAlias) :
  ∀ (m0 : gmap string ModelAlias) n,
  foldl (fun m a => <[alias a := a]> m) m0 aliases !! n
  = match last (filter (fun a => alias a = n) aliases) with
    | Some a => Some a
    | None => m0 !! n
    end.
Proof.
  induction aliases as [|a aliases IH]; intros m0 n; [done|].
  cbn [foldl]. rewrite IH. rewrite filter_cons.
  destruct (decide (alias a = n)) as [Ha|Ha].
  - destruct (filter _ aliases) as [|b l] eqn:E.
    + cbn. subst. by rewrite lookup_insert_eq.
    + change (last (a :: b :: l)) with (last (b :: l)).
      destruct (last (b :: l)) eqn:El; [done|]. by apply last_None in El.
  - destruct (last _); [done|]. by rewrite lookup_insert_ne.
Qed.

Lemma last_filter_split (n : string) (aliases : list ModelAlias) (a : ModelAlias) :
  last (filter (fun a => alias a = n) aliases) = Some a →
  ∃ pre post, aliases = (pre ++ a :: post)%list ∧ alias a = n
              ∧ ∀ b, b ∈ post → alias b ≠ n.
Proof.
  induction aliases as [|b aliases IH]; [done|].
  rewrite filter_cons. destruct (decide (alias b = n)) as [Hb|Hb].
  - destruct (filter _ aliases) as [|c l] eqn:E.
    + cbn. intros [= <-]. exists [], aliases. split; [done|]. split; [done|].
      intros c Hc Hcn.
      assert (Hin : c ∈ filter (λ a, alias a = n) aliases)
        by (apply list_elem_of_filter; done).
      rewrite E in Hin. by apply elem_of_nil in Hin.
    + change (last (b :: c :: l)) with (last (c :: l)). intros Hl.
      destruct (IH Hl) as (pre & post & -> & Ha & Hpost).
      by exists (b :: pre), post.
  - intros Hl. destruct (IH Hl) as (pre & post & -> & Ha & Hpost).
    by exists (b :: pre), post.
Qed.

(** X12.  [GET /v1/models] lists the aliases of the configuration in
    order, duplicates included, and every listed id is routable: on the
    router built from the same configuration, [resolveModelAlias] returns
    the sorted candidates of the last configuration entry that has this
    alias. *)
Theorem listed_models_are_routable (aliases : list ModelAlias) (ttl : option Z)
    (k j : nat) :
  let listed := (handleListModels clock aliases (mkTimed tt k)).1 in
  let r := Router.constructor aliases ttl in
  mi_id <$> listed = alias <$> aliases
  ∧ ∀ info, info ∈ listed →
      ∃ pre a post,
        aliases = (pre ++ a :: post)%list
        ∧ alias a = mi_id info
        ∧ (∀ b, b ∈ post → alias b ≠ mi_id info)
        ∧ Router.resolveModelAlias (mi_id info) (mkTimed r j)
          = (Return (sortByPriority (providers a)), mkTimed r j).
Proof.
  intros listed r. subst listed. rewrite handleListModels_run. cbn [fst ticks].
  split.
  - rewrite fmap_imap. clear. generalize k. induction aliases as [|a l IH]; intros k0; [done|].
    cbn. f_equal. rewrite <- (IH (S k0)). apply imap_ext. intros i x _. cbn.
    done.
  - intros info Hin. apply elem_of_lookup_imap in Hin as (i & a0 & -> & Hi).
    cbn [mi_id].
    assert (Hf : alias a0 ∈ alias <$> filter (λ a, alias a = alias a0) aliases).
    { apply list_elem_of_fmap. exists a0. split; [done|].
      apply list_elem_of_filter. split; [done|]. by eapply list_elem_of_lookup_2. }
    destruct (last (filter (λ a, alias a = alias a0) aliases)) as [a|] eqn:El.
    2:{ apply last_None in El. rewrite El in Hf. by apply elem_of_nil in Hf. }
    destruct (last_filter_split _ _ _ El) as (pre & post & Heq & Ha & Hpost).
    exists pre, a, post. split; [done|]. split; [done|]. split; [done|].
    unfold Router.resolveModelAlias. run_m.
    unfold r, Router.constructor. cbn [Router.modelAliases].
    rewrite constructor_lookup, El. done.
Qed.

End WithClock.
End GatewayProxyProperties.

Module HttpHandlerProperties.
Import GatewayProxy RequestHandler RequestHandlerSpec RequestHandlerFacts ParseRequestSpec
       ParseRequestFacts.

Lemma formatError_Error msg :
  err_message (formatError (JsError msg)) = msg
  ∧ err_code (formatError (JsError msg)) = None.
Proof. unfold formatError. by destruct (_ || _). Qed.

Lemma includes_unknown_model m needle :
  needle = "required" ∨ needle = "must be" ∨ needle = "must have" →
  includes ("Unknown model: " +:+ m) needle = includes m needle.
Proof. intros [->|[->| ->]]; reflexivity. Qed.

Lemma includes_unknown_model_self m :
  includes ("Unknown model: " +:+ m) "Unknown model" = true.
Proof. reflexivity. Qed.

Section WithEnvironment.
Variable clock : nat -> Z.
Variable uuid : nat -> string.
Variable JSON_stringify : ChatCompletionChunk -> string.
Variable JSON_stringify_error : OpenAIError -> string.
Variable getValidToken : nat -> string -> Result TokenSet.
Variable providers : string -> option Provider.
Variable interleave : nat -> World -> World.
Variable settlement : nat -> Settlement.
Variable maxRetries : nat.

Abbreviation handleChatCompletions :=
  (handleChatCompletions clock uuid JSON_stringify JSON_stringify_error getValidToken
     providers interleave settlement maxRetries).
Abbreviation handleCompletionStream := (handleCompletionStream clock uuid JSON_stringify getValidToken providers interleave settlement maxRetries).
Abbreviation handleCompletion := (handleCompletion clock uuid getValidToken providers interleave settlement maxRetries).

(** X13.  A body that is handed to the handler of
    [POST /v1/chat/completions] and that [parseRequest] rejects, such as
    an object without [messages], is answered with status 400 and an
    [invalid_request_error] body carrying the validation message, code
    null; router, limiter, usage and clock are left as they were. *)
Theorem invalid_body_is_answered_400 (body : JsValue) (w : World) :
  parseRequest body ≠ Return body →
  ∃ message,
    parseRequest body = Throw (JsError message)
    ∧ handleChatCompletions body w
      = (JsonError 400 (mkOpenAIError message "invalid_request_error" None), w).
Proof.
  intros Hne. destruct (parseRequest_cases body) as [|(e & He & (msg & ->) & Hst & Hty)];
    [done|].
  exists msg. split; [done|].
  unfold GatewayProxy.handleChatCompletions. rewrite He. unfold ret, next.
  rewrite Hst. destruct (formatError_Error msg) as [Hm Hc].
  destruct (formatError (JsError msg)) as [m t c]. cbn in *. by subst.
Qed.

(** X14.  A valid non-streaming request for a model that is no alias and
    holds no slash (and whose name holds none of the phrases the error
    formatter looks for) makes [handleCompletion] throw
    [Unknown model: name], and the HTTP layer answers it with status 400
    but with the error type [server_error]: the status is chosen by
    [getHttpStatus], which knows the phrase 'Unknown model', the type by
    [formatError], which does not. *)
Theorem unknown_model_is_answered_400_server_error (body : JsValue) (w : World)
    (m : string) :
  parseRequest body = Return body →
  truthy (getProp body "stream") = false →
  getProp body "model" = JsString m →
  Router.modelAliases (router w) !! m = None →
  includes m "/" = false →
  includes m "required" = false →
  includes m "must be" = false →
  includes m "must have" = false →
  (handleCompletion (asRequest body) w).1 = Failed (JsError ("Unknown model: " +:+ m))
  ∧ (handleChatCompletions body w).1
    = JsonError 400 (mkOpenAIError ("Unknown model: " +:+ m) "server_error" None).
Proof.
  intros Hp Hs Hm Ha Hslash H1 H2 H3.
  assert (Hrun : handleCompletion (asRequest body) w
                 = (Failed (JsError ("Unknown model: " +:+ m)), w)).
  { unfold RequestHandler.handleCompletion, bind. rewrite onRouter_resolve.
    unfold RouterSpec.resolved, asRequest. cbn [req_model]. rewrite Hm, Ha.
    assert (Hsp : splitAtSlash m = None).
    { clear -Hslash. induction m as [|c s IH]; [done|].
      cbn [includes splitAtSlash] in *. cbn [String.prefix] in Hslash.
      destruct (Ascii.eqb c "/") eqn:E.
      - apply Ascii.eqb_eq in E. subst. cbn in Hslash. by destruct s.
      - apply orb_false_iff in Hslash as [_ H]. by rewrite IH. }
    by rewrite Hsp. }
  split; [by rewrite Hrun|].
  unfold GatewayProxy.handleChatCompletions. rewrite Hp.
  replace (req_stream (asRequest body)) with (getProp body "stream") by done.
  rewrite Hs. unfold bind. rewrite Hrun. unfold suspend, ret, next. cbn [fst].
  unfold getHttpStatus, formatError.
  rewrite !includes_unknown_model by auto.
  rewrite includes_unknown_model_self, H1, H2, H3. cbn. done.
Qed.

Lemma stream_completed_ends_with_done request w frames w' :
  handleCompletionStream request w = ((frames, Completed tt), w') →
  ∃ before, frames = (before ++ [doneFrame])%list.
Proof.
  unfold RequestHandler.handleCompletionStream, bind. rewrite onRouter_resolve.
  destruct (RouterSpec.resolved (router w) (req_model request)) as [cs|e];
    [|unfold ret; done].
  destruct (onRouter (Router.selectProvider clock cs) w) as [[sel|] w0];
    [|unfold ret; done].
  intros H. apply streamLoop_completed in H as (earlier & last & k & -> & _).
  by eexists.
Qed.

(** X15.  For a client that stays connected and a valid request with a
    truthy [stream]: whenever the stream generator ends, by returning or
    by throwing (it need not end: its [acquire] may stay queued for ever),
    the response is an event stream whose last frame is the [DONE] frame.
    When the generator returned, the frames written are the ones it
    yielded, the last of them the [DONE] frame; when it threw, the frames
    it had yielded are followed by one [data: ] frame holding the JSON of
    the formatted error and by the [DONE] frame, and no HTTP error status
    is sent. *)
Theorem stream_answer_ends_with_done (body : JsValue) (w w' : World)
    (frames : list string) (outcome : Outcome unit) :
  parseRequest body = Return body →
  truthy (getProp body "stream") = true →
  handleCompletionStream (asRequest body) w = ((frames, outcome), w') →
  ∃ before,
    handleChatCompletions body w = (EventStream (before ++ [doneFrame])%list, w')
    ∧ (outcome = Completed tt → frames = (before ++ [doneFrame])%list)
    ∧ ∀ e, outcome = Failed e →
        before = (frames ++ ["data: " +:+ JSON_stringify_error (formatError e)
                             +:+ LF +:+ LF])%list.
Proof.
  intros Hp Hs E.
  unfold GatewayProxy.handleChatCompletions. rewrite Hp.
  replace (req_stream (asRequest body)) with (getProp body "stream") by done.
  rewrite Hs. unfold bind. rewrite E. cbn [fst snd].
  destruct outcome as [[]|e].
  - destruct (stream_completed_ends_with_done _ _ _ _ E) as [before ->].
    exists before. split; [done|]. split; [done|]. done.
  - eexists (frames ++ [_])%list. unfold ret. split.
    + rewrite <- app_assoc. reflexivity.
    + split; [done|]. by intros e' [= <-].
Qed.

End WithEnvironment.
End HttpHandlerProperties.

(** ** Dispatcher *)

Module RequestHandlerProperties.
Import RequestHandler RequestHandlerSpec RequestHandlerFacts.

Section WithEnvironment.
Variable clock : nat -> Z.
Variable uuid : nat -> string.
Variable JSON_stringify : ChatCompletionChunk -> string.
Variable getValidToken : nat -> string -> Result TokenSet.
Variable providers : string -> option Provider.
Variable interleave : nat -> World -> World.
Variable settlement : nat -> Settlement.
Variable maxRetries : nat.

Abbreviation awaitAcquire := (awaitAcquire clock interleave settlement).
Abbreviation tryCompletion := (tryCompletion clock uuid getValidToken providers interleave settlement).
Abbreviation tryStream := (tryStream clock uuid JSON_stringify getValidToken providers interleave settlement).
Abbreviation completionLoop := (completionLoop clock uuid getValidToken providers interleave settlement maxRetries).
Abbreviation streamLoop := (streamLoop clock uuid JSON_stringify getValidToken providers interleave settlement maxRetries).
Abbreviation handleCompletion := (handleCompletion clock uuid getValidToken providers interleave settlement maxRetries).
Abbreviation handleCompletionStream := (handleCompletionStream clock uuid JSON_stringify getValidToken providers interleave settlement maxRetries).

(** X16.  When the first attempt succeeds (the limiter admits, a token is
    there, the adapter is registered and returns), [handleCompletion]
    returns the adapter's reply as an OpenAI response: a new [chatcmpl-]
    id, [created] in seconds, [model] the name the client asked for (not
    the provider's model), one choice with the assistant message.  The
    adapter is called with the provider's model name, [stream: false] and
    the token's access token; the usage is recorded once, under the
    provider and the provider's model; router and limiter are not touched
    after the adapter returned. *)
Theorem first_attempt_success (request : ChatCompletionRequest) (w w1 w2 : World)
    (cs : list ProviderModel) (sel : ProviderModel) (token : TokenSet)
    (prov : Provider) (response : ProviderResponse) :
  (0 < maxRetries)%nat →
  RouterSpec.resolved (router w) (req_model request) = Return cs →
  onRouter (Router.selectProvider clock cs) w = (Some sel, w1) →
  awaitAcquire (provider sel) w1 = (Return tt, w2) →
  getValidToken (w_awaits w2) (provider sel) = Return token →
  providers (provider sel) = Some prov →
  chatCompletion prov (S (w_awaits w2))
    (mkProviderRequest (model sel) (req_messages request) false (accessToken token)
       (req_temperature request) (req_top_p request) (req_max_tokens request)
       (req_stop request) (req_tools request)) = Return response →
  let w3 := (suspend interleave (suspend interleave w2).2).2 in
  ∃ w',
    handleCompletion request w
    = (Completed
         (mkResponse ("chatcmpl-" +:+ uuid (w_uuids w3))
            (clock (w_ticks w3) `div` 1000)
            (req_model request)
            [mkChoice 0
               (mkMessage "assistant" (pr_content response) (pr_toolCalls response)
                          (pr_functionCall response))
               (Some (ResponseTransformer.finishReasonOfResponse
                        (pr_finishReason response)))]
            (pr_usage response)), w')
    ∧ usage w' = (usage w3 ++ [(provider sel, model sel, pr_usage response)])%list
    ∧ router w' = router w3
    ∧ rateLimiter w' = rateLimiter w3.
Proof.
  intros Hmax Hres Hsel Hacq Htok Hprov Hcall w3. subst w3.
  unfold RequestHandler.handleCompletion, bind.
  rewrite onRouter_resolve, Hres, Hsel.
  destruct maxRetries as [|n]; [lia|].
  cbn [RequestHandler.completionLoop]. unfold bind at 1.
  unfold RequestHandler.tryCompletion. unfold bind at 1. rewrite Hacq.
  unfold awaitValidToken, suspend, bind, ret. cbn [fst snd]. rewrite Htok.
  unfold buildProviderRequest. rewrite Hprov. cbn [w_awaits]. rewrite Hcall.
  unfold recordUsage, generateCompletionId, randomUUID, bind, ret, onClock,
    ResponseTransformer.toOpenAIResponse, bind, Date_now, ret.
  cbn. eexists. split; [reflexivity|]. done.
Qed.

(** X17.  When an attempt fails with an error that is not retryable, or
    when [maxRetries] is 1, the dispatcher stops there, streaming or not:
    it fails with that error (normalized), having done nothing after the
    attempt, in particular without marking the provider failed or asking
    the router for another one; the frames a stream has yielded stay
    yielded. *)
Theorem failure_without_fallback (request : ChatCompletionRequest) (w w1 : World)
    (cs : list ProviderModel) (sel : ProviderModel) :
  (0 < maxRetries)%nat →
  RouterSpec.resolved (router w) (req_model request) = Return cs →
  onRouter (Router.selectProvider clock cs) w = (Some sel, w1) →
  (∀ e w2,
     tryCompletion request sel w1 = (Throw e, w2) →
     pe_retryable (normalizeToProviderError e (provider sel)) = false
     ∨ maxRetries = 1%nat →
     handleCompletion request w
     = (Failed (JsProviderError (normalizeToProviderError e (provider sel))), w2))
  ∧ (∀ frames e w2,
       tryStream request sel w1 = ((frames, Throw e), w2) →
       pe_retryable (normalizeToProviderError e (provider sel)) = false
       ∨ maxRetries = 1%nat →
       handleCompletionStream request w
       = ((frames, Failed (JsProviderError (normalizeToProviderError e (provider sel)))),
          w2)).
Proof.
  intros Hmax Hres Hsel. split.
  - intros e w2 Htry Hstop.
    unfold RequestHandler.handleCompletion, bind.
    rewrite onRouter_resolve, Hres, Hsel.
    destruct maxRetries as [|n] eqn:Emax; [lia|].
    cbn [RequestHandler.completionLoop]. unfold bind. rewrite Htry.
    destruct Hstop as [->|Hone]; [done|].
    injection Hone as ->. cbn [Nat.ltb Nat.leb]. by rewrite andb_false_r.
  - intros frames e w2 Htry Hstop.
    unfold RequestHandler.handleCompletionStream, bind.
    rewrite onRouter_resolve, Hres, Hsel.
    destruct maxRetries as [|n] eqn:Emax; [lia|].
    cbn [RequestHandler.streamLoop]. unfold bind. rewrite Htry. cbn [fst snd].
    destruct Hstop as [->|Hone]; [done|].
    injection Hone as ->. cbn [Nat.ltb Nat.leb]. by rewrite andb_false_r.
Qed.

Lemma suspend_awaits w : w_awaits (suspend interleave w).2 = S (w_awaits w).
Proof. done. Qed.

Lemma onRouter_awaits {A} (m : M (Timed Router.t) A) w :
  w_awaits (onRouter m w).2 = w_awaits w.
Proof. unfold onRouter. by destruct (m _). Qed.

Lemma tryCompletion_awaits request sel w :
  (w_awaits w < w_awaits (tryCompletion request sel w).2 ≤ w_awaits w + 3)%nat.
Proof.
  unfold RequestHandler.tryCompletion, RequestHandler.awaitAcquire, awaitValidToken,
    suspend, onRateLimiter, recordUsage, generateCompletionId, randomUUID, onClock,
    ResponseTransformer.toOpenAIResponse, Date_now, bind, ret.
  destruct (RateLimiter.acquire clock (provider sel) _) as [pr r'].
  cbn [fst snd w_awaits].
  destruct pr as [|e|id]; [| |destruct (settlement _)]; cbn [fst snd w_awaits];
    try (cbn; lia);
    (destruct (getValidToken _ (provider sel)) as [tk|e']; [|cbn; lia];
     destruct (providers (provider sel)) as [prov|]; [|cbn; lia];
     cbn [fst snd w_awaits];
     destruct (chatCompletion prov _ _) as [resp|e'']; cbn; lia).
Qed.

Lemma completionLoop_awaits remaining request :
  ∀ attempts selected lastError w,
  (w_awaits (completionLoop remaining request attempts selected lastError w).2
   ≤ w_awaits w + 3 * remaining)%nat.
Proof.
  induction remaining as [|remaining IH]; intros attempts selected lastError w.
  - cbn. lia.
  - destruct selected as [sel|]; [|cbn; lia].
    cbn [RequestHandler.completionLoop]. unfold bind at 1.
    pose proof (tryCompletion_awaits request sel w) as Htry.
    destruct (tryCompletion request sel w) as [[resp|e] w1]; cbn [snd] in Htry.
    + cbn. lia.
    + destruct (pe_retryable _ && _); [|cbn; lia].
      unfold bind at 1.
      pose proof (onRouter_awaits
                    (Router.getNextProvider clock (req_model request) (provider sel)) w1)
        as Hr.
      destruct (onRouter _ w1) as [[[sel'|]|e'] w2]; cbn [snd] in Hr;
        try (cbn; lia).
      specialize (IH (S attempts) (Some sel')
                    (Some (normalizeToProviderError e (provider sel))) w2). lia.
Qed.

(** X18.  [handleCompletion] makes at most [maxRetries] attempts: it
    passes at most 3 awaits per attempt, [3 * maxRetries] in all; with
    [maxRetries = 0] it makes none and throws the [service_unavailable]
    error 'All providers failed' as soon as a provider is selected. *)
Theorem attempts_are_bounded (request : ChatCompletionRequest) (w : World) :
  (w_awaits (handleCompletion request w).2 ≤ w_awaits w + 3 * maxRetries)%nat
  ∧ (maxRetries = 0%nat →
     ∀ cs sel w1,
       RouterSpec.resolved (router w) (req_model request) = Return cs →
       onRouter (Router.selectProvider clock cs) w = (Some sel, w1) →
       handleCompletion request w
       = (Failed (JsProviderError
                    (mkProviderError (req_model request) None "All providers failed"
                                     service_unavailable false)), w1)).
Proof.
  split.
  - unfold RequestHandler.handleCompletion. unfold bind at 1.
    rewrite onRouter_resolve.
    destruct (RouterSpec.resolved (router w) (req_model request)) as [cs|e];
      [|cbn; lia].
    unfold bind at 1.
    pose proof (onRouter_awaits (Router.selectProvider clock cs) w) as Hr.
    destruct (onRouter _ w) as [[sel|] w1]; cbn [snd] in Hr; [|cbn; lia].
    pose proof (completionLoop_awaits maxRetries request 0 (Some sel) None w1). lia.
  - intros Hz cs sel w1 Hres Hsel.
    unfold RequestHandler.handleCompletion, bind.
    rewrite onRouter_resolve, Hres, Hsel. rewrite Hz. done.
Qed.

End WithEnvironment.
End RequestHandlerProperties.

(** ** Token store, auth manager and dashboard *)

Module TokenStoreProperties.
Import AuthManagerSpec AuthManagerFacts AuthManagerRuns.

Section WithFs.
Variable writeFile : nat -> option JsThrown.

Lemma storedToken_saved p tokenSet s q :
  storedToken (FileTokenStore.saveToken writeFile p tokenSet s).2 q
  = if decide (q = p) then Some tokenSet else storedToken s q.
Proof.
  rewrite saveToken_run. unfold withToken.
  destruct (writeFile _); cbn; (rewrite storedToken_initialized by done); cbn;
    unfold storedToken; (destruct (decide (q = p)) as [->|];
      [by rewrite lookup_insert_eq|by rewrite lookup_insert_ne]).
Qed.

Lemma deleteToken_run p s :
  FileTokenStore.deleteToken writeFile p s =
  match writeFile (FileTokenStore.writes s) with
  | Some e =>
      (Throw e, FileTokenStore.mk (delete p (FileTokenStore.tokens (loaded s))) true
                  (FileTokenStore.file (loaded s)) (S (FileTokenStore.writes s)))
  | None =>
      (Return tt, FileTokenStore.mk (delete p (FileTokenStore.tokens (loaded s))) true
                    (FileTokenStore.Tokens (delete p (FileTokenStore.tokens (loaded s))))
                    (S (FileTokenStore.writes s)))
  end.
Proof.
  unfold FileTokenStore.deleteToken, bind, modify, FileTokenStore.persist.
  pose proof (loaded_initialized s) as Hi. pose proof (loaded_writes s) as Hw.
  unfold loaded in *. destruct (FileTokenStore.initialize s) as [u s0]. cbn in *.
  rewrite Hi, Hw. by destruct (writeFile (FileTokenStore.writes s)).
Qed.

Lemma storedToken_deleted p s q :
  storedToken (FileTokenStore.deleteToken writeFile p s).2 q
  = if decide (q = p) then None else storedToken s q.
Proof.
  rewrite deleteToken_run.
  destruct (writeFile _); cbn; (rewrite storedToken_initialized by done); cbn;
    unfold storedToken; (destruct (decide (q = p)) as [->|];
      [by rewrite lookup_delete_eq|by rewrite lookup_delete_ne]).
Qed.

(** X19.  What [saveToken] stores, [getToken] and [getAllTokens] return,
    and after [deleteToken], [getToken] returns null; the tokens of the
    other providers are untouched.  This holds whether or not the writes
    to the file succeed: the map in memory is changed before the write. *)
Theorem token_store_round_trip (s : FileTokenStore.t) (p : string)
    (tokenSet : TokenSet) :
  let s1 := (FileTokenStore.saveToken writeFile p tokenSet s).2 in
  let s2 := (FileTokenStore.deleteToken writeFile p s1).2 in
  (FileTokenStore.getToken p s1).1 = Some tokenSet
  ∧ (FileTokenStore.getAllTokens s1).1 !! p = Some tokenSet
  ∧ (FileTokenStore.getToken p s2).1 = None
  ∧ ∀ q, q ≠ p →
      (FileTokenStore.getToken q s1).1 = (FileTokenStore.getToken q s).1
      ∧ (FileTokenStore.getToken q s2).1 = (FileTokenStore.getToken q s).1.
Proof.
  intros s1 s2. subst s1 s2. rewrite !getToken_run. cbn [fst].
  rewrite !storedToken_deleted, !storedToken_saved. rewrite !decide_True by done.
  split; [done|]. split.
  - unfold FileTokenStore.getAllTokens, bind, get, ret.
    pose proof (storedToken_saved p tokenSet s p) as H. rewrite decide_True in H by done.
    unfold storedToken, loaded in H.
    by destruct (FileTokenStore.initialize _).
  - split; [done|]. intros q Hq. rewrite !getToken_run. cbn [fst].
    rewrite storedToken_deleted, !storedToken_saved. by rewrite !decide_False by done.
Qed.

End WithFs.
End TokenStoreProperties.

Module AuthManagerProperties.
Import AuthManagerSpec AuthManagerFacts AuthManagerRuns TokenStoreProperties.

Section WithEnvironment.
Variable clock : nat -> Z.
Variable writeFile : nat -> option JsThrown.
Variable axios_post : AuthManager.RefreshRequest -> AuthManager.TokenResponse + string.
Variable device_post : nat -> AuthManager.DeviceRequest -> AuthManager.DeviceReply.

Lemma isTokenExpired_run p s k :
  FileTokenStore.isTokenExpired clock p (mkTimed s k)
  = match storedToken s p with
    | None => (true, mkTimed (loaded s) k)
    | Some tokenSet =>
        (bool_decide (clock k >= expiresAt tokenSet), mkTimed (loaded s) (S k))
    end.
Proof.
  unfold FileTokenStore.isTokenExpired, storedToken, loaded. run_m.
  by destruct (FileTokenStore.tokens (FileTokenStore.initialize s).2 !! p).
Qed.

Lemma storedToken_loaded s p : storedToken (loaded s) p = storedToken s p.
Proof. unfold storedToken. by rewrite loaded_idem. Qed.

(** [getValidToken] in closed form. *)
Lemma getValidToken_run (a : AuthManager.t) (k : nat) (p : string) :
  AuthManager.getValidToken clock writeFile axios_post p (mkTimed a k)
  = let a1 := withStore (loaded (AuthManager.tokenStore a)) a in
    let noRefresh :=
      Throw (JsError ("Token expired for provider " +:+ p
               +:+ " and no refresh token available. Please re-authenticate.")) in
    match storedToken (AuthManager.tokenStore a) p with
    | None => (noRefresh, mkTimed a1 k)
    | Some token =>
        if bool_decide (clock k >= expiresAt token) then
          if negb (AuthManager.missing (refreshToken token))
          then AuthManager.refreshToken clock writeFile axios_post p (mkTimed a1 (S k))
          else (noRefresh, mkTimed a1 (S k))
        else (Return token, mkTimed a1 (S k))
    end.
Proof.
  unfold AuthManager.getValidToken.
  unfold bind at 1. unfold AuthManager.onTimedStore. cbn [obj ticks].
  rewrite isTokenExpired_run. cbv zeta.
  destruct (storedToken (AuthManager.tokenStore a) p) as [token|] eqn:Hst;
    cbn [fst snd obj ticks].
  - case_bool_decide as Hge.
    + unfold bind. rewrite onStore_getToken.
      cbn [obj ticks AuthManager.tokenStore]. rewrite storedToken_loaded, Hst, loaded_idem.
      destruct token as [tk_a tk_r tk_e tk_p].
      cbn [AuthManager.providerConfigs refreshToken]. unfold withStore, ret.
      by destruct (negb (AuthManager.missing tk_r)).
    + unfold bind. rewrite onStore_getToken.
      cbn [obj ticks AuthManager.tokenStore]. by rewrite storedToken_loaded, Hst, loaded_idem.
  - unfold bind. rewrite onStore_getToken.
    cbn [obj ticks AuthManager.tokenStore]. by rewrite storedToken_loaded, Hst, loaded_idem.
Qed.

(** X21.  [getValidToken] returns a stored token whose [expiresAt] is
    after the reading of the clock as it is: nothing is posted, nothing is
    written, the provider's configuration is not consulted (a disabled or
    unknown provider is served too); the store is only initialized. *)
Theorem getValidToken_serves_unexpired (a : AuthManager.t) (k : nat) (p : string)
    (token : TokenSet) :
  storedToken (AuthManager.tokenStore a) p = Some token →
  clock k < expiresAt token →
  AuthManager.getValidToken clock writeFile axios_post p (mkTimed a k)
  = (Return token, mkTimed (withStore (loaded (AuthManager.tokenStore a)) a) (S k)).
Proof.
  intros Hst Hlt. rewrite getValidToken_run. cbv zeta. rewrite Hst.
  by rewrite bool_decide_false by lia.
Qed.

(** X22.  When the store has no token for the provider, or an expired one
    without a refresh token, [getValidToken] throws 'Token expired for
    provider p and no refresh token available. Please re-authenticate.';
    the stored token, if any, is kept. *)
Theorem getValidToken_without_refresh_token (a : AuthManager.t) (k : nat)
    (p : string) :
  (storedToken (AuthManager.tokenStore a) p = None
   ∨ ∃ token, storedToken (AuthManager.tokenStore a) p = Some token
              ∧ clock k >= expiresAt token
              ∧ AuthManager.missing (refreshToken token) = true) →
  ∃ k',
    AuthManager.getValidToken clock writeFile axios_post p (mkTimed a k)
    = (Throw (JsError ("Token expired for provider " +:+ p
               +:+ " and no refresh token available. Please re-authenticate.")),
       mkTimed (withStore (loaded (AuthManager.tokenStore a)) a) k')
    ∧ storedToken (loaded (AuthManager.tokenStore a)) p
      = storedToken (AuthManager.tokenStore a) p.
Proof.
  intros H. rewrite getValidToken_run. cbv zeta.
  destruct H as [Hn|(token & Hst & Hge & Hm)].
  - rewrite Hn. exists k. split; [done|]. by rewrite storedToken_loaded.
  - rewrite Hst. rewrite bool_decide_true by lia. rewrite Hm. cbn [negb].
    exists (S k). split; [done|]. by rewrite storedToken_loaded.
Qed.

Lemma pollLoop_pending p deviceCode config n :
  ∀ remaining attempts (w : Timed AuthManager.t),
  (n ≤ remaining)%nat →
  (∀ i, (attempts < i ≤ attempts + n)%nat →
        keepPolling (device_post i (deviceRequest config deviceCode))) →
  AuthManager.pollLoop clock writeFile device_post remaining attempts p deviceCode config w
  = AuthManager.pollLoop clock writeFile device_post (remaining - n) (attempts + n)
      p deviceCode config w.
Proof.
  induction n as [|n IH]; intros remaining attempts w Hle Hpoll.
  - by rewrite Nat.sub_0_r, Nat.add_0_r.
  - destruct remaining as [|remaining]; [lia|].
    cbn [AuthManager.pollLoop].
    destruct (Hpoll (S attempts)) as [msg [Hr|Hr]]; [lia| |];
      unfold deviceRequest in Hr; rewrite Hr.
    + rewrite bool_decide_true by done.
      rewrite IH; [|lia|intros i Hi; apply Hpoll; lia].
      by replace (S attempts + n)%nat with (attempts + S n)%nat by lia.
    + rewrite bool_decide_false by done. rewrite bool_decide_true by done.
      rewrite IH; [|lia|intros i Hi; apply Hpoll; lia].
      by replace (S attempts + n)%nat with (attempts + S n)%nat by lia.
Qed.

(** X23.  If the token endpoint answers [authorization_pending] or
    [slow_down] to each of the first 120 polls, [completeDeviceFlow]
    throws 'Device flow timed out for p' after them, without touching the
    token store or reading the clock. *)
Theorem device_flow_times_out (a : AuthManager.t) (k : nat) (p deviceCode : string)
    (config : ProviderConfig) :
  refreshable a p config →
  (∀ i, (1 ≤ i ≤ 120)%nat →
        keepPolling (device_post i (deviceRequest config deviceCode))) →
  AuthManager.completeDeviceFlow clock writeFile device_post p deviceCode (mkTimed a k)
  = (Throw (JsError ("Device flow timed out for " +:+ p)), mkTimed a k).
Proof.
  intros (Hc & Hen & Hte & Hci) Hpoll. unfold AuthManager.completeDeviceFlow.
  unfold bind. rewrite getProviderConfig_run. cbn [obj]. rewrite Hc, Hen. cbn [negb].
  rewrite Hte, Hci. cbn [orb].
  rewrite (pollLoop_pending p deviceCode config 120); [done|lia|].
  intros i Hi. apply Hpoll. lia.
Qed.

(** X24.  If the n-th poll (n at most 120) is the first that is not
    answered [authorization_pending] or [slow_down] and it grants a token,
    and the write succeeds, [completeDeviceFlow] returns and stores a
    token set with the granted access and refresh tokens and
    [expiresAt = now + expires_in * 1000]; the file holds the store's
    tokens; the tokens of the other providers and the configuration are
    untouched. *)
Theorem device_flow_stores_token (a : AuthManager.t) (k : nat) (p deviceCode : string)
    (config : ProviderConfig) (n : nat) (response : AuthManager.TokenResponse) :
  refreshable a p config →
  (1 ≤ n ≤ 120)%nat →
  (∀ i, (1 ≤ i < n)%nat →
        keepPolling (device_post i (deviceRequest config deviceCode))) →
  device_post n (deviceRequest config deviceCode) = AuthManager.Granted response →
  writeFile (FileTokenStore.writes (AuthManager.tokenStore a)) = None →
  let tokenSet :=
    mkTokenSet (AuthManager.access_token response) (AuthManager.refresh_token response)
               (clock k + AuthManager.expires_in response * 1000) p in
  ∃ a',
    AuthManager.completeDeviceFlow clock writeFile device_post p deviceCode (mkTimed a k)
    = (Return tokenSet, mkTimed a' (S k))
    ∧ storedToken (AuthManager.tokenStore a') p = Some tokenSet
    ∧ FileTokenStore.file (AuthManager.tokenStore a')
      = FileTokenStore.Tokens (FileTokenStore.tokens (AuthManager.tokenStore a'))
    ∧ (∀ q, q ≠ p → storedToken (AuthManager.tokenStore a') q
                    = storedToken (AuthManager.tokenStore a) q)
    ∧ AuthManager.providerConfigs a' = AuthManager.providerConfigs a.
Proof.
  intros (Hc & Hen & Hte & Hci) Hn Hpoll Hgrant Hw tokenSet.
  unfold AuthManager.completeDeviceFlow.
  unfold bind at 1. rewrite getProviderConfig_run. cbn [obj]. rewrite Hc, Hen. cbn [negb].
  rewrite Hte, Hci. cbn [orb].
  rewrite (pollLoop_pending p deviceCode config (n - 1)); [|lia|intros i Hi; apply Hpoll; lia].
  replace (120 - (n - 1))%nat with (S (120 - n)) by lia.
  cbn [AuthManager.pollLoop]. replace (S (0 + (n - 1))) with n by lia.
  unfold deviceRequest in Hgrant. rewrite Hgrant.
  run_m. unfold AuthManager.onStore. cbn [obj ticks]. fold tokenSet.
  pose proof (storedToken_saved writeFile p tokenSet (AuthManager.tokenStore a)) as Hst.
  pose proof (saveToken_run writeFile p tokenSet (AuthManager.tokenStore a)) as Hsave.
  rewrite Hw in Hsave.
  destruct (FileTokenStore.saveToken writeFile p tokenSet (AuthManager.tokenStore a))
    as [res s1]. injection Hsave as -> ->. cbn [snd] in Hst.
  eexists. split; [reflexivity|]. cbn [AuthManager.tokenStore AuthManager.providerConfigs].
  split; [by rewrite Hst, decide_True|]. split; [done|]. split; [|done].
  intros q Hq. by rewrite Hst, decide_False.
Qed.

End WithEnvironment.
End AuthManagerProperties.

Module DashboardRoutesProperties.
Import AuthManagerSpec AuthManagerFacts AuthManagerRuns TokenStoreProperties
       AuthManagerProperties.

Section WithEnvironment.
Variable clock : nat -> Z.
Variable writeFile : nat -> option JsThrown.
Variable axios_post : AuthManager.RefreshRequest -> AuthManager.TokenResponse + string.

(** X25.  A token posted to [POST /tokens/:provider], the write
    succeeding, is answered with status 200 and is then served by
    [getValidToken] as long as the clock is before its expiry,
    [expiresIn] seconds after the post, 3600 when [expiresIn] is absent or
    0; from the expiry on [getValidToken] throws, as a posted token has no
    refresh token. *)
Theorem posted_token_is_served_until_it_expires (a : AuthManager.t) (k : nat)
    (p : string) (body : DashboardRoutes.TokenBody) :
  writeFile (FileTokenStore.writes (AuthManager.tokenStore a)) = None →
  let lifetime :=
    match DashboardRoutes.tb_expiresIn body with
    | Some n => if bool_decide (n = 0) then 3600 else n
    | None => 3600
    end in
  let tokenSet :=
    mkTokenSet (DashboardRoutes.tb_accessToken body) None
               (clock k + lifetime * 1000) p in
  ∃ a',
    DashboardRoutes.postToken clock writeFile p body (mkTimed a k)
    = ((200, DashboardRoutes.Success p), mkTimed a' (S k))
    ∧ ∀ j,
        (clock j < clock k + lifetime * 1000 →
         (AuthManager.getValidToken clock writeFile axios_post p (mkTimed a' j)).1
         = Return tokenSet)
        ∧ (clock j >= clock k + lifetime * 1000 →
           (AuthManager.getValidToken clock writeFile axios_post p (mkTimed a' j)).1
           = Throw (JsError ("Token expired for provider " +:+ p
               +:+ " and no refresh token available. Please re-authenticate."))).
Proof.
  intros Hw lifetime tokenSet.
  assert (Hl : DashboardRoutes.expiresInOrDefault (DashboardRoutes.tb_expiresIn body)
               = lifetime).
  { unfold DashboardRoutes.expiresInOrDefault, lifetime.
    destruct (DashboardRoutes.tb_expiresIn body) as [n|]; [|done].
    destruct (Z.eqb_spec n 0); [by rewrite bool_decide_true|by rewrite bool_decide_false]. }
  unfold DashboardRoutes.postToken. run_m. rewrite Hl. fold tokenSet.
  unfold AuthManager.onStore. cbn [obj ticks].
  pose proof (storedToken_saved writeFile p tokenSet (AuthManager.tokenStore a) p) as Hst.
  rewrite decide_True in Hst by done.
  pose proof (saveToken_run writeFile p tokenSet (AuthManager.tokenStore a)) as Hsave.
  rewrite Hw in Hsave.
  destruct (FileTokenStore.saveToken writeFile p tokenSet (AuthManager.tokenStore a))
    as [res s1]. injection Hsave as -> ->. cbn [snd] in Hst.
  eexists. split; [reflexivity|].
  intros j. split.
  - intros Hlt. rewrite getValidToken_run. cbv zeta.
    cbn [AuthManager.tokenStore]. rewrite Hst.
    rewrite bool_decide_false by (cbn; lia). done.
  - intros Hge. rewrite getValidToken_run. cbv zeta.
    cbn [AuthManager.tokenStore]. rewrite Hst.
    rewrite bool_decide_true by (cbn; lia). done.
Qed.

End WithEnvironment.
End DashboardRoutesProperties.

(** ** Usage tracker *)

Module UsageTrackerProperties.
Import UsageTrackerSpec.

Lemma plus_add a b : UsageTracker.plus Z.add a b = a + b.
Proof. unfold UsageTracker.plus. by destruct (_ && _). Qed.

Lemma plus_exact rounded a b :
  0 <= a → 0 <= b → a + b <= 2 ^ 53 → UsageTracker.plus rounded a b = a + b.
Proof.
  intros Ha Hb Hab. unfold UsageTracker.plus, UsageTracker.heldExactly.
  rewrite !bool_decide_true by lia. done.
Qed.

Lemma addTo_add entry usage :
  UsageTracker.addTo Z.add entry usage
  = UsageTracker.mkModelUsage
      (UsageTracker.mu_requestCount entry + 1)
      (UsageTracker.mu_promptTokens entry + promptTokens usage)
      (UsageTracker.mu_completionTokens entry + completionTokens usage)
      (UsageTracker.mu_totalTokens entry + totalTokens usage).
Proof. destruct usage. cbn. by rewrite !plus_add. Qed.

Lemma sumOf_insert f key e m :
  sumOf f (<[key := e]> m) = f e + sumOf f (delete key m).
Proof.
  unfold sumOf. rewrite <- insert_delete_eq.
  rewrite map_fold_insert_L; [done| |apply lookup_delete_eq].
  intros. lia.
Qed.

Lemma sumOf_lookup f key m :
  sumOf f m = match m !! key with Some e => f e | None => 0 end + sumOf f (delete key m).
Proof.
  destruct (m !! key) as [e|] eqn:E.
  - unfold sumOf. rewrite (map_fold_delete_L _ _ key e m); [done| |done].
    intros. lia.
  - by rewrite delete_id.
Qed.

Lemma sumOf_bump f δ key usage m :
  f (UsageTracker.mkModelUsage 0 0 0 0) = 0 →
  (∀ e, f (UsageTracker.addTo Z.add e usage) = f e + δ) →
  sumOf f (UsageTracker.bump Z.add key usage m) = sumOf f m + δ.
Proof.
  intros H0 Hadd. unfold UsageTracker.bump. rewrite (sumOf_lookup f key m).
  destruct (m !! key) as [e|] eqn:E.
  - rewrite E. cbn. rewrite sumOf_insert, Hadd. lia.
  - rewrite lookup_insert_eq. cbn. rewrite insert_insert_eq, sumOf_insert, Hadd, H0. lia.
Qed.

(** With exact additions, a call of [recordUsage] keeps the totals and the
    entries in agreement. *)
Lemma consistent_recordUsage provider model usage t :
  consistent t → consistent (UsageTracker.recordUsage Z.add provider model usage t).2.
Proof.
  unfold consistent, UsageTracker.recordUsage, modify. destruct usage as [pt ct tt]. cbn.
  intros (H1 & H2 & H3 & H4 & H5 & H6 & H7 & H8).
  rewrite !(sumOf_bump UsageTracker.mu_requestCount 1),
    !(sumOf_bump UsageTracker.mu_promptTokens pt),
    !(sumOf_bump UsageTracker.mu_completionTokens ct),
    !(sumOf_bump UsageTracker.mu_totalTokens tt)
    by (done || (intros e; by rewrite addTo_add)).
  rewrite !plus_add. lia.
Qed.

Lemma bump_lookup rounded key usage m q :
  UsageTracker.bump rounded key usage m !! q
  = if decide (q = key)
    then Some (UsageTracker.addTo rounded
                 (default (UsageTracker.mkModelUsage 0 0 0 0) (m !! key)) usage)
    else m !! q.
Proof.
  unfold UsageTracker.bump. destruct (decide (q = key)) as [->|Hne].
  - rewrite lookup_insert_eq. destruct (m !! key) eqn:E; [by rewrite E|].
    by rewrite lookup_insert_eq.
  - rewrite lookup_insert_ne by done. destruct (m !! key); [done|].
    by rewrite lookup_insert_ne.
Qed.

Lemma total_app l1 l2 : total (l1 ++ l2) = total l1 + total l2.
Proof. unfold total. induction l1 as [|x l1 IH]; cbn; [done|]. rewrite IH. lia. Qed.

Lemma total_singleton x : total [x] = x.
Proof. unfold total. cbn. lia. Qed.

Lemma total_nonneg l : Forall (Z.le 0) l → 0 <= total l.
Proof. unfold total. induction 1; cbn; lia. Qed.

Lemma entryOf_snoc usages usage :
  entryOf (usages ++ [usage])%list
  = Some (UsageTracker.addTo Z.add
            (default (UsageTracker.mkModelUsage 0 0 0 0) (entryOf usages)) usage).
Proof.
  rewrite addTo_add. unfold entryOf.
  destruct usages as [|u us].
  - cbn. by rewrite !Z.add_0_r.
  - cbn [app]. change (u :: (us ++ [usage])%list) with ((u :: us) ++ [usage])%list.
    rewrite !fmap_app, !total_app, length_app.
    cbn [default from_option id UsageTracker.mu_requestCount
      UsageTracker.mu_promptTokens UsageTracker.mu_completionTokens
      UsageTracker.mu_totalTokens length fmap list_fmap].
    unfold total at 2 4 6. cbn [foldr]. f_equal. f_equal; lia.
Qed.

Lemma withinExactRange_app l1 l2 :
  withinExactRange (l1 ++ l2) → withinExactRange l1 ∧ withinExactRange l2.
Proof.
  unfold withinExactRange. rewrite Forall_app, length_app, !fmap_app, !total_app.
  intros ([F1 F2] & Hn & Hp & Hc & Ht).
  assert (N : ∀ (f : Usage → Z) l,
            Forall (fun u => 0 <= promptTokens u ∧ 0 <= completionTokens u
                             ∧ 0 <= totalTokens u) l →
            (∀ u, 0 <= promptTokens u ∧ 0 <= completionTokens u ∧ 0 <= totalTokens u
                  → 0 <= f u) →
            0 <= total (f <$> l)).
  { intros f l Hl Hf. apply total_nonneg. apply Forall_fmap.
    eapply Forall_impl; [exact Hl|]. intros u Hu. by apply Hf. }
  pose proof (N promptTokens l1 F1 ltac:(tauto)).
  pose proof (N completionTokens l1 F1 ltac:(tauto)).
  pose proof (N totalTokens l1 F1 ltac:(tauto)).
  pose proof (N promptTokens l2 F2 ltac:(tauto)).
  pose proof (N completionTokens l2 F2 ltac:(tauto)).
  pose proof (N totalTokens l2 F2 ltac:(tauto)).
  repeat split; try done; lia.
Qed.

(** The sum of a counter over the calls of one key is between 0 and the
    sum over all the calls. *)
Lemma total_filter (f : Usage → Z) (P : string * string * Usage → Prop)
    `{∀ c, Decision (P c)} recorded :
  Forall (fun u => 0 <= f u) recorded.*2 →
  0 <= total (f <$> (filter P recorded).*2) <= total (f <$> recorded.*2).
Proof.
  unfold total. induction recorded as [|c recorded IH]; [cbn; lia|].
  intros Hf. rewrite fmap_cons in Hf. apply Forall_cons in Hf as [Hc Hf].
  specialize (IH Hf). rewrite filter_cons.
  destruct (decide (P c)); cbn [fmap list_fmap foldr] in *; lia.
Qed.

Lemma length_filter_le (P : string * string * Usage → Prop)
    `{∀ c, Decision (P c)} (recorded : list (string * string * Usage)) :
  (length (filter P recorded).*2 ≤ length recorded)%nat.
Proof. rewrite length_fmap. apply length_filter. Qed.

(** Within the exact range, what [addTo] adds to the entry of a key is
    added exactly. *)
Lemma addTo_exact rounded (P : string * string * Usage → Prop)
    `{∀ c, Decision (P c)} recorded usage :
  withinExactRange (recorded.*2 ++ [usage]) →
  UsageTracker.addTo rounded
    (default (UsageTracker.mkModelUsage 0 0 0 0) (entryOf (filter P recorded).*2)) usage
  = UsageTracker.addTo Z.add
      (default (UsageTracker.mkModelUsage 0 0 0 0) (entryOf (filter P recorded).*2)) usage.
Proof.
  intros Hr. pose proof Hr as (Hf & Hn & Hp & Hc & Ht).
  rewrite Forall_app, Forall_singleton in Hf. destruct Hf as [Hf (Hu1 & Hu2 & Hu3)].
  rewrite length_app, length_fmap in Hn. rewrite !fmap_app, !total_app in Hp, Hc, Ht.
  unfold total at 2 in Hp. unfold total at 2 in Hc. unfold total at 2 in Ht.
  cbn in Hn, Hp, Hc, Ht.
  assert (F1 : Forall (fun u => 0 <= promptTokens u) recorded.*2)
    by (eapply Forall_impl; [exact Hf|]; by intros u (?&?&?)).
  assert (F2 : Forall (fun u => 0 <= completionTokens u) recorded.*2)
    by (eapply Forall_impl; [exact Hf|]; by intros u (?&?&?)).
  assert (F3 : Forall (fun u => 0 <= totalTokens u) recorded.*2)
    by (eapply Forall_impl; [exact Hf|]; by intros u (?&?&?)).
  pose proof (total_filter promptTokens P recorded F1).
  pose proof (total_filter completionTokens P recorded F2).
  pose proof (total_filter totalTokens P recorded F3).
  pose proof (length_filter_le P recorded).
  rewrite addTo_add. destruct usage as [pt ct tt]. cbn in *.
  unfold entryOf. destruct ((filter P recorded).*2) as [|u0 us] eqn:E.
  - cbn. rewrite !plus_exact by lia. done.
  - cbn [default from_option id UsageTracker.mu_requestCount
      UsageTracker.mu_promptTokens UsageTracker.mu_completionTokens
      UsageTracker.mu_totalTokens].
    rewrite !plus_exact by lia. done.
Qed.

(** Within the exact range, [recordUsage] adds exactly. *)
Lemma recordUsage_exact rounded provider model usage t recorded :
  holds t recorded →
  withinExactRange (recorded.*2 ++ [usage]) →
  UsageTracker.recordUsage rounded provider model usage t
  = UsageTracker.recordUsage Z.add provider model usage t.
Proof.
  intros (H1 & H2 & H3 & H4 & Hp & Hm) Hr.
  pose proof (addTo_exact rounded (λ c, c.1.1 = provider) recorded usage Hr) as Ep.
  pose proof (addTo_exact rounded (λ c, c.1.2 = model) recorded usage Hr) as Em.
  pose proof Hr as (Hf & Hn & Hpt & Hct & Htt).
  rewrite Forall_app, Forall_singleton in Hf. destruct Hf as [Hf (Hu1 & Hu2 & Hu3)].
  rewrite length_app, length_fmap in Hn. rewrite !fmap_app, !total_app in Hpt, Hct, Htt.
  unfold total at 2 in Hpt. unfold total at 2 in Hct. unfold total at 2 in Htt.
  cbn in Hn, Hpt, Hct, Htt.
  assert (N1 : 0 <= total (promptTokens <$> recorded.*2)).
  { apply total_nonneg, Forall_fmap. eapply Forall_impl; [exact Hf|]. by intros u (?&?&?). }
  assert (N2 : 0 <= total (completionTokens <$> recorded.*2)).
  { apply total_nonneg, Forall_fmap. eapply Forall_impl; [exact Hf|]. by intros u (?&?&?). }
  assert (N3 : 0 <= total (totalTokens <$> recorded.*2)).
  { apply total_nonneg, Forall_fmap. eapply Forall_impl; [exact Hf|]. by intros u (?&?&?). }
  unfold UsageTracker.recordUsage, modify. destruct usage as [pt ct tt].
  cbn [promptTokens completionTokens totalTokens] in *.
  f_equal. rewrite H1, H2, H3, H4.
  rewrite !plus_add, !plus_exact by lia.
  f_equal.
  - apply map_eq. intros q. rewrite !bump_lookup. destruct (decide _); [|done].
    by rewrite Hp, Ep.
  - apply map_eq. intros q. rewrite !bump_lookup. destruct (decide _); [|done].
    by rewrite Hm, Em.
Qed.

Lemma holds_recordUsage provider model usage t recorded :
  holds t recorded →
  holds (UsageTracker.recordUsage Z.add provider model usage t).2
        (recorded ++ [(provider, model, usage)]).
Proof.
  intros (H1 & H2 & H3 & H4 & Hp & Hm).
  unfold holds, UsageTracker.recordUsage, modify. destruct usage as [pt ct tt].
  cbn [snd UsageTracker.totalRequests UsageTracker.totalPromptTokens
       UsageTracker.totalCompletionTokens UsageTracker.totalTokens
       UsageTracker.byProvider UsageTracker.byModel].
  rewrite !plus_add, H1, H2, H3, H4, length_app, !fmap_app, !total_app.
  cbn [fmap list_fmap length snd promptTokens completionTokens totalTokens].
  rewrite !total_singleton.
  split; [lia|]. split; [lia|]. split; [lia|]. split; [lia|].
  split.
  - intros p. rewrite bump_lookup.
    rewrite filter_app, fmap_app. rewrite filter_cons, filter_nil. cbn [fst snd].
    destruct (decide (p = provider)) as [->|Hne].
    + rewrite decide_True by done. cbn [fmap list_fmap snd].
      by rewrite entryOf_snoc, Hp.
    + rewrite decide_False by congruence. cbn. by rewrite app_nil_r, Hp.
  - intros m. rewrite bump_lookup.
    rewrite filter_app, fmap_app. rewrite filter_cons, filter_nil. cbn [fst snd].
    destruct (decide (m = model)) as [->|Hne].
    + rewrite decide_True by done. cbn [fmap list_fmap snd].
      by rewrite entryOf_snoc, Hm.
    + rewrite decide_False by congruence. cbn. by rewrite app_nil_r, Hm.
Qed.

Lemma holds_zero now : holds (UsageTracker.mk 0 0 0 0 ∅ ∅ now) [].
Proof. unfold holds. cbn. repeat split; intros; apply lookup_empty. Qed.

Lemma consistent_zero now : consistent (UsageTracker.mk 0 0 0 0 ∅ ∅ now).
Proof. unfold consistent, sumOf. cbn. rewrite !map_fold_empty. done. Qed.

Section WithClock.
Variable rounded : Z -> Z -> Z.
Variable clock : nat -> Z.

(** A run within the exact range keeps the closed form and the
    agreement. *)
Lemma events_exact es :
  ∀ w recorded,
  holds (obj w) recorded → consistent (obj w) →
  withinExactRange (recorded.*2 ++ recordedIn es) →
  let t := obj (events rounded clock es w).2 in
  holds t (sinceResetFrom recorded es) ∧ consistent t.
Proof.
  induction es as [|e es IH]; intros w recorded Hh Hc Hr t; subst t; [done|].
  destruct e as [p0 m0 u0|]; cbn [events sinceResetFrom recordedIn] in *;
    unfold bind; cbn [event].
  - assert (Hr1 : withinExactRange (recorded.*2 ++ [u0])).
    { change (u0 :: recordedIn es) with ([u0] ++ recordedIn es)%list in Hr.
      rewrite app_assoc in Hr. by apply withinExactRange_app in Hr as [? _]. }
    rewrite (recordUsage_exact rounded p0 m0 u0 (obj w) recorded Hh Hr1).
    apply IH.
    + by apply holds_recordUsage.
    + by apply consistent_recordUsage.
    + rewrite fmap_app. cbn. by rewrite <- app_assoc.
  - unfold UsageTracker.reset. run_m. apply IH.
    + apply holds_zero.
    + apply consistent_zero.
    + by apply withinExactRange_app in Hr as [_ ?].
Qed.

(** X26.  After any sequence of [recordUsage] and [reset] on a new
    tracker, with integer token counts that are not negative and, over
    all the calls, a number of calls and sums of prompt, completion and
    total tokens of at most 2^53 (beyond, the additions round): each of
    the four totals equals the sum of the corresponding counter over the
    entries of [byProvider], and over the entries of [byModel]. *)
Theorem totals_match_entries (es : list Event) (k : nat) :
  withinExactRange (recordedIn es) →
  let t := obj (events rounded clock es (fresh clock k)).2 in
  consistent t.
Proof.
  intros Hr t.
  by destruct (events_exact es (fresh clock k) [] (holds_zero _) (consistent_zero _) Hr)
    as [_ H].
Qed.

(** X27.  Under the same bounds, after any sequence of [recordUsage] and
    [reset] on a new tracker, the entry of a provider (of a model) is
    absent when no usage was recorded for it since the last reset, and
    otherwise holds the number of those calls and the sums of their
    prompt, completion and total tokens. *)
Theorem entries_add_up (es : list Event) (k : nat) :
  withinExactRange (recordedIn es) →
  let t := obj (events rounded clock es (fresh clock k)).2 in
  ∀ key,
    UsageTracker.byProvider t !! key
    = entryOf (filter (λ c, c.1.1 = key) (sinceReset es)).*2
    ∧ UsageTracker.byModel t !! key
      = entryOf (filter (λ c, c.1.2 = key) (sinceReset es)).*2.
Proof.
  intros Hr t key.
  destruct (events_exact es (fresh clock k) [] (holds_zero _) (consistent_zero _) Hr)
    as [(_ & _ & _ & _ & Hp & Hm) _].
  split; [apply Hp|apply Hm].
Qed.

End WithClock.
End UsageTrackerProperties.

(** ** Provider adapters *)

Module OpenAIProviderProperties.
Import OpenAIProvider OpenAIProviderSpec.

Lemma string_append_nil_r s : s +:+ "" = s.
Proof.
  induction s as [|c s IH]; [done|].
  change (String c s +:+ "") with (String c (s +:+ "")). by rewrite IH.
Qed.

Lemma string_append_assoc a b c : (a +:+ b) +:+ c = a +:+ b +:+ c.
Proof.
  induction a as [|x a IH]; [done|].
  change ((String x a +:+ b) +:+ c) with (String x ((a +:+ b) +:+ c)).
  by rewrite IH.
Qed.

Lemma splitLines_nonempty s : splitLines s ≠ [].
Proof.
  destruct s as [|c s]; cbn; [done|].
  destruct (Ascii.eqb c "010"); [done|]. by destruct (splitLines s).
Qed.

Lemma removelast_cons_ne {A} (x : A) l : l ≠ [] → removelast (x :: l) = x :: removelast l.
Proof. by destruct l. Qed.

Lemma last_cons_rest {A} (x : A) l : l ≠ [] → last (x :: l) = last l.
Proof. by destruct l. Qed.

Lemma removelast_app_ne {A} (l1 l2 : list A) :
  l2 ≠ [] → removelast (l1 ++ l2) = (l1 ++ removelast l2)%list.
Proof.
  intros H. induction l1 as [|x l1 IH]; [done|].
  cbn [app]. rewrite removelast_cons_ne; [by rewrite IH|].
  destruct l1; [done|done].
Qed.

(** Splitting a text in two: the lines of the first part but the last,
    then the lines of what remains. *)
Lemma splitLines_app a b :
  splitLines (a +:+ b)
  = (removelast (splitLines a) ++ splitLines (default "" (last (splitLines a)) +:+ b))%list.
Proof.
  induction a as [|c a IH]; [done|].
  change (String c a +:+ b) with (String c (a +:+ b)).
  cbn [splitLines]. destruct (Ascii.eqb c "010") eqn:E.
  - rewrite removelast_cons_ne by apply splitLines_nonempty.
    rewrite last_cons_rest by apply splitLines_nonempty.
    cbn [app]. by rewrite IH.
  - rewrite IH.
    pose proof (splitLines_nonempty a) as Hne.
    destruct (splitLines a) as [|first others] eqn:Ea; [done|].
    destruct others as [|second others].
    + cbn [removelast last app default from_option id].
      change ((String c first) +:+ b) with (String c (first +:+ b)).
      cbn [splitLines]. rewrite E.
      pose proof (splitLines_nonempty (first +:+ b)).
      destruct (splitLines (first +:+ b)); done.
    + rewrite (removelast_cons_ne first) by done.
      rewrite (last_cons_rest first) by done.
      cbn [app].
      rewrite (removelast_cons_ne (String c first)) by done.
      rewrite (last_cons_rest (String c first)) by done.
      done.
Qed.

Section WithParsers.
Variable toString : Buffer -> string.
Variable trim : string -> string.
Variable parseSSEChunk : string -> option ProviderStreamChunk.

Lemma processLines_app l1 l2 :
  processLines trim parseSSEChunk (l1 ++ l2)
  = let '(y1, d1) := processLines trim parseSSEChunk l1 in
    if d1 then (y1, true)
    else let '(y2, d2) := processLines trim parseSSEChunk l2 in ((y1 ++ y2)%list, d2).
Proof.
  induction l1 as [|line l1 IH].
  - cbn. by destruct (processLines trim parseSSEChunk l2).
  - cbn [app processLines].
    destruct (bool_decide (trim line = "") || negb (String.prefix "data: " (trim line)));
      [exact IH|].
    case_bool_decide; [done|]. rewrite IH.
    destruct (processLines trim parseSSEChunk l1) as [y1 [|]]; [done|].
    destruct (processLines trim parseSSEChunk l2) as [y2 d2].
    by destruct (parseSSEChunk _).
Qed.

Lemma readBody_cons buffer chunk rest :
  readBody toString trim parseSSEChunk buffer (chunk :: rest)
  = let lines := splitLines (buffer +:+ toString chunk) in
    let '(yielded, finished) := processLines trim parseSSEChunk (removelast lines) in
    if finished then (yielded, true)
    else
      let '(more, finished') :=
        readBody toString trim parseSSEChunk (default "" (last lines)) rest in
      ((yielded ++ more)%list, finished').
Proof. done. Qed.

Lemma readBody_lines rest :
  ∀ buffer chunk,
  readBody toString trim parseSSEChunk buffer (chunk :: rest)
  = processLines trim parseSSEChunk
      (removelast (splitLines (buffer +:+ joined (toString <$> chunk :: rest)))).
Proof.
  induction rest as [|chunk' rest IH]; intros buffer chunk.
  - cbn [readBody joined foldr fmap list_fmap].
    rewrite string_append_nil_r.
    destruct (processLines _ _ _) as [y [|]]; [done|]. by rewrite app_nil_r.
  - rewrite readBody_cons. cbv zeta. rewrite IH.
    change (joined (toString <$> chunk :: chunk' :: rest))
      with (toString chunk +:+ joined (toString <$> chunk' :: rest)).
    rewrite <- string_append_assoc.
    rewrite (splitLines_app (buffer +:+ toString chunk)).
    rewrite removelast_app_ne by apply splitLines_nonempty.
    rewrite processLines_app.
    destruct (processLines _ _ (removelast (splitLines (buffer +:+ toString chunk))))
      as [y [|]]; done.
Qed.

(** X28.  What the OpenAI adapter's stream yields depends only on the
    text that the chunks of the body decode to, each on its own, one after
    the other: the chunks parsed from the [data: ] lines among the
    complete lines of that text, in order, up to the first [data: [DONE]]
    line; what follows the last line feed is not read; an error ending the
    body is thrown, normalized, unless the [DONE] line was met.  So when
    no chunk ends inside a character (the whole body decodes to the same
    text), the stream yields what the body yields when it comes as one
    chunk. *)
Theorem stream_reads_whole_lines (body : list Buffer)
    (failure : option BaseProvider.AxiosError) :
  let text := joined (toString <$> body) in
  let whole := processLines trim parseSSEChunk (removelast (splitLines text)) in
  chatCompletionStream toString trim parseSSEChunk body failure
  = (whole.1,
     if whole.2 then None
     else (fun e => JsProviderError (BaseProvider.normalizeError "openai" e)) <$> failure)
  ∧ (toString (concat body) = text →
     chatCompletionStream toString trim parseSSEChunk body failure
     = chatCompletionStream toString trim parseSSEChunk [concat body] failure).
Proof.
  assert (H : ∀ b, readBody toString trim parseSSEChunk "" b
                   = processLines trim parseSSEChunk
                       (removelast (splitLines (joined (toString <$> b))))).
  { intros [|chunk rest]; [done|]. by rewrite readBody_lines. }
  intros text whole. unfold chatCompletionStream. rewrite !H. fold text. fold whole.
  split; [by destruct whole|].
  intros Hd. cbn [fmap list_fmap joined foldr]. rewrite string_append_nil_r, Hd.
  done.
Qed.

End WithParsers.
End OpenAIProviderProperties.

Module GeminiProviderProperties.
Import GeminiProvider GeminiProviderSpec.

Section WithJSON.
Variable clock : nat -> Z.
Variable JSON_parse : string -> Result JsValue.
Variable JSON_stringify : JsValue -> string.
Variable trim : string -> string.

(** X29.  A Gemini reply, passed through [fromGeminiResponse] and
    [toOpenAIResponse], gives one choice with an assistant message without
    tool calls, whose [finish_reason] is [length] for [MAX_TOKENS],
    [content_filter] for [SAFETY] and [RECITATION], and [stop] for
    anything else, a missing reason or candidate included; the usage is
    the reply's [usageMetadata], zeros when it is absent. *)
Theorem gemini_reply_as_openai_response (data : GeminiProviderResponse)
    (id model : string) (k : nat) :
  let response :=
    (ResponseTransformer.toOpenAIResponse clock id
       (fromGeminiResponse JSON_stringify data) model (mkTimed tt k)).1 in
  ∃ choice,
    resp_choices response = [choice]
    ∧ resp_id response = id
    ∧ resp_model response = model
    ∧ resp_created response = clock k `div` 1000
    ∧ msg_role (choice_message choice) = "assistant"
    ∧ msg_tool_calls (choice_message choice) = None
    ∧ choice_finish_reason choice =
        Some (if bool_decide (firstReason data = Some "MAX_TOKENS") then fr_length
              else if bool_decide (firstReason data = Some "SAFETY")
                      || bool_decide (firstReason data = Some "RECITATION")
                   then fr_content_filter
                   else fr_stop)
    ∧ resp_usage response =
        match usageMetadata data with
        | Some u => mkUsage (promptTokenCount u) (candidatesTokenCount u)
                            (totalTokenCount u)
        | None => mkUsage 0 0 0
        end.
Proof.
  intros response. subst response.
  unfold ResponseTransformer.toOpenAIResponse. run_m.
  eexists. split; [reflexivity|]. cbn.
  split; [done|]. split; [done|]. split; [done|]. split; [done|]. split; [done|].
  split.
  - f_equal. unfold firstReason, mapFinishReason,
      ResponseTransformer.finishReasonOfResponse, orString.
    destruct (head (candidates data) ≫= finishReason) as [s|]; cbn;
      repeat (case_bool_decide; cbn in *; simplify_eq; try done).
  - by destruct (usageMetadata data).
Qed.

Lemma convertLoop_roles messages :
  ∀ contents systemPrefix,
  Forall (parseable JSON_parse) messages →
  ∃ contents' systemPrefix',
    convertLoop JSON_parse messages contents systemPrefix
      = Return ((contents ++ contents')%list, systemPrefix')
    ∧ role <$> contents' = omap convertedRole messages
    ∧ Forall (fun c => parts c ≠ []) contents'
    ∧ (omap convertedRole messages = [] →
       (systemPrefix' = "" ↔
        systemPrefix = "" ∧ Forall (fun m => rm_role m ≠ "system") messages)).
Proof.
  induction messages as [|msg messages IH]; intros contents systemPrefix Hp.
  - exists [], systemPrefix. rewrite app_nil_r. repeat split; try done.
    by intros [? _].
  - apply Forall_cons in Hp as [[Hpa Hpt] Hp].
    cbn [convertLoop omap list_omap].
    case_bool_decide as Hsys.
    { assert (Hcr : convertedRole msg = None).
      { unfold convertedRole. rewrite Hsys. done. }
      rewrite Hcr.
      destruct (IH contents (systemPrefix +:+ default "" (rm_content msg) +:+ LF +:+ LF) Hp)
        as (cs & pre & -> & Hr & Hparts & Hpre).
      exists cs, pre. split; [done|]. split; [done|]. split; [done|].
      intros Hnil. rewrite (Hpre Hnil). split.
      - intros [He _]. exfalso. clear -He.
        destruct systemPrefix; [|discriminate].
        cbn in He. destruct (default "" (rm_content msg)); discriminate.
      - intros [_ Hf]. apply Forall_cons in Hf as [Hf _]. done. }
    case_bool_decide as Huser.
    { assert (Hcr : convertedRole msg = Some "user").
      { unfold convertedRole. rewrite Huser. done. }
      rewrite Hcr.
      match goal with |- context [convertLoop _ messages ?c ?p] =>
        destruct (IH c p Hp) as (cs & pre & Heq & Hr & Hparts & Hpre) end.
      rewrite Heq. eexists (_ :: cs), pre. rewrite <- app_assoc. split; [done|].
      split; [cbn; by rewrite Hr|]. split; [by constructor|]. discriminate. }
    case_bool_decide as Hasst.
    { assert (Hcr : convertedRole msg = Some "model").
      { unfold convertedRole. rewrite Hasst. done. }
      rewrite Hcr.
      destruct (rm_function_call msg) as [fc|] eqn:Efc.
      - destruct (Hpa Hasst fc eq_refl) as [v ->].
        match goal with |- context [convertLoop _ messages ?c ?p] =>
        destruct (IH c p Hp) as (cs & pre & Heq & Hr & Hparts & Hpre) end.
        rewrite Heq. eexists (_ :: cs), pre. rewrite <- app_assoc. split; [done|].
        split; [cbn; by rewrite Hr|]. split; [|discriminate].
        constructor; [|done]. cbn.
        destruct (length _ =? 0)%nat eqn:El; [done|].
        apply Nat.eqb_neq in El. intros Hn. by rewrite Hn in El.
      - match goal with |- context [convertLoop _ messages ?c ?p] =>
        destruct (IH c p Hp) as (cs & pre & Heq & Hr & Hparts & Hpre) end.
        rewrite Heq. eexists (_ :: cs), pre. rewrite <- app_assoc. split; [done|].
        split; [cbn; by rewrite Hr|]. split; [|discriminate].
        constructor; [|done]. cbn.
        destruct (length _ =? 0)%nat eqn:El; [done|].
        apply Nat.eqb_neq in El. intros Hn. by rewrite Hn in El. }
    destruct (bool_decide (rm_role msg = "tool") || bool_decide (rm_role msg = "function"))
      eqn:Etool.
    { assert (Hrole : rm_role msg = "tool" ∨ rm_role msg = "function").
      { apply orb_true_iff in Etool as [H|H]; apply bool_decide_eq_true in H; auto. }
      assert (Hcr : convertedRole msg = Some "user").
      { unfold convertedRole. destruct Hrole as [-> | ->]; done. }
      rewrite Hcr.
      assert (Hresp : ∃ v, match rm_content msg with
                | Some c => if bool_decide (c = "") then Return (JsObject [])
                            else JSON_parse c
                | None => Return (JsObject []) end = Return v).
      { destruct (rm_content msg) as [c|]; [|by eexists].
        destruct (decide (c = "")) as [Hc|Hc].
        - rewrite bool_decide_true by done. by eexists.
        - rewrite bool_decide_false by done. by apply (Hpt Hrole c). }
      destruct Hresp as [v ->].
      match goal with |- context [convertLoop _ messages ?c ?p] =>
        destruct (IH c p Hp) as (cs & pre & Heq & Hr & Hparts & Hpre) end.
      rewrite Heq. eexists (_ :: cs), pre. rewrite <- app_assoc. split; [done|].
      split; [cbn; by rewrite Hr|]. split; [by constructor|]. discriminate. }
    apply orb_false_iff in Etool as [Ht Hf].
    apply bool_decide_eq_false in Ht, Hf.
    assert (Hcr : convertedRole msg = None).
    { unfold convertedRole. by rewrite !bool_decide_false by done. }
    rewrite Hcr.
    destruct (IH contents systemPrefix Hp) as (cs & pre & -> & Hr & Hparts & Hpre).
    exists cs, pre. split; [done|]. split; [done|]. split; [done|].
    intros Hnil. rewrite (Hpre Hnil). split.
    + intros [-> Hall]. split; [done|]. by constructor.
    + intros [-> Hall]. apply Forall_cons in Hall as [_ Hall]. done.
Qed.

(** X30.  When [JSON.parse] succeeds on the function-call arguments and
    the tool results, [convertMessages] returns one content per message of
    role user, assistant, tool or function, in order, with role [model]
    for assistant and [user] for the others; system messages and unknown
    roles give no content of their own; every content has at least one
    part; when no message has one of the four roles, the result is one
    user content if there is a system message, and empty otherwise. *)
Theorem convertMessages_roles (messages : list RequestMessage) :
  Forall (parseable JSON_parse) messages →
  ∃ contents,
    convertMessages JSON_parse trim messages = Return contents
    ∧ Forall (fun c => parts c ≠ []) contents
    ∧ role <$> contents =
        match omap convertedRole messages with
        | [] => if bool_decide (Exists (fun m => rm_role m = "system") messages)
                then ["user"] else []
        | roles => roles
        end.
Proof.
  intros Hp. unfold convertMessages.
  destruct (convertLoop_roles messages [] "" Hp) as (cs & pre & -> & Hr & Hparts & Hpre).
  cbn [app].
  destruct (omap convertedRole messages) as [|r0 roles] eqn:Eroles.
  - apply fmap_nil_inv in Hr. subst cs. cbn [length Nat.eqb].
    rewrite andb_true_r.
    specialize (Hpre eq_refl).
    destruct (decide (Exists (λ m, rm_role m = "system") messages)) as [Hex|Hex].
    + rewrite (bool_decide_true (Exists _ _)) by done.
      rewrite (bool_decide_false (pre = "")).
      2:{ intros Hpre'. apply Hpre in Hpre' as [_ Hall].
          apply Exists_exists in Hex as (m & Hin & Hm).
          by eapply Forall_forall in Hall. }
      cbn. eexists. split; [done|]. split; [by repeat constructor|done].
    + rewrite (bool_decide_false (Exists _ _)) by done.
      rewrite (bool_decide_true (pre = "")).
      2:{ apply Hpre. split; [done|]. apply Forall_forall. intros m Hin Hm.
          apply Hex. apply Exists_exists. by exists m. }
      cbn. by eexists.
  - destruct cs as [|c cs]; [done|]. cbn [length Nat.eqb]. rewrite andb_false_r.
    by exists (c :: cs).
Qed.

End WithJSON.
End GeminiProviderProperties.

(** ** Instances *)

Module RouterInstances.
Import Router RouterSpec RouterProperties.

Lemma resolveModelAlias_sorts_alias_witness :
  ∃ cs, resolveModelAlias "best-model" (mkTimed fresh 0) = (Return cs, mkTimed fresh 0)
        ∧ cs ≡ₚ bestModel
        ∧ StronglySorted byPriority cs
        ∧ ∀ v, filter (λ c, priority c = v) cs = filter (λ c, priority c = v) bestModel.
Proof.
  apply (resolveModelAlias_sorts_alias fresh 0 "best-model"
           (mkModelAlias "best-model" bestModel)).
  vm_compute. reflexivity.
Defined.

Lemma resolveModelAlias_direct_witness :
  resolveModelAlias "openai/gpt-4o" (mkTimed fresh 0)
  = (Return [mkProviderModel "openai" "gpt-4o" 0], mkTimed fresh 0).
Proof.
  destruct (resolveModelAlias_direct fresh 0 "openai/gpt-4o") as [H _].
  - vm_compute. reflexivity.
  - apply (H "openai" "gpt-4o"); reflexivity.
Defined.

Lemma selectProvider_after_ttl_witness :
  selectProvider (fun _ => 100000) bestModel (mkTimed openaiDown 0)
  = (Some (mkProviderModel "openai" "gpt-4" 1), mkTimed (setFailed ∅ openaiDown) 1).
Proof.
  apply (selectProvider_after_ttl (fun _ => 100000) openaiDown 0 bestModel).
  - discriminate.
  - intros q t Hq.
    assert (failedProviders openaiDown = {[ "openai" := 1000 ]}) as E
      by (vm_compute; reflexivity).
    rewrite E in Hq. apply lookup_singleton_Some in Hq as [_ <-].
    vm_compute. reflexivity.
Defined.

Lemma eviction_is_unobservable_witness :
  (isProviderFailed clock0 "openai"
     (mkTimed (obj (clearExpiredFailures clock0 (mkTimed openaiDown 0)).2) 1)).1
  = (isProviderFailed clock0 "openai" (mkTimed openaiDown 1)).1.
Proof.
  apply (eviction_is_unobservable clock0 openaiDown 0 1 "openai").
  unfold clock0. lia.
Defined.

End RouterInstances.

Module RateLimiterInstances.
Import RateLimiter RateLimiterSpec RateLimiterRuns RateLimiterProperties.

Lemma acquire_waits_in_line_witness :
  let r := obj (acquireN clockMs 3 "openai" (mkTimed fresh 0)).2 in
  ∃ r', acquire clockMs "openai" (mkTimed r 5) = (Pending 0, mkTimed r' 7)
        ∧ waiting r' "openai" = [mkQueued 0 6]
        ∧ stored r' "openai" = [0; 2; 4]
        ∧ "openai" ∈ timers r'.
Proof.
  intros r.
  assert (promises r = 0%nat) as E1 by (vm_compute; reflexivity).
  assert (cleanTicks r "openai" 5 = 6%nat) as E2 by (vm_compute; reflexivity).
  assert (waiting r "openai" = []) as E3 by (vm_compute; reflexivity).
  assert (window (clockMs 5) r "openai" = [0; 2; 4]) as E4 by (vm_compute; reflexivity).
  destruct (acquire_waits_in_line clockMs r 5 "openai" (mkRateLimitConfig "openai" 3 5))
    as (r' & H1 & H2 & H3 & H4 & _).
  - vm_compute. reflexivity.
  - rewrite E4. vm_compute. discriminate.
  - rewrite E3. vm_compute. reflexivity.
  - rewrite E1, E2 in H1. rewrite E1, E2, E3 in H2. rewrite E4 in H3.
    exists r'. split; [exact H1|]. split; [exact H2|]. split; [exact H3|exact H4].
Defined.

Lemma timer_releases_in_order_witness :
  let r := obj RequestHandlerSpec.saturated in
  ∃ r', timerFires (fun _ => 61000) "openai" (mkTimed r 3) = (tt, mkTimed r' 5)
        ∧ settled r' = [(0%nat, Resolve)]
        ∧ queues r' !! "openai" = Some []
        ∧ requestTimestamps r' !! "openai" = Some [61000].
Proof.
  intros r.
  assert (settled r = []) as E1 by (vm_compute; reflexivity).
  destruct (timer_releases_in_order (fun _ => 61000) r 3 "openai"
              (mkRateLimitConfig "openai" 1 1) [0] [mkQueued 0 2])
    as (r' & H1 & H2 & H3 & H4 & _).
  - vm_compute. reflexivity.
  - vm_compute. reflexivity.
  - vm_compute. reflexivity.
  - vm_compute. reflexivity.
  - rewrite E1 in H2.
    exists r'. split; [exact H1|]. split; [exact H2|]. split; [exact H3|exact H4].
Defined.

Lemma limiter_stays_within_capacity_witness :
  let r := obj (calls clockMs
                  [CallAcquire "openai"; CallAcquire "openai"; CallAcquire "openai";
                   CallAcquire "openai"; TimerFires "openai"; CallDispose]
                  (mkTimed fresh 0)).2 in
  Z.of_nat (length (stored r "openai")) <= Z.max 0 3
  ∧ Z.of_nat (length (waiting r "openai")) <= Z.max 0 5
  ∧ ("openai" ∈ timers r ↔ waiting r "openai" ≠ []).
Proof.
  apply (limiter_stays_within_capacity clockMs testConfigs
           [CallAcquire "openai"; CallAcquire "openai"; CallAcquire "openai";
            CallAcquire "openai"; TimerFires "openai"; CallDispose]
           0 "openai" (mkRateLimitConfig "openai" 3 5)).
  vm_compute. reflexivity.
Defined.

End RateLimiterInstances.

Module BaseProviderInstances.
Import BaseProvider BaseProviderRuns BaseProviderProperties.

Lemma user_agents_rotate_witness :
  ∃ h agent,
    (buildHeadersAll ["a"; "b"; "c"; "d"; "e"] UserAgentPool.constructor).1 !! 4%nat
      = Some h
    ∧ Authorization h = "Bearer e"
    ∧ Content_Type h = "application/json"
    ∧ UserAgentPool.agents !! 0%nat = Some agent
    ∧ User_Agent h = agent
    ∧ ∀ j h', (buildHeadersAll ["a"; "b"; "c"; "d"; "e"] UserAgentPool.constructor).1 !! j
                = Some h' →
              (User_Agent h' = agent ↔ (j `mod` 4 = 0)%nat).
Proof.
  apply (user_agents_rotate ["a"; "b"; "c"; "d"; "e"] 4 "e"). reflexivity.
Defined.

End BaseProviderInstances.

Module HttpHandlerInstances.
Import RequestHandler RequestHandlerSpec GatewayProxy GatewayProxySpec
  HttpHandlerProperties.

Lemma invalid_body_is_answered_400_witness :
  ∃ message,
    parseRequest (JsObject [("model", JsString "gpt-4")]) = Throw (JsError message)
    ∧ handleChatCompletions RouterSpec.clock0 twoIds idOnly err_message
        (fun _ p => Return (tokenOf p)) adapters quiet resolves 3
        (JsObject [("model", JsString "gpt-4")]) world0
      = (JsonError 400 (mkOpenAIError message "invalid_request_error" None), world0).
Proof.
  apply (invalid_body_is_answered_400 RouterSpec.clock0 twoIds idOnly err_message
           (fun _ p => Return (tokenOf p)) adapters quiet resolves 3
           (JsObject [("model", JsString "gpt-4")]) world0).
  vm_compute. discriminate.
Defined.

Lemma unknown_model_is_answered_400_server_error_witness :
  (handleChatCompletions RouterSpec.clock0 twoIds idOnly err_message
     (fun _ p => Return (tokenOf p)) adapters quiet resolves 3
     (chatBody "nope" (JsBool false)) world0).1
  = JsonError 400 (mkOpenAIError "Unknown model: nope" "server_error" None).
Proof.
  destruct (unknown_model_is_answered_400_server_error RouterSpec.clock0 twoIds idOnly
              err_message (fun _ p => Return (tokenOf p)) adapters quiet resolves 3
              (chatBody "nope" (JsBool false)) world0 "nope") as [_ H].
  - vm_compute. reflexivity.
  - reflexivity.
  - reflexivity.
  - vm_compute. reflexivity.
  - reflexivity.
  - reflexivity.
  - reflexivity.
  - reflexivity.
  - exact H.
Defined.

Example stream_fails_midway :
  handleCompletionStream RouterSpec.clock0 twoIds idOnly (fun _ p => Return (tokenOf p))
    adapters quiet resolves 1 (asRequest (chatBody "best-model" (JsBool true))) world0
  = ((["data: chatcmpl-0000-a" +:+ LF +:+ LF], Failed unavailable),
     (handleCompletionStream RouterSpec.clock0 twoIds idOnly
        (fun _ p => Return (tokenOf p)) adapters quiet resolves 1
        (asRequest (chatBody "best-model" (JsBool true))) world0).2).
Proof. vm_compute. reflexivity. Qed.

Lemma stream_answer_ends_with_done_witness :
  (handleChatCompletions RouterSpec.clock0 twoIds idOnly err_message
     (fun _ p => Return (tokenOf p)) adapters quiet resolves 1
     (chatBody "best-model" (JsBool true)) world0).1
  = EventStream ["data: chatcmpl-0000-a" +:+ LF +:+ LF;
                 "data: Stream failed" +:+ LF +:+ LF;
                 "data: [DONE]" +:+ LF +:+ LF].
Proof.
  destruct (stream_answer_ends_with_done RouterSpec.clock0 twoIds idOnly err_message
              (fun _ p => Return (tokenOf p)) adapters quiet resolves 1
              (chatBody "best-model" (JsBool true)) world0 _ _ _
              eq_refl eq_refl stream_fails_midway) as (before & H & _ & Hfail).
  rewrite H, (Hfail unavailable eq_refl). reflexivity.
Defined.

End HttpHandlerInstances.

Module RequestHandlerInstances.
Import RequestHandler RequestHandlerSpec RequestHandlerProperties.

Lemma first_attempt_success_witness :
  ∃ w',
    handleCompletion RouterSpec.clock0 twoIds (fun _ p => Return (tokenOf p))
      adapters quiet resolves 3 (requestFor "gemini/gemini-pro") world0
    = (Completed
         (mkResponse "chatcmpl-0000-a" 1 "gemini/gemini-pro"
            [mkChoice 0 (mkMessage "assistant" "from gemini" None None) (Some fr_stop)]
            (mkUsage 10 5 15)), w')
    ∧ usage w' = [("gemini", "gemini-pro", mkUsage 10 5 15)].
Proof.
  pose (sel := mkProviderModel "gemini" "gemini-pro" 0).
  pose (w1 := (onRouter (Router.selectProvider RouterSpec.clock0 [sel]) world0).2).
  pose (w2 := (awaitAcquire RouterSpec.clock0 quiet resolves "gemini" w1).2).
  destruct (first_attempt_success RouterSpec.clock0 twoIds (fun _ p => Return (tokenOf p))
              adapters quiet resolves 3 (requestFor "gemini/gemini-pro") world0 w1 w2
              [sel] sel (tokenOf "gemini")
              (mkProvider (fun _ _ => Return (reply "from gemini"))
                          (fun _ _ => ([textChunk "Hello"], None)))
              (reply "from gemini")) as (w' & H1 & H2 & _).
  - lia.
  - vm_compute. reflexivity.
  - vm_compute. reflexivity.
  - vm_compute. reflexivity.
  - reflexivity.
  - vm_compute. reflexivity.
  - reflexivity.
  - exists w'. split; [exact H1 | exact H2].
Defined.

Lemma failure_without_fallback_witness :
  (handleCompletion RouterSpec.clock0 twoIds (fun _ p => Return (tokenOf p))
     adapters quiet resolves 1 (requestFor "best-model") world0).1
  = Failed unavailable.
Proof.
  pose (sel := mkProviderModel "openai" "gpt-4" 1).
  pose (w1 := (onRouter (Router.selectProvider RouterSpec.clock0 RouterSpec.bestModel)
                 world0).2).
  destruct (failure_without_fallback RouterSpec.clock0 twoIds idOnly
              (fun _ p => Return (tokenOf p)) adapters quiet resolves 1
              (requestFor "best-model") world0 w1 RouterSpec.bestModel sel) as [H _].
  - lia.
  - vm_compute. reflexivity.
  - vm_compute. reflexivity.
  - rewrite (H unavailable
               (tryCompletion RouterSpec.clock0 twoIds (fun _ p => Return (tokenOf p))
                  adapters quiet resolves (requestFor "best-model") sel w1).2).
    + reflexivity.
    + vm_compute. reflexivity.
    + by right.
Defined.

End RequestHandlerInstances.

Module AuthManagerInstances.
Import AuthManagerSpec AuthManagerRuns AuthManagerProperties.

Lemma getValidToken_serves_unexpired_witness :
  (AuthManager.getValidToken clock0 diskOk endpointOk "openai" (mkTimed signedIn 0)).1
  = Return current.
Proof.
  rewrite (getValidToken_serves_unexpired clock0 diskOk endpointOk signedIn 0 "openai"
             current).
  - reflexivity.
  - vm_compute. reflexivity.
  - vm_compute. reflexivity.
Defined.

Lemma getValidToken_without_refresh_token_witness :
  (AuthManager.getValidToken clock0 diskOk endpointOk "openai" (mkTimed signedOut 0)).1
  = Throw (JsError ("Token expired for provider openai and no refresh token available. "
                    +:+ "Please re-authenticate.")).
Proof.
  destruct (getValidToken_without_refresh_token clock0 diskOk endpointOk signedOut 0
              "openai") as (k' & H & _).
  - left. vm_compute. reflexivity.
  - rewrite H. reflexivity.
Defined.

Lemma device_flow_times_out_witness :
  AuthManager.completeDeviceFlow clock0 diskOk neverGranted "openai" "device-1"
    (mkTimed withOAuth 0)
  = (Throw (JsError "Device flow timed out for openai"), mkTimed withOAuth 0).
Proof.
  apply (device_flow_times_out clock0 diskOk neverGranted withOAuth 0 "openai" "device-1"
           oauthConfig).
  - split; [vm_compute; reflexivity|]. by repeat split.
  - intros i _. eexists. left. reflexivity.
Defined.

Lemma device_flow_stores_token_witness :
  ∃ a',
    AuthManager.completeDeviceFlow clock0 diskOk grantedAtThird "openai" "device-1"
      (mkTimed withOAuth 0)
    = (Return (mkTokenSet "device-access" (Some "refresh-2") 3601000 "openai"),
       mkTimed a' 1)
    ∧ storedToken (AuthManager.tokenStore a') "openai"
      = Some (mkTokenSet "device-access" (Some "refresh-2") 3601000 "openai").
Proof.
  destruct (device_flow_stores_token clock0 diskOk grantedAtThird withOAuth 0 "openai"
              "device-1" oauthConfig 3
              (AuthManager.mkTokenResponse "device-access" (Some "refresh-2") 3600))
    as (a' & H1 & H2 & _).
  - split; [vm_compute; reflexivity|]. by repeat split.
  - lia.
  - intros i Hi. eexists. left.
    unfold grantedAtThird. destruct (Nat.ltb_spec i 3) as [_|Hge]; [reflexivity|lia].
  - reflexivity.
  - reflexivity.
  - exists a'. split; [exact H1 | exact H2].
Defined.

End AuthManagerInstances.

Module DashboardRoutesInstances.
Import AuthManagerSpec AuthManagerRuns DashboardRoutesProperties.

Lemma posted_token_is_served_until_it_expires_witness :
  ∃ a',
    DashboardRoutes.postToken clock0 diskOk "openai"
      (DashboardRoutes.mkTokenBody "sk-manual" None) (mkTimed apiOnly 0)
    = ((200, DashboardRoutes.Success "openai"), mkTimed a' 1)
    ∧ (AuthManager.getValidToken clock0 diskOk endpointOk "openai" (mkTimed a' 1)).1
      = Return (mkTokenSet "sk-manual" None 3601000 "openai").
Proof.
  destruct (posted_token_is_served_until_it_expires clock0 diskOk endpointOk apiOnly 0
              "openai" (DashboardRoutes.mkTokenBody "sk-manual" None))
    as (a' & H1 & H2).
  - reflexivity.
  - exists a'. split; [exact H1|].
    destruct (H2 1%nat) as [H _]. apply H. vm_compute. reflexivity.
Defined.

End DashboardRoutesInstances.

Module UsageTrackerInstances.
Import UsageTrackerSpec UsageTrackerProperties.

Example small_run_in_range :
  withinExactRange (recordedIn [Recorded "openai" "gpt-4" (mkUsage 10 5 15);
                                WasReset;
                                Recorded "gemini" "gemini-pro" (mkUsage 7 3 10);
                                Recorded "openai" "gpt-4" (mkUsage 1 1 2)]).
Proof.
  split; [repeat constructor; cbn; lia|]. vm_compute. repeat split; discriminate.
Qed.

Lemma totals_match_entries_witness :
  consistent
    (obj (events toEven (fun _ => 1000)
            [Recorded "openai" "gpt-4" (mkUsage 10 5 15);
             WasReset;
             Recorded "gemini" "gemini-pro" (mkUsage 7 3 10);
             Recorded "openai" "gpt-4" (mkUsage 1 1 2)]
            (fresh (fun _ => 1000) 0)).2).
Proof.
  exact (totals_match_entries toEven (fun _ => 1000) _ 0 small_run_in_range).
Defined.

Lemma entries_add_up_witness :
  UsageTracker.byProvider
    (obj (events toEven (fun _ => 1000)
            [Recorded "openai" "gpt-4" (mkUsage 10 5 15);
             WasReset;
             Recorded "gemini" "gemini-pro" (mkUsage 7 3 10);
             Recorded "openai" "gpt-4" (mkUsage 1 1 2)]
            (fresh (fun _ => 1000) 0)).2) !! "openai"
  = Some (UsageTracker.mkModelUsage 1 1 1 2).
Proof.
  destruct (entries_add_up toEven (fun _ => 1000) _ 0 small_run_in_range "openai")
    as [H _].
  rewrite H. vm_compute. reflexivity.
Defined.

(** Beyond 2^53 the totals and the entries part: the total rounds
    2^53 + 1 to 2^53 twice, the entry of [b] holds 2. *)
Example rounding_breaks_agreement :
  let t := obj (events toEven (fun _ => 1000)
                  [Recorded "a" "m" huge; Recorded "b" "m" one; Recorded "b" "m" one]
                  (fresh (fun _ => 1000) 0)).2 in
  UsageTracker.totalPromptTokens t = 2 ^ 53
  ∧ UsageTracker.byProvider t !! "a" = Some (UsageTracker.mkModelUsage 1 (2 ^ 53) 0 (2 ^ 53))
  ∧ UsageTracker.byProvider t !! "b" = Some (UsageTracker.mkModelUsage 2 2 0 2).
Proof. vm_compute. repeat split; reflexivity. Qed.

End UsageTrackerInstances.

Module OpenAIProviderInstances.
Import OpenAIProvider OpenAIProviderSpec OpenAIProviderProperties.

Lemma stream_reads_whole_lines_witness :
  chatCompletionStream decodeLatin (fun s => s)
    (fun s => Some (RequestHandlerSpec.textChunk s)) twoChunks None
  = chatCompletionStream decodeLatin (fun s => s)
      (fun s => Some (RequestHandlerSpec.textChunk s)) [concat twoChunks] None.
Proof.
  destruct (stream_reads_whole_lines decodeLatin (fun s => s)
              (fun s => Some (RequestHandlerSpec.textChunk s)) twoChunks None)
    as [_ H].
  apply H. vm_compute. reflexivity.
Defined.

Example two_chunks_yield :
  chatCompletionStream decodeLatin (fun s => s)
    (fun s => Some (RequestHandlerSpec.textChunk s)) twoChunks None
  = ([RequestHandlerSpec.textChunk "Hel"; RequestHandlerSpec.textChunk "lo"], None).
Proof. vm_compute. reflexivity. Qed.

End OpenAIProviderInstances.

Module GeminiProviderInstances.
Import GeminiProvider GeminiProviderSpec GeminiProviderProperties.

Lemma convertMessages_roles_witness :
  ∃ contents,
    convertMessages (fun _ => Return JsNull) (fun s => s)
      [mkRequestMessage "system" (Some "Be brief.") None None;
       mkRequestMessage "user" (Some "Hi") None None;
       mkRequestMessage "assistant" (Some "Hello") None None]
    = Return contents
    ∧ Forall (fun c => parts c ≠ []) contents
    ∧ role <$> contents = ["user"; "model"].
Proof.
  apply (convertMessages_roles (fun _ => Return JsNull) (fun s => s)
           [mkRequestMessage "system" (Some "Be brief.") None None;
            mkRequestMessage "user" (Some "Hi") None None;
            mkRequestMessage "assistant" (Some "Hello") None None]).
  repeat constructor; intros; try discriminate; by eexists.
Defined.

End GeminiProviderInstances.
